(** * Warmup Worm's Terminal Typer: session, scoring and leaderboard

    A shallow embedding of [src/wormtype.cpp]: the persisted leaderboard
    format ([loadLeaderboard], [saveLeaderboard]), the ranking
    ([compareScores], [addToLeaderboard]), the text generator and the typing
    loop of [main], followed by the properties of the specification.

    Conventions.
    - [std::string] is a list of characters; [size_t] is a [Z] in
      [0, 2^64) and [std::string::npos] is [2^64 - 1]. The position
      arithmetic of the loader, where [npos] takes part, is wrapped with
      [wrap]; a position below a string's size is incremented as it is.
    - [double] is an IEEE 754 binary64 value ([spec_float] with precision 53
      and maximal exponent 1024); the arithmetic is the correctly rounded one
      of [SpecFloat].
    - An exception is the [Throw] case of [result]; [try { } catch
      (const std::exception&) { }] is [try_catch].
    - [std::stod] is [strtod] as glibc has it on x86-64, where underflow is
      detected after rounding.
    - [time(nullptr)], [rand()], [has_colors()] and the clock text of
      [strftime] are inputs of the functions that call them. *)

From Stdlib Require Import ZArith List Ascii Bool Lia.
From Stdlib Require String.
From Stdlib Require Import Permutation Sorted.
From Stdlib Require Import SpecFloat.
Import ListNotations.
Import String.StringSyntax.
Delimit Scope string_scope with string.
Local Open Scope Z_scope.

(** ** The C++ library the program uses *)

Module Cxx.

Inductive exn : Set :=
| invalid_argument
| out_of_range.

Inductive result (A : Type) : Type :=
| Ok (a : A)
| Throw (e : exn).

Arguments Ok {A} a.
Arguments Throw {A} e.

Definition bind {A B : Type} (r : result A) (k : A -> result B) : result B :=
  match r with
  | Ok a => k a
  | Throw e => Throw e
  end.

(** [try { body } catch (const std::exception&) { handler }]: both exceptions
    of the model derive from [std::exception]. *)
Definition try_catch {A : Type} (body : result A) (handler : A) : A :=
  match body with
  | Ok a => a
  | Throw _ => handler
  end.

Definition str : Type := list ascii.

Definition lit (s : String.string) : str := String.list_ascii_of_string s.

Arguments lit s%_string.

Definition size (s : str) : Z := Z.of_nat (length s).

Definition npos : Z := 2 ^ 64 - 1.

Definition wrap (z : Z) : Z := z mod 2 ^ 64.

(** [s[i]]; [s[s.size()]] is the terminating NUL. *)
Definition at_ (s : str) (i : Z) : ascii := nth (Z.to_nat i) s zero.

Fixpoint index_from (c : ascii) (s : str) (i : Z) : Z :=
  match s with
  | [] => npos
  | x :: r => if Ascii.eqb x c then i else index_from c r (i + 1)
  end.

(** [s.find(c, pos)] *)
Definition find (s : str) (c : ascii) (pos : Z) : Z :=
  if size s <=? pos then npos
  else index_from c (skipn (Z.to_nat pos) s) pos.

Definition substr_chars (s : str) (pos n : Z) : str :=
  firstn (Z.to_nat (Z.min n (size s - pos))) (skipn (Z.to_nat pos) s).

(** [s.substr(pos, n)]: throws when [pos > size()]. *)
Definition substr (s : str) (pos n : Z) : result str :=
  if size s <? pos then Throw out_of_range
  else Ok (substr_chars s pos n).

(** [s.pop_back()] on a non-empty string. *)
Definition pop_back (s : str) : str := removelast s.

Definition code (c : ascii) : Z := Z.of_nat (nat_of_ascii c).

Definition chr (z : Z) : ascii := ascii_of_nat (Z.to_nat z).

(** [::toupper] in the "C" locale (the program never calls [setlocale]). *)
Definition toupper (c : ascii) : ascii :=
  if (97 <=? code c) && (code c <=? 122) then chr (code c - 32) else c.

Definition tolower (c : ascii) : ascii :=
  if (65 <=? code c) && (code c <=? 90) then chr (code c + 32) else c.

Definition isspace (c : ascii) : bool :=
  (code c =? 32) || ((9 <=? code c) && (code c <=? 13)).

Definition digit_val (c : ascii) : option Z :=
  if (48 <=? code c) && (code c <=? 57) then Some (code c - 48) else None.

Definition hex_val (c : ascii) : option Z :=
  let k := code (tolower c) in
  match digit_val c with
  | Some d => Some d
  | None => if (97 <=? k) && (k <=? 102) then Some (k - 87) else None
  end.

Fixpoint skip_space (s : str) : str :=
  match s with
  | c :: r => if isspace c then skip_space r else s
  | [] => []
  end.

(** The longest prefix of digits in base [base]: its value on top of [acc],
    how many digits it has, and what follows it. *)
Fixpoint span_digits (val : ascii -> option Z) (base : Z) (s : str) (acc n : Z)
  : Z * Z * str :=
  match s with
  | c :: r =>
      match val c with
      | Some d => span_digits val base r (acc * base + d) (n + 1)
      | None => (acc, n, s)
      end
  | [] => (acc, n, [])
  end.

Definition take_sign (s : str) : bool * str :=
  match s with
  | "-"%char :: r => (true, r)
  | "+"%char :: r => (false, r)
  | _ => (false, s)
  end.

Definition INT_MIN : Z := - 2 ^ 31.
Definition INT_MAX : Z := 2 ^ 31 - 1.

(** [std::stoi(s)]: [strtol] in base 10 on the text, [invalid_argument] when
    no digit was read, [out_of_range] when the value is not an [int]. *)
Definition stoi (s : str) : result Z :=
  let '(neg, s1) := take_sign (skip_space s) in
  let '(v, n, _) := span_digits digit_val 10 s1 0 0 in
  if n =? 0 then Throw invalid_argument
  else
    let v := if neg then - v else v in
    if (INT_MIN <=? v) && (v <=? INT_MAX) then Ok v else Throw out_of_range.

Definition digit_char (d : Z) : ascii := chr (48 + d).

Fixpoint show_digits (fuel : nat) (n : Z) (acc : str) : str :=
  match fuel with
  | O => acc
  | S f =>
      let acc' := digit_char (n mod 10) :: acc in
      if n <? 10 then acc' else show_digits f (n / 10) acc'
  end.

(** Decimal text of [n >= 0]; a number has at most [log2 n + 1] digits. *)
Definition show_nat (n : Z) : str :=
  show_digits (S (Z.to_nat (Z.log2 n))) n [].

(** [ostream << int] *)
Definition show_int (z : Z) : str :=
  if z <? 0 then "-"%char :: show_nat (- z) else show_nat z.

End Cxx.

(** ** IEEE 754 binary64: arithmetic, [std::stod] and [ostream << double] *)

Module Dbl.
Import Cxx.

Definition double : Set := spec_float.

Definition prec : Z := 53.
Definition emax : Z := 1024.

Definition ddiv (x y : double) : double := SFdiv prec emax x y.
Definition dmul (x y : double) : double := SFmul prec emax x y.

(** The comparisons of C++ on [double]: each is false on a NaN, except [!=]. *)
Definition dlt (x y : double) : bool := SFltb x y.
Definition dgt (x y : double) : bool := SFltb y x.
Definition dge (x y : double) : bool := SFleb y x.
Definition deq (x y : double) : bool := SFeqb x y.
Definition dne (x y : double) : bool := negb (SFeqb x y).

Definition is_nan (x : double) : bool :=
  match x with
  | S754_nan => true
  | _ => false
  end.

(** Conversion of an integer to [double] (round to nearest, ties to even). *)
Definition of_Z (z : Z) : double := binary_normalize prec emax z 0 false.

(** The [double] nearest to [n / d], for [n >= 0] and [d > 0], with sign
    [neg]: the quotient's bits and the position of the remainder go through
    the rounding of [SpecFloat], as a division does. *)
Definition ratio (neg : bool) (n d : Z) : double :=
  match n with
  | Z0 => S754_zero neg
  | _ =>
      let '(m, e, l) := SFdiv_core_binary prec emax n 0 d 0 in
      binary_round_aux prec emax neg m e l
  end.

Definition is_exact (x : double) (n d : Z) : bool :=
  match x with
  | S754_zero _ => n =? 0
  | S754_finite _ m e =>
      if 0 <=? e then Zpos m * 2 ^ e * d =? n else Zpos m * d =? n * 2 ^ (- e)
  | _ => false
  end.

Definition is_tiny (x : double) : bool :=
  match x with
  | S754_zero _ => true
  | S754_finite _ m _ => Zpos (digits2_pos m) <? prec
  | _ => false
  end.

(** The smallest normal number, [2 ^ -1022], of either sign. *)
Definition is_min_normal (x : double) : bool :=
  match x with
  | S754_finite _ m e => (Zpos m =? 2 ^ 52) && (e =? -1074)
  | _ => false
  end.

(** [n / d < 2 ^ -1022 - 2 ^ -1076]: rounded to 53 bits with no bound on the
    exponent, such a value stays below the smallest normal number. *)
Definition rounds_below_normal (n d : Z) : bool :=
  n * 2 ^ 1076 <? d * (2 ^ 54 - 1).

(** [strtod]'s test for underflow where tininess is detected after rounding
    (glibc on x86-64): the result is zero or subnormal, or it is the smallest
    normal number reached from a value that 53 bits alone would have left
    below it. *)
Definition underflows (x : double) (n d : Z) : bool :=
  is_tiny x || (is_min_normal x && rounds_below_normal n d).

(** What [strtod] returns for the digits [m] scaled by [base ^ e]; [ERANGE]
    (overflow, or a tiny inexact result) is [std::stod]'s [out_of_range]. *)
Definition finish (neg : bool) (m base e : Z) : result double :=
  let n := if 0 <=? e then m * base ^ e else m in
  let d := if 0 <=? e then 1 else base ^ (- e) in
  let x := ratio neg n d in
  match x with
  | S754_infinity _ => Throw out_of_range
  | _ =>
      if underflows x n d && negb (is_exact x n d) then Throw out_of_range
      else Ok x
  end.

Fixpoint starts_with_ci (p s : str) : option str :=
  match p, s with
  | [], _ => Some s
  | a :: p', c :: s' =>
      if Ascii.eqb (tolower c) a then starts_with_ci p' s' else None
  | _ :: _, [] => None
  end.

(** Digits with an optional point: the digits' value, how many of them
    follow the point, and the rest; [None] without any digit. *)
Definition parse_mantissa (val : ascii -> option Z) (base : Z) (s : str)
  : option (Z * Z * str) :=
  let '(ip, ni, r1) := span_digits val base s 0 0 in
  let '(m, nf, r2) :=
    match r1 with
    | "."%char :: r => span_digits val base r ip 0
    | _ => (ip, 0, r1)
    end in
  if ni + nf =? 0 then None else Some (m, nf, r2).

(** An exponent part, read only when a digit follows its marker. *)
Definition parse_exponent (marker : ascii) (s : str) : Z :=
  match s with
  | c :: r =>
      if Ascii.eqb (tolower c) marker then
        let '(neg, r1) := take_sign r in
        let '(v, n, _) := span_digits digit_val 10 r1 0 0 in
        if n =? 0 then 0 else if neg then - v else v
      else 0
  | [] => 0
  end.

(** [std::stod(s)]: [strtod] on the text (white space, sign, then
    [inf]/[infinity], [nan], a hexadecimal or a decimal number; what follows
    the number is ignored), [invalid_argument] when nothing was read. *)
Definition stod (s : str) : result double :=
  let '(neg, s1) := take_sign (skip_space s) in
  match starts_with_ci (lit "inf") s1, starts_with_ci (lit "nan") s1 with
  | Some _, _ => Ok (S754_infinity neg)
  | None, Some _ => Ok S754_nan
  | None, None =>
      let hex :=
        match starts_with_ci (lit "0x") s1 with
        | Some r => parse_mantissa hex_val 16 r
        | None => None
        end in
      match hex with
      | Some (m, nf, r) => finish neg m 2 (parse_exponent "p" r - 4 * nf)
      | None =>
          match parse_mantissa digit_val 10 s1 with
          | Some (m, nf, r) => finish neg m 10 (parse_exponent "e" r - nf)
          | None => Throw invalid_argument
          end
      end
  end.

(** [n / d >= 10 ^ x] *)
Definition ge_pow10 (n d x : Z) : bool :=
  if 0 <=? x then 10 ^ x * d <=? n else d <=? n * 10 ^ (- x).

(** The decimal exponent of [n / d > 0]: the [x] with
    [10 ^ x <= n / d < 10 ^ (x + 1)], searched upwards from an underestimate. *)
Definition dec_exponent (n d : Z) : Z :=
  let x0 := (Z.log2 n - Z.log2 d - 1) * 30103 / 100000 - 1 in
  if ge_pow10 n d (x0 + 3) then x0 + 3
  else if ge_pow10 n d (x0 + 2) then x0 + 2
  else if ge_pow10 n d (x0 + 1) then x0 + 1
  else x0.

Definition round_half_even (n d : Z) : Z :=
  let q := n / d in
  match 2 * (n mod d) ?= d with
  | Lt => q
  | Gt => q + 1
  | Eq => if Z.even q then q else q + 1
  end.

(** [n / d] to six significant digits: the digits as a number in
    [10^5, 10^6) and the decimal exponent of the rounded value. *)
Definition six_digits (n d : Z) : Z * Z :=
  let x := dec_exponent n d in
  let q :=
    if 5 <=? x then round_half_even n (d * 10 ^ (x - 5))
    else round_half_even (n * 10 ^ (5 - x)) d in
  if q =? 1000000 then (100000, x + 1) else (q, x).

Fixpoint drop_zeros (s : str) : str :=
  match s with
  | "0"%char :: r => drop_zeros r
  | _ => s
  end.

(** The integer part followed by the fraction without its trailing zeros,
    and without the point when nothing remains of it. *)
Definition with_fraction (int_part frac : str) : str :=
  match rev (drop_zeros (rev frac)) with
  | [] => int_part
  | f => int_part ++ "."%char :: f
  end.

Definition show_exponent (x : Z) : str :=
  "e"%char :: (if x <? 0 then "-"%char else "+"%char)
    :: (if Z.abs x <? 10 then ["0"%char] else []) ++ show_nat (Z.abs x).

(** The [%g] conversion with precision 6 of the digits [q] and exponent [x]. *)
Definition show_g (q x : Z) : str :=
  let ds := show_nat q in
  if (-4 <=? x) && (x <? 6) then
    if 0 <=? x then
      with_fraction (firstn (Z.to_nat (x + 1)) ds) (skipn (Z.to_nat (x + 1)) ds)
    else
      with_fraction ["0"%char] (repeat "0"%char (Z.to_nat (- x - 1)) ++ ds)
  else
    with_fraction (firstn 1 ds) (skipn 1 ds) ++ show_exponent x.

Definition show_sign (neg : bool) : str := if neg then ["-"%char] else [].

(** [ostream << double] with the stream's default format and precision
    ([%g] with six significant digits). [spec_float] has one NaN and keeps
    no sign for it: its text is "nan" here, where the program writes "nan"
    or "-nan" after the sign bit ("-nan" for [0.0 / 0.0] on x86-64). [stod]
    reads either text as the NaN. *)
Definition show_double (x : double) : str :=
  match x with
  | S754_nan => lit "nan"
  | S754_infinity s => show_sign s ++ lit "inf"
  | S754_zero s => show_sign s ++ lit "0"
  | S754_finite s m e =>
      let n := if 0 <=? e then Zpos m * 2 ^ e else Zpos m in
      let d := if 0 <=? e then 1 else 2 ^ (- e) in
      let '(q, x) := six_digits n d in
      show_sign s ++ show_g q x
  end.

End Dbl.

(** ** The leaderboard: records, file format, ranking *)

Module Board.
Import Cxx Dbl.

(** [struct PlayerScore] *)
Record PlayerScore : Type := mkScore {
  name : str;
  wpm : double;
  accuracy : double;
  time : double;
  date : str;
  wordCount : Z;
  hasPunctuation : bool;
  hasNumbers : bool
}.

Definition toUpperCase (s : str) : str := map toupper s.

Definition bar : ascii := "|"%char.
Definition newline : ascii := "010"%char.

(** The lines [std::getline] hands to the loop, one after the other: a last
    line without its newline is still read, an empty rest is not. *)
Fixpoint getlines (cur : str) (s : str) : list str :=
  match s with
  | [] =>
      match cur with
      | [] => []
      | _ => [rev cur]
      end
  | c :: r =>
      if Ascii.eqb c newline then rev cur :: getlines [] r
      else getlines (c :: cur) r
  end.

Section Loader.

(** The two conversions the loader calls; [loadLeaderboard] is the loader at
    [std::stod] and [std::stoi]. *)
Variable stod_ : str -> result double.
Variable stoi_ : str -> result Z.

Notation "'do' x <- r ; k" := (bind r (fun x => k))
  (at level 10, x name, r at level 100, k at level 200).

(** The [try] block of the newest format. *)
Definition parse_newest (line : str) (pos4 pos5 pos6 pos7 : Z)
  : result (str * Z * bool * bool) :=
  do date <- substr line (wrap (pos4 + 1)) (wrap (pos5 - pos4 - 1));
  do wcs <- substr line (wrap (pos5 + 1)) (wrap (pos6 - pos5 - 1));
  do wordCount <- stoi_ wcs;
  do ps <- substr line (wrap (pos6 + 1)) (wrap (pos7 - pos6 - 1));
  do p <- stoi_ ps;
  do ns <- substr line (wrap (pos7 + 1)) npos;
  do n <- stoi_ ns;
  Ok (date, wordCount, p =? 1, n =? 1).

(** The [try] block of the format with a word count and no flags. *)
Definition parse_counted (line : str) (pos4 pos5 : Z) : result (str * Z) :=
  do date <- substr line (wrap (pos4 + 1)) (wrap (pos5 - pos4 - 1));
  do wcs <- substr line (wrap (pos5 + 1)) npos;
  do wordCount <- stoi_ wcs;
  Ok (date, wordCount).

(** The body of the [while] loop on one line: the record it appends, if any. *)
Definition load_line (line : str) : result (option PlayerScore) :=
  let pos1 := find line bar 0 in
  let pos2 := find line bar (wrap (pos1 + 1)) in
  let pos3 := find line bar (wrap (pos2 + 1)) in
  let pos4 := find line bar (wrap (pos3 + 1)) in
  let pos5 := find line bar (wrap (pos4 + 1)) in
  let pos6 := find line bar (wrap (pos5 + 1)) in
  let pos7 := find line bar (wrap (pos6 + 1)) in
  if negb (pos1 =? npos) && negb (pos2 =? npos) && negb (pos3 =? npos) then
    do n <- substr line 0 pos1;
    let name := toUpperCase n in
    do ws <- substr line (wrap (pos1 + 1)) (wrap (pos2 - pos1 - 1));
    do wpm <- stod_ ws;
    do accs <- substr line (wrap (pos2 + 1)) (wrap (pos3 - pos2 - 1));
    do accuracy <- stod_ accs;
    if negb (pos4 =? npos) then
      do ts <- substr line (wrap (pos3 + 1)) (wrap (pos4 - pos3 - 1));
      do time <- stod_ ts;
      if negb (pos7 =? npos) then
        let '(date, wordCount, hasPunctuation, hasNumbers) :=
          try_catch (parse_newest line pos4 pos5 pos6 pos7)
                    (lit "Unknown", 15, false, false) in
        Ok (Some (mkScore name wpm accuracy time date wordCount
                          hasPunctuation hasNumbers))
      else if negb (pos5 =? npos) then
        let '(date, wordCount) :=
          try_catch (parse_counted line pos4 pos5) (lit "Unknown", 15) in
        Ok (Some (mkScore name wpm accuracy time date wordCount false false))
      else
        do d <- substr line (wrap (pos4 + 1)) npos;
        let date := match d with [] => lit "Unknown" | _ => d end in
        Ok (Some (mkScore name wpm accuracy time date 15 false false))
    else
      do ts <- substr line (wrap (pos3 + 1)) npos;
      do time <- stod_ ts;
      Ok (Some (mkScore name wpm accuracy time (lit "Unknown") 15 false false))
  else Ok None.

(** The [while (std::getline(file, line))] loop: an exception that leaves
    the body leaves the loop and the function. *)
Fixpoint load_lines (lines : list str) (leaderboard : list PlayerScore)
  : result (list PlayerScore) :=
  match lines with
  | [] => Ok leaderboard
  | line :: rest =>
      do r <- load_line line;
      load_lines rest
        (match r with
         | Some score => leaderboard ++ [score]
         | None => leaderboard
         end)
  end.

End Loader.

(** [loadLeaderboard()] on the contents of [leaderboard.txt]; [None] is a
    file that cannot be opened. *)
Definition loadLeaderboard (file : option str) : result (list PlayerScore) :=
  match file with
  | Some text => load_lines stod stoi (getlines [] text) []
  | None => Ok []
  end.

Definition show_flag (b : bool) : str := show_int (if b then 1 else 0).

(** One iteration of the loop of [saveLeaderboard]. *)
Definition save_line (s : PlayerScore) : str :=
  name s ++ bar :: show_double (wpm s) ++ bar :: show_double (accuracy s)
    ++ bar :: show_double (time s) ++ bar :: date s
    ++ bar :: show_int (wordCount s) ++ bar :: show_flag (hasPunctuation s)
    ++ bar :: show_flag (hasNumbers s) ++ [newline].

(** [saveLeaderboard(leaderboard)]: the text written to the file. *)
Definition saveLeaderboard (leaderboard : list PlayerScore) : str :=
  concat (map save_line leaderboard).

(** [compareScores(a, b)] *)
Definition compareScores (a b : PlayerScore) : bool :=
  if dne (wpm a) (wpm b) then dgt (wpm a) (wpm b)
  else dgt (accuracy a) (accuracy b).

Section Sort.
Variable comp : PlayerScore -> PlayerScore -> bool.

Fixpoint insert_sorted (x : PlayerScore) (l : list PlayerScore)
  : list PlayerScore :=
  match l with
  | [] => [x]
  | y :: r => if comp x y then x :: l else y :: insert_sorted x r
  end.

(** [std::sort(first, last, comp)], as an insertion sort from the left: each
    element is put in front of the first element it is ordered before. The
    library promises a permutation ordered by [comp] when [comp] is a strict
    weak ordering of the elements, and nothing about the order of elements
    that tie; with a NaN among the WPMs [comp] is no such ordering, and the
    order the library leaves may be another one. *)
Definition sort (l : list PlayerScore) : list PlayerScore :=
  fold_left (fun sorted x => insert_sorted x sorted) l [].

End Sort.

(** [addToLeaderboard(leaderboard, newScore)]: the leaderboard afterwards. *)
Definition addToLeaderboard (leaderboard : list PlayerScore)
  (newScore : PlayerScore) : list PlayerScore :=
  let leaderboard := sort compareScores (leaderboard ++ [newScore]) in
  if 10 <? Z.of_nat (length leaderboard) then firstn 10 leaderboard
  else leaderboard.

End Board.

(** ** The text source: the word pools of [main] and the generation loop *)

Module TextSource.
Import Cxx.

(** The base word list. *)
Definition words : list str :=
  map lit [
    "the"; "quick"; "brown"; "fox"; "jumps"; "over"; "lazy"; "dog";
    "hello"; "world"; "typing"; "test"; "program"; "simple"; "fast";
    "computer"; "keyboard"; "screen"; "mouse"; "software"; "hardware";
    "internet"; "website"; "email"; "password"; "username"; "login";
    "download"; "upload"; "file"; "folder"; "document"; "window";
    "button"; "click"; "double"; "right"; "left"; "center"; "top";
    "bottom"; "middle"; "side"; "front"; "back"; "forward"; "backward";
    "up"; "down"; "north"; "south"; "east"; "west"; "morning";
    "afternoon"; "evening"; "night"; "today"; "tomorrow"; "yesterday";
    "week"; "month"; "year"; "time"; "clock"; "watch"; "minute"; "second";
    "hour"; "schedule"; "appointment"; "meeting"; "conference";
    "presentation"; "project"; "task"; "work"; "job"; "career";
    "business"; "company"; "office"; "desk"; "chair"; "table"; "phone";
    "mobile"; "tablet"; "laptop"; "desktop"; "server"; "network";
    "wireless"; "bluetooth"; "cable"; "connection"; "signal"; "data";
    "information"; "knowledge"; "learning"; "education"; "school";
    "university"; "student"; "teacher"; "book"; "page"; "chapter";
    "paragraph"; "sentence"; "word"; "letter"; "number"; "count";
    "calculate"; "mathematics"; "science"; "technology"; "innovation";
    "development"; "progress"; "improvement"; "solution"; "problem";
    "challenge"; "opportunity"
  ]%string.

(** Words with punctuation, for the punctuation mode. *)
Definition punctuationWords : list str :=
  map lit [
    "hello,"; "world!"; "it's"; "don't"; "can't"; "won't"; "we're";
    "they're"; "you'll"; "I'll"; "she'll"; "he'll"; "we'll"; "they'll";
    "isn't"; "aren't"; "wasn't"; "weren't"; "hasn't"; "haven't";
    "doesn't"; "didn't"; "shouldn't"; "wouldn't"; "couldn't"; "mustn't";
    "needn't"; "shan't"; "hello."; "goodbye!"; "really?"; "amazing!";
    "yes,"; "no,"; "wait..."; "stop!"; "go!"; "help!"; "wow!"; "oh!"
  ]%string.

(** Words with digits, for the numbers mode. *)
Definition numberWords : list str :=
  map lit [
    "123"; "456"; "789"; "101"; "202"; "303"; "404"; "505"; "2024";
    "2025"; "1995"; "2000"; "42"; "99"; "100"; "1000"; "test1"; "test2";
    "file1"; "file2"; "user1"; "user2"; "admin123"; "pass123"; "v1.0";
    "v2.0"; "v3.1"; "v4.2"; "room101"; "room202"; "apt3b"; "unit4a";
    "level1"; "level2"; "step1"; "step2"; "page1"; "page2"; "item1";
    "item2"
  ]%string.

(** The numbers-only pool. *)
Definition pureNumbers : list str :=
  map lit [
    "0"; "1"; "2"; "3"; "4"; "5"; "6"; "7"; "8"; "9"; "10"; "11"; "12";
    "13"; "14"; "15"; "16"; "17"; "18"; "19"; "20"; "25"; "30"; "42";
    "50"; "75"; "99"; "100"; "123"; "456"; "789"; "1000"; "2024"; "2025";
    "3000"; "5000"
  ]%string.

(** The pool the target is drawn from: [pureNumbers] in the numbers-only
    mode, otherwise [combinedWords]. *)
Definition pool (includePunctuation includeNumbers : bool) : list str :=
  if includeNumbers && negb includePunctuation then pureNumbers
  else
    (words ++ (if includePunctuation then punctuationWords else []))
      ++ (if includeNumbers then numberWords else []).

Definition space : ascii := " "%char.

(** [for (int i = 0; i < wordCount; i++)] with [n] iterations left:
    [rand k] is what the [k]-th call of [rand()] returns. *)
Fixpoint generate_loop (pool : list str) (rand : nat -> nat) (n : nat)
  (i : Z) (k : nat) (target : str) : str :=
  match n with
  | O => target
  | S n' =>
      let target := if 0 <? i then target ++ [space] else target in
      let target := target ++ nth (rand k mod length pool)%nat pool [] in
      generate_loop pool rand n' (i + 1) (S k) target
  end.

(** The target text for a word count and the two options, when [k] calls of
    [rand()] were made before. *)
Definition generate (wordCount : Z) (includePunctuation includeNumbers : bool)
  (rand : nat -> nat) (k : nat) : str :=
  generate_loop (pool includePunctuation includeNumbers) rand
    (Z.to_nat wordCount) 0 k [].

End TextSource.

(** ** The typing loop of [main] *)

Module Session.
Import Cxx Dbl Board TextSource.

(** What the menus chose before the loop starts. *)
Record Config : Type := mkConfig {
  cfg_wordCount : Z;
  includePunctuation : bool;
  includeNumbers : bool
}.

(** The menus return 5, 10, 25, 50 or a custom count in [1, 1000]. *)
Definition valid_config (cfg : Config) : Prop :=
  1 <= cfg_wordCount cfg <= 1000.

(** The variables of the loop; [rand_calls] counts the calls of [rand()]
    made so far. *)
Record State : Type := mkState {
  target : str;
  typed : str;
  start_time : Z;
  started : bool;
  jumped_from_pos : Z;
  has_jumped : bool;
  rand_calls : nat
}.

(** [KEY_BACKSPACE] of [ncurses.h] (octal 0407). *)
Definition KEY_BACKSPACE : Z := 263.

Definition underscore : ascii := "_"%char.

Section Loop.

Variable cfg : Config.
Variable rand : nat -> nat.

Definition new_target (k : nat) : str :=
  generate (cfg_wordCount cfg) (includePunctuation cfg) (includeNumbers cfg)
    rand k.

(** The state when the loop is entered, after [k] earlier calls of [rand()]. *)
Definition start (k : nat) : State :=
  mkState (new_target k) [] 0 false npos false
    (k + Z.to_nat (cfg_wordCount cfg)).

(** [while (space_pos < target.length() && target[space_pos] == ' ')
    space_pos++;] *)
Fixpoint skip_spaces (fuel : nat) (target : str) (space_pos : Z) : Z :=
  match fuel with
  | O => space_pos
  | S f =>
      if (space_pos <? size target) && Ascii.eqb (at_ target space_pos) space
      then skip_spaces f target (space_pos + 1)
      else space_pos
  end.

(** The position of the next word's start, computed inline by the space
    handler. *)
Definition next_word_pos (target : str) (from : Z) : Z :=
  let space_pos := find target space from in
  if negb (space_pos =? npos)
  then skip_spaces (length target) target space_pos
  else size target.

(** [while (typed.length() < next_word_pos && typed.length() <
    target.length())]: the fill with incorrect markers. *)
Fixpoint fill (fuel : nat) (target typed : str) (next_word_pos : Z) : str :=
  match fuel with
  | O => typed
  | S f =>
      if (size typed <? next_word_pos) && (size typed <? size target) then
        fill f target
          (typed ++ [if Ascii.eqb (at_ target (size typed)) space
                     then space else underscore])
          next_word_pos
      else typed
  end.

Definition start_timer (now : Z) (s : State) : State :=
  if started s then s
  else mkState (target s) (typed s) now true (jumped_from_pos s)
         (has_jumped s) (rand_calls s).

Definition set_typed (s : State) (typed : str) (jumped_from_pos : Z)
  (has_jumped : bool) : State :=
  mkState (target s) typed (start_time s) (started s) jumped_from_pos
    has_jumped (rand_calls s).

Definition backspace (s : State) : State :=
  if has_jumped s && (jumped_from_pos s <? size (typed s)) then
    set_typed s (substr_chars (typed s) 0 (jumped_from_pos s)) npos false
  else if negb (size (typed s) =? 0) then
    set_typed s (pop_back (typed s)) npos false
  else s.

Definition space_key (now : Z) (s : State) : State :=
  if size (typed s) <? size (target s) then
    let s := start_timer now s in
    if (size (typed s) <? size (target s))
       && negb (Ascii.eqb (at_ (target s) (size (typed s))) space)
    then
      let from := size (typed s) in
      let next := next_word_pos (target s) from in
      set_typed s (fill (length (target s)) (target s) (typed s) next)
        from true
    else set_typed s (typed s ++ [space]) npos false
  else s.

Definition printable_key (now : Z) (ch : Z) (s : State) : State :=
  if size (typed s) <? size (target s) then
    let s := start_timer now s in
    set_typed s (typed s ++ [chr ch]) npos false
  else s.

(** Enter: a new target from the same word count and options. *)
Definition restart (s : State) : State :=
  mkState (new_target (rand_calls s)) [] (start_time s) false npos false
    (rand_calls s + Z.to_nat (cfg_wordCount cfg)).

(** One key in the body of the loop; [now] is what [time(nullptr)] returns
    there. The branches for 'l', 'L' and 'W' come after the one for the
    printable characters 33..126 and are never taken. *)
Definition handle_key (now : Z) (ch : Z) (s : State) : State :=
  if (ch =? KEY_BACKSPACE) || (ch =? 127) || (ch =? 8) then backspace s
  else if ch =? 32 then space_key now s
  else if (33 <=? ch) && (ch <=? 126) then printable_key now ch s
  else if (ch =? 10) || (ch =? 13) then restart s
  else s.

(** The loop ends when the text is complete: [typed.length() ==
    target.length()]. *)
Definition complete (s : State) : bool := size (typed s) =? size (target s).

(** The states the loop can be in when it waits for a key: it waits again
    only after a key other than ESC that did not complete the text. *)
Inductive reachable : State -> Prop :=
| reach_start (k : nat) : reachable (start k)
| reach_key (s : State) (now ch : Z) :
    reachable s -> complete s = false -> ch <> 27 ->
    reachable (handle_key now ch s).

End Loop.

(** [for (i = 0; i < typed.length() && i < target.length(); i++)
    if (typed[i] == target[i]) correct++;] *)
Fixpoint count_correct (typed target : str) : Z :=
  match typed, target with
  | a :: t, b :: u => (if Ascii.eqb a b then 1 else 0) + count_correct t u
  | _, _ => 0
  end.

(** [difftime(now, start_time)] *)
Definition difftime (now start_time : Z) : double := of_Z (now - start_time).

Record Stats : Type := mkStats {
  stat_wpm : double;
  stat_accuracy : double;
  stat_elapsed : double
}.

(** The arithmetic shared by the live display and the final score. *)
Definition score (correct : Z) (typed_length : Z) (elapsed : double) : Stats :=
  let raw_wpm := ddiv (ddiv (of_Z correct) (of_Z 5)) (ddiv elapsed (of_Z 60)) in
  let accuracy := ddiv (dmul (of_Z correct) (of_Z 100)) (of_Z typed_length) in
  let accuracy_multiplier :=
    if dlt accuracy (of_Z 50) then ddiv accuracy (of_Z 50) else of_Z 1 in
  mkStats (dmul raw_wpm accuracy_multiplier) accuracy elapsed.

(** The live statistics line: what is displayed, if anything. *)
Definition live_stats (s : State) (now : Z) : option Stats :=
  if started s && (0 <? size (typed s)) then
    let elapsed := difftime now (start_time s) in
    if dgt elapsed (of_Z 0) then
      Some (score (count_correct (typed s) (target s)) (size (typed s)) elapsed)
    else None
  else None.

(** The final statistics, computed when the text is complete. *)
Definition final_stats (s : State) (now : Z) : Stats :=
  let elapsed := difftime now (start_time s) in
  score (count_correct (typed s) (target s)) (size (typed s)) elapsed.

(** The completion branch: the score is built from the final statistics and
    the clock's date text, added to the leaderboard, and the leaderboard is
    saved. The result is the leaderboard and the text of the file. *)
Definition finish_session (cfg : Config) (playerName today : str)
  (leaderboard : list PlayerScore) (s : State) (now : Z)
  : list PlayerScore * str :=
  let st := final_stats s now in
  let newScore :=
    mkScore playerName (stat_wpm st) (stat_accuracy st) (stat_elapsed st)
      today (cfg_wordCount cfg) (includePunctuation cfg) (includeNumbers cfg) in
  let leaderboard := addToLeaderboard leaderboard newScore in
  (leaderboard, saveLeaderboard leaderboard).

End Session.

(** ** The vocabulary of the properties *)

Module Props.
Import Cxx Dbl Board TextSource Session.

(** The characters that never occur in a number's text: the two the file
    format reserves. *)
Definition plain (c : ascii) : bool :=
  negb (Ascii.eqb c bar) && negb (Ascii.eqb c newline).

Definition plain_text (s : str) : bool := forallb plain s.

(** What [saveLeaderboard] writes for a record, before the newline. *)
Definition line_text (s : PlayerScore) : str :=
  name s ++ bar :: show_double (wpm s) ++ bar :: show_double (accuracy s)
    ++ bar :: show_double (time s) ++ bar :: date s
    ++ bar :: show_int (wordCount s) ++ bar :: show_flag (hasPunctuation s)
    ++ bar :: show_flag (hasNumbers s).

(** A record whose line keeps its eight fields apart: a name and a date
    without separator or newline, an [int] word count, a line shorter than
    [npos]. *)
Definition writable (s : PlayerScore) : Prop :=
  plain_text (name s) = true /\
  plain_text (date s) = true /\
  INT_MIN <= wordCount s <= INT_MAX /\
  size (line_text s) < npos.

(** What the loader's conversion makes of the text the writer produces for
    the number [x]. *)
Definition reread (x : double) : result double := stod (show_double x).

(** The record read back from the line of [s]: the name in upper case, each
    number re-read from its text in the order WPM, accuracy, time, the
    other fields as they are. *)
Definition reread_score (s : PlayerScore) : result PlayerScore :=
  bind (reread (wpm s)) (fun w =>
  bind (reread (accuracy s)) (fun a =>
  bind (reread (time s)) (fun t =>
    Ok (mkScore (toUpperCase (name s)) w a t (date s) (wordCount s)
                (hasPunctuation s) (hasNumbers s))))).

(** The records read back one after the other; the first number that is
    not read back ends the reading with its exception. *)
Fixpoint reread_board (lb : list PlayerScore) : result (list PlayerScore) :=
  match lb with
  | [] => Ok []
  | s :: rest =>
      bind (reread_score s) (fun s' =>
      bind (reread_board rest) (fun rest' => Ok (s' :: rest')))
  end.

(** [s'] is [s] up to the case of the name and the digits of the numbers. *)
Definition reloaded (s s' : PlayerScore) : Prop :=
  name s' = toUpperCase (name s) /\
  reread (wpm s) = Ok (wpm s') /\
  reread (accuracy s) = Ok (accuracy s') /\
  reread (time s) = Ok (time s') /\
  date s' = date s /\
  wordCount s' = wordCount s /\
  hasPunctuation s' = hasPunctuation s /\
  hasNumbers s' = hasNumbers s.

(** A record with a name in upper case and numbers that their texts give
    back. *)
Definition faithful (s : PlayerScore) : Prop :=
  toUpperCase (name s) = name s /\
  reread (wpm s) = Ok (wpm s) /\
  reread (accuracy s) = Ok (accuracy s) /\
  reread (time s) = Ok (time s).

(** A key whose lexicographic order is the order of the values: the class
    (negative infinity, negative, zero, positive, positive infinity), then
    the exponent and the mantissa, both reversed for negative values. *)
Definition ord (x : double) : Z * Z * Z :=
  match x with
  | S754_nan => (0, 0, 0)
  | S754_zero _ => (0, 0, 0)
  | S754_infinity true => (-2, 0, 0)
  | S754_infinity false => (2, 0, 0)
  | S754_finite true m e => (-1, - e, Zneg m)
  | S754_finite false m e => (1, e, Zpos m)
  end.

Definition lex (a b : Z * Z * Z) : comparison :=
  let '(a1, a2, a3) := a in
  let '(b1, b2, b3) := b in
  match a1 ?= b1 with
  | Eq => match a2 ?= b2 with
          | Eq => a3 ?= b3
          | c => c
          end
  | c => c
  end.

Definition lt3 (a b : Z * Z * Z) : Prop :=
  let '(a1, a2, a3) := a in
  let '(b1, b2, b3) := b in
  a1 < b1 \/ (a1 = b1 /\ (a2 < b2 \/ (a2 = b2 /\ a3 < b3))).

(** A record whose WPM and accuracy are numbers. *)
Definition numeric (s : PlayerScore) : Prop :=
  is_nan (wpm s) = false /\ is_nan (accuracy s) = false.

(** [a] may stand before [b]: a higher WPM, or the same WPM and an accuracy
    at least as high. *)
Definition ranked (a b : PlayerScore) : Prop :=
  dgt (wpm a) (wpm b) = true \/
  (deq (wpm a) (wpm b) = true /\ dge (accuracy a) (accuracy b) = true).

Definition before (a b : PlayerScore) : Prop := compareScores b a = false.

(** Ten records with the WPMs 100, 90, ..., 10, and an eleventh with 55. *)
Definition sample_score (w : Z) : PlayerScore :=
  mkScore (lit "ANN") (of_Z w) (of_Z 100) (of_Z 30) (lit "Unknown") 15
    false false.

Definition sample_board : list PlayerScore :=
  map sample_score [100; 90; 80; 70; 60; 50; 40; 30; 20; 10].

(** The tokens the generation loop draws, in order. *)
Fixpoint picks (pool : list str) (rand : nat -> nat) (n k : nat) : list str :=
  match n with
  | O => []
  | S n' => nth (rand k mod length pool)%nat pool [] :: picks pool rand n' (S k)
  end.

(** The pool each mode selects, mode by mode and apart from the code's
    branches: the base words alone; the base words and the words with
    punctuation; the pure numbers in the numbers-only mode; the base words,
    the words with punctuation and the words with digits when both options
    are on. *)
Definition selected_pool (include_punctuation include_numbers : bool)
  : list str :=
  match include_punctuation, include_numbers with
  | false, false => words
  | true, false => words ++ punctuationWords
  | false, true => pureNumbers
  | true, true => words ++ punctuationWords ++ numberWords
  end.

(** Tokens joined by one space. *)
Definition join (tokens : list str) : str :=
  match tokens with
  | [] => []
  | t :: rest => t ++ concat (map (cons space) rest)
  end.

(** The text cut at every space: [n] spaces give [n + 1] pieces, an empty
    piece for a leading, a trailing or a doubled space. *)
Fixpoint split_on (c : ascii) (s : str) : list str :=
  match s with
  | [] => [[]]
  | x :: r =>
      if Ascii.eqb x c then [] :: split_on c r
      else
        match split_on c r with
        | t :: ts => (x :: t) :: ts
        | [] => [[x]]
        end
  end.

(** No space at the start, none at the end, no two in a row;
    [after_space] tells whether the previous position held a space (or is
    the start of the text). *)
Fixpoint spaced_ok (after_space : bool) (s : str) : bool :=
  match s with
  | [] => negb after_space
  | c :: r =>
      if Ascii.eqb c space then negb after_space && spaced_ok true r
      else spaced_ok false r
  end.

(** What every word of the four lists satisfies. *)
Definition token_ok (t : str) : bool :=
  negb (length t =? 0)%nat && (length t <=? 12)%nat
  && forallb (fun c => negb (Ascii.eqb c space)
                       && negb (Ascii.eqb c underscore)) t.

(** The character the fill writes over a target character. *)
Definition mark (c : ascii) : ascii :=
  if Ascii.eqb c space then space else underscore.

(** [j] is where the next word starts for a player at [from], inside a
    word: the rest of that word ends at [k], spaces follow up to [j], and
    [j] holds the first character of the next word, or is the end of the
    target when no word follows. *)
Definition next_word_start (target : str) (from j : Z) : Prop :=
  exists k : Z,
    from <= k <= j /\ j <= size target /\
    (forall x, from <= x < k -> at_ target x <> space) /\
    (forall x, k <= x < j -> at_ target x = space) /\
    (j = size target \/ (k < j /\ at_ target j <> space)).

End Props.

(** ** Keys and the key-driven menus *)

Module Keys.

(** The key codes of [ncurses.h] the menus compare with, and [ERR], what
    [getch()] returns when its timeout runs out. *)
Definition KEY_DOWN : Z := 258.
Definition KEY_UP : Z := 259.
Definition KEY_LEFT : Z := 260.
Definition KEY_RIGHT : Z := 261.
Definition ERR : Z := -1.

Definition is_enter (ch : Z) : bool := (ch =? 10) || (ch =? 13).

Definition is_backspace (ch : Z) : bool :=
  (ch =? Session.KEY_BACKSPACE) || (ch =? 127) || (ch =? 8).

(** [ch == c || ch == C] for a letter given by its two codes. *)
Definition is_letter (lower upper ch : Z) : bool := (ch =? lower) || (ch =? upper).

Definition is_up (ch : Z) : bool := (ch =? KEY_UP) || is_letter 119 87 ch.
Definition is_down (ch : Z) : bool := (ch =? KEY_DOWN) || is_letter 115 83 ch.
Definition is_left (ch : Z) : bool := (ch =? KEY_LEFT) || is_letter 97 65 ch.
Definition is_right (ch : Z) : bool := (ch =? KEY_RIGHT) || is_letter 100 68 ch.
Definition is_quit (ch : Z) : bool := is_letter 113 81 ch.

End Keys.

(** ** Player names *)

(** Each function that reads keys takes the keys [getch()] will return, in
    order, and gives back what it returns together with the keys it left
    unread; [None] is a function still waiting for a key. *)

Module Players.
Import Cxx Board Keys.

(** [a == b] on strings *)
Fixpoint str_eqb (a b : str) : bool :=
  match a, b with
  | [], [] => true
  | x :: a', y :: b' => Ascii.eqb x y && str_eqb a' b'
  | _, _ => false
  end.

(** The inner loop of [getUniquePlayerNames]: is the name already listed? *)
Fixpoint found (uniqueNames : list str) (name : str) : bool :=
  match uniqueNames with
  | [] => false
  | u :: rest => if str_eqb u name then true else found rest name
  end.

(** [getUniquePlayerNames(leaderboard)] *)
Definition getUniquePlayerNames (leaderboard : list PlayerScore) : list str :=
  fold_left
    (fun uniqueNames s =>
       if found uniqueNames (name s) then uniqueNames
       else uniqueNames ++ [name s])
    leaderboard [].

(** The loop of [showNameSelectionMenu(names)] with the current [choice]. *)
Fixpoint selection_loop (names : list str) (choice : Z) (keys : list Z)
  : option (str * list Z) :=
  match keys with
  | [] => None
  | ch :: rest =>
      if is_letter 119 87 ch then Some (lit "WORM_CLOSET", rest)
      else if (ch =? KEY_UP) && (0 <? choice) then
        selection_loop names (choice - 1) rest
      else if is_down ch && (choice <? Z.of_nat (length names)) then
        selection_loop names (choice + 1) rest
      else if is_enter ch then
        if choice <? Z.of_nat (length names) then
          Some (nth (Z.to_nat choice) names [], rest)
        else if choice =? Z.of_nat (length names) then Some ([], rest)
        else selection_loop names choice rest
      else if is_quit ch then Some (lit "CANCEL", rest)
      else selection_loop names choice rest
  end.

(** [showNameSelectionMenu(names)] *)
Definition showNameSelectionMenu (names : list str) (keys : list Z)
  : option (str * list Z) :=
  selection_loop names 0 keys.

(** The loop of [getNewPlayerName()] with the [name] typed so far. *)
Fixpoint new_name_loop (name : str) (keys : list Z) : option (str * list Z) :=
  match keys with
  | [] => None
  | ch :: rest =>
      if is_enter ch && negb (size name =? 0) then Some (toUpperCase name, rest)
      else if is_quit ch then Some (lit "CANCEL", rest)
      else if is_backspace ch then
        new_name_loop (if negb (size name =? 0) then pop_back name else name)
          rest
      else if (32 <=? ch) && (ch <=? 126) && (size name <? 20) then
        new_name_loop (name ++ [chr ch]) rest
      else new_name_loop name rest
  end.

(** [getNewPlayerName()] *)
Definition getNewPlayerName (keys : list Z) : option (str * list Z) :=
  new_name_loop [] keys.

(** [getPlayerName(leaderboard)] *)
Definition getPlayerName (leaderboard : list PlayerScore) (keys : list Z)
  : option (str * list Z) :=
  let uniqueNames := getUniquePlayerNames leaderboard in
  match uniqueNames with
  | [] => getNewPlayerName keys
  | _ =>
      match showNameSelectionMenu uniqueNames keys with
      | None => None
      | Some (selectedName, rest) =>
          if str_eqb selectedName (lit "CANCEL") then Some (lit "CANCEL", rest)
          else if str_eqb selectedName [] then getNewPlayerName rest
          else Some (selectedName, rest)
      end
  end.

End Players.

(** ** The word count and text option menus *)

Module Menus.
Import Cxx Keys.

(** The loop of [getCustomWordCount()] with the [input] typed so far. *)
Fixpoint custom_loop (input : str) (keys : list Z) : option (Z * list Z) :=
  match keys with
  | [] => None
  | ch :: rest =>
      if is_enter ch && negb (size input =? 0) then
        match stoi input with
        | Ok wordCount =>
            if (1 <=? wordCount) && (wordCount <=? 1000)
            then Some (wordCount, rest)
            else custom_loop [] rest
        | Throw _ => custom_loop [] rest
        end
      else if is_quit ch then Some (-1, rest)
      else if is_backspace ch then
        custom_loop (if negb (size input =? 0) then pop_back input else input)
          rest
      else if (48 <=? ch) && (ch <=? 57) && (size input <? 4) then
        custom_loop (input ++ [chr ch]) rest
      else custom_loop input rest
  end.

(** [getCustomWordCount()] *)
Definition getCustomWordCount (keys : list Z) : option (Z * list Z) :=
  custom_loop [] keys.

Definition wordCounts : list Z := [5; 10; 25; 50].

(** The loop of [showWordCountMenu()] with the current [choice]. Every
    iteration reads a key, so as many iterations as there are keys is all
    the loop can run: [fuel] counts them. *)
Fixpoint word_count_loop (fuel : nat) (choice : Z) (keys : list Z)
  : option (Z * list Z) :=
  match fuel, keys with
  | O, _ => None
  | _, [] => None
  | S f, ch :: rest =>
      if is_up ch && (0 <? choice) then word_count_loop f (choice - 1) rest
      else if is_down ch && (choice <? Z.of_nat (length wordCounts)) then
        word_count_loop f (choice + 1) rest
      else if is_enter ch then
        if choice <? Z.of_nat (length wordCounts) then
          Some (nth (Z.to_nat choice) wordCounts 0, rest)
        else
          match getCustomWordCount rest with
          | None => None
          | Some (customWords, rest') =>
              if 0 <? customWords then Some (customWords, rest')
              else if customWords =? -1 then Some (-1, rest')
              else word_count_loop f choice rest'
          end
      else if is_quit ch then Some (-1, rest)
      else word_count_loop f choice rest
  end.

(** [showWordCountMenu()] *)
Definition showWordCountMenu (keys : list Z) : option (Z * list Z) :=
  word_count_loop (length keys) 0 keys.

(** The loop of [showTextOptionsMenu(includePunctuation, includeNumbers)]. *)
Fixpoint options_loop (choice : Z) (includePunctuation includeNumbers : bool)
  (keys : list Z) : option (bool * bool * list Z) :=
  match keys with
  | [] => None
  | ch :: rest =>
      if is_up ch && (0 <? choice) then
        options_loop (choice - 1) includePunctuation includeNumbers rest
      else if is_down ch && (choice <? 1) then
        options_loop (choice + 1) includePunctuation includeNumbers rest
      else if ch =? 32 then
        if choice =? 0 then
          options_loop choice (negb includePunctuation) includeNumbers rest
        else if choice =? 1 then
          options_loop choice includePunctuation (negb includeNumbers) rest
        else options_loop choice includePunctuation includeNumbers rest
      else if is_enter ch then Some (includePunctuation, includeNumbers, rest)
      else if is_quit ch then Some (false, false, rest)
      else options_loop choice includePunctuation includeNumbers rest
  end.

(** [showTextOptionsMenu(includePunctuation, includeNumbers)] *)
Definition showTextOptionsMenu (keys : list Z) : option (bool * bool * list Z) :=
  options_loop 0 false false keys.

(** The head of the main game loop: the word count menu, then, unless it
    was left with -1, the text options menu. [None] inside is the [break]
    that ends the program. *)
Definition choose_config (keys : list Z)
  : option (option Session.Config * list Z) :=
  match showWordCountMenu keys with
  | None => None
  | Some (wordCount, rest) =>
      if wordCount =? -1 then Some (None, rest)
      else
        match showTextOptionsMenu rest with
        | None => None
        | Some (includePunctuation, includeNumbers, rest') =>
            Some (Some (Session.mkConfig wordCount includePunctuation
                          includeNumbers), rest')
        end
  end.

End Menus.

(** ** Achievements and the worm closet *)

Module Achievements.
Import Cxx Dbl Board Keys Players.

(** [struct Achievement] *)
Record Achievement : Type := mkAchievement {
  id : str;
  name : str;
  description : str;
  unlocked : bool
}.

(** The two globals: [achievements] and [equippedWormColor]. *)
Record Globals : Type := mkGlobals {
  achievements : list Achievement;
  equippedWormColor : str
}.

Definition pink_worm : str := lit "pink_worm".

(** [initializeAchievements()] *)
Definition initializeAchievements (g : Globals) : Globals :=
  mkGlobals
    [mkAchievement pink_worm (lit "red!worm?pink!worm?")
       (lit "Achieve 60+ WPM to unlock the pink worm variant!") false]
    (equippedWormColor g).

Definition achievement_line (a : Achievement) : str :=
  id a ++ bar :: show_int (if unlocked a then 1 else 0) ++ [newline].

(** [saveAchievements()]: the text written to [achievements.txt]. *)
Definition saveAchievements (g : Globals) : str :=
  equippedWormColor g ++ newline :: concat (map achievement_line (achievements g)).

(** [for (i ...) if (achievements[i].id == id) { achievements[i].unlocked =
    unlocked; break; }] *)
Fixpoint set_unlocked (i : str) (u : bool) (l : list Achievement)
  : list Achievement :=
  match l with
  | [] => []
  | a :: rest =>
      if str_eqb (id a) i
      then mkAchievement (id a) (name a) (description a) u :: rest
      else a :: set_unlocked i u rest
  end.

(** The body of the [while] loop of [loadAchievements] on one line. *)
Definition load_achievement (line : str) (l : list Achievement)
  : result (list Achievement) :=
  let pos := find line bar 0 in
  if negb (pos =? npos) then
    bind (substr line 0 pos) (fun i =>
    bind (substr line (wrap (pos + 1)) npos) (fun flag =>
    bind (stoi flag) (fun v =>
    Ok (set_unlocked i (v =? 1) l))))
  else Ok l.

Fixpoint load_achievements (lines : list str) (l : list Achievement)
  : result (list Achievement) :=
  match lines with
  | [] => Ok l
  | line :: rest => bind (load_achievement line l) (load_achievements rest)
  end.

(** [loadAchievements()] on the contents of [achievements.txt] ([None]: no
    file to open): the first line is the equipped colour, each further
    line an achievement's state. *)
Definition loadAchievements (file : option str) (g : Globals) : result Globals :=
  match file with
  | None => Ok g
  | Some text =>
      match getlines [] text with
      | [] => Ok g
      | first :: rest =>
          bind (load_achievements rest (achievements g))
               (fun l => Ok (mkGlobals l first))
      end
  end.

(** The loop of [checkAchievements]: the first locked "pink_worm" is
    unlocked when [wpm >= 60.0]; the flag tells whether one was. *)
Fixpoint unlock_pink (wpm : double) (l : list Achievement)
  : list Achievement * bool :=
  match l with
  | [] => ([], false)
  | a :: rest =>
      if str_eqb (id a) pink_worm && negb (unlocked a) && dge wpm (of_Z 60)
      then (mkAchievement (id a) (name a) (description a) true :: rest, true)
      else let '(rest', b) := unlock_pink wpm rest in (a :: rest', b)
  end.

(** [checkAchievements(wpm, accuracy, time)]: the globals afterwards and
    the file text written, if any. (The notification shown for a new
    achievement waits for one key.) *)
Definition checkAchievements (wpm : double) (g : Globals)
  : Globals * option str :=
  let '(l, newAchievement) := unlock_pink wpm (achievements g) in
  let g' := mkGlobals l (equippedWormColor g) in
  (g', if newAchievement then Some (saveAchievements g') else None).

(** [for (i ...) if (achievements[i].id == "pink_worm" &&
    achievements[i].unlocked) ...]: is there such an entry? *)
Fixpoint pink_unlocked (l : list Achievement) : bool :=
  match l with
  | [] => false
  | a :: rest =>
      if str_eqb (id a) pink_worm && unlocked a then true else pink_unlocked rest
  end.

(** The loop of [showWormCloset()] with the current [choice]; [saved] is
    the last text written to [achievements.txt], if any. *)
Fixpoint closet_loop (g : Globals) (choice : Z) (saved : option str)
  (keys : list Z) : option (Globals * option str * list Z) :=
  match keys with
  | [] => None
  | ch :: rest =>
      if ch =? ERR then closet_loop g choice saved rest
      else if is_up ch && (3 <=? choice) then
        closet_loop g (choice - 3) saved rest
      else if is_down ch && (choice <? 6) then
        closet_loop g (choice + 3) saved rest
      else if is_left ch && (0 <? Z.rem choice 3) then
        closet_loop g (choice - 1) saved rest
      else if is_right ch && (Z.rem choice 3 <? 2) then
        closet_loop g (choice + 1) saved rest
      else if is_enter ch then
        if choice =? 0 then
          if pink_unlocked (achievements g) then
            let g' := mkGlobals (achievements g) (lit "pink") in
            closet_loop g' choice (Some (saveAchievements g')) rest
          else closet_loop g choice saved rest
        else if choice =? 1 then
          let g' := mkGlobals (achievements g) (lit "default") in
          closet_loop g' choice (Some (saveAchievements g')) rest
        else closet_loop g choice saved rest
      else if is_quit ch then Some (g, saved, rest)
      else closet_loop g choice saved rest
  end.

(** [showWormCloset()] *)
Definition showWormCloset (g : Globals) (keys : list Z)
  : option (Globals * option str * list Z) :=
  closet_loop g 0 None keys.

End Achievements.

(** ** The leaderboard screen and the choice of the player *)

Module Screens.
Import Cxx Board Keys Players Achievements.

(** The loop of [showLeaderboard(leaderboard)]: the code returned, the
    leaderboard afterwards and the text written to the file, if any. A
    time-out of [getch] ([ERR]) redraws the screen; 'C' reads one more key
    and clears on 'Y'. *)
Fixpoint showLeaderboard (leaderboard : list PlayerScore) (keys : list Z)
  : option (Z * list PlayerScore * option str * list Z) :=
  match keys with
  | [] => None
  | ch :: rest =>
      if ch =? ERR then showLeaderboard leaderboard rest
      else if is_letter 99 67 ch then
        match rest with
        | [] => None
        | confirm :: rest' =>
            if is_letter 121 89 confirm
            then Some (1, [], Some (saveLeaderboard []), rest')
            else showLeaderboard leaderboard rest'
        end
      else if is_letter 110 78 ch then Some (2, leaderboard, None, rest)
      else if is_letter 119 87 ch then Some (3, leaderboard, None, rest)
      else Some (0, leaderboard, None, rest)
  end.

(** The choice of the player when [main] starts: [getPlayerName], and
    while it returns "WORM_CLOSET" the closet and [getPlayerName] again.
    The name is [None] when "CANCEL" ends the program. Every round reads a
    key: [fuel] counts the rounds. *)
Fixpoint choose_player (fuel : nat) (leaderboard : list PlayerScore)
  (g : Globals) (keys : list Z) : option (option str * Globals * list Z) :=
  match fuel with
  | O => None
  | S f =>
      match getPlayerName leaderboard keys with
      | None => None
      | Some (playerName, rest) =>
          if str_eqb playerName (lit "CANCEL") then Some (None, g, rest)
          else if str_eqb playerName (lit "WORM_CLOSET") then
            match showWormCloset g rest with
            | None => None
            | Some (g', _, rest') => choose_player f leaderboard g' rest'
            end
          else Some (Some playerName, g, rest)
      end
  end.

(** The frames of [showAnimatedIntro()]: each reads a key without waiting
    ([ERR] when there is none) and 's' or 'S' ends the animation. *)
Fixpoint intro_frames (frames : nat) (keys : list Z) : option (list Z) :=
  match frames with
  | O => Some keys
  | S f =>
      match keys with
      | [] => None
      | ch :: rest =>
          if is_letter 115 83 ch then Some rest else intro_frames f rest
      end
  end.

(** [showAnimatedIntro()]: twenty frames at most, then any key. *)
Definition showAnimatedIntro (keys : list Z) : option (list Z) :=
  match intro_frames 20 keys with
  | Some (_ :: rest) => Some rest
  | _ => None
  end.

(** The start of [main]: the leaderboard and the achievements are loaded
    from the two files, the intro is shown, then the player is chosen. *)
Definition startup (leaderboard_txt achievements_txt : option str)
  (g : Globals) (keys : list Z)
  : result (option (list PlayerScore * option str * Globals * list Z)) :=
  bind (loadLeaderboard leaderboard_txt) (fun leaderboard =>
  bind (loadAchievements achievements_txt (initializeAchievements g))
    (fun g1 =>
       Ok (match showAnimatedIntro keys with
           | None => None
           | Some keys1 =>
               match choose_player (length keys1) leaderboard g1 keys1 with
               | None => None
               | Some (playerName, g2, rest) =>
                   Some (leaderboard, playerName, g2, rest)
               end
           end))).

End Screens.

(** ** More vocabulary: keys typed, names entered *)

Module Words.
Import Cxx Board TextSource Session Players Achievements.

(** The keys that type a text. *)
Definition keys_of (s : str) : list Z := map code s.

(** A character a name entered at the prompt can hold: printable, not a
    lower-case letter, and not 'Q', which leaves the prompt. *)
Definition name_char (c : ascii) : bool :=
  (32 <=? code c) && (code c <=? 126)
  && negb ((97 <=? code c) && (code c <=? 122))
  && negb (code c =? 81).

(** A character the prompt keeps in its buffer: printable, and neither
    'q' nor 'Q'. *)
Definition typed_char (c : ascii) : bool :=
  (32 <=? code c) && (code c <=? 126)
  && negb (code c =? 113) && negb (code c =? 81).

(** A name as [getNewPlayerName] returns it when it is not left with Q. *)
Definition entered_name (r : str) : Prop :=
  r <> [] /\ size r <= 20 /\ forallb name_char r = true /\
  toUpperCase r = r.

(** Two entries with the same identifier, name and description. *)
Definition same_entry (a b : Achievement) : Prop :=
  id a = id b /\ Achievements.name a = Achievements.name b /\
  description a = description b.

(** What [saveAchievements] writes for an entry, before the newline. *)
Definition achievement_text (a : Achievement) : str :=
  id a ++ bar :: show_int (if unlocked a then 1 else 0).

(** An entry the file format can hold: an identifier without separator or
    newline, a line shorter than [npos]. *)
Definition storable_entry (a : Achievement) : Prop :=
  ~ In bar (id a) /\ ~ In newline (id a) /\ size (achievement_text a) < npos.

(** The same entry, possibly unlocked since. *)
Definition kept (a b : Achievement) : Prop :=
  same_entry a b /\ (unlocked a = true -> unlocked b = true).

(** Is there an entry with this identifier? *)
Definition listed (i : str) (l : list Achievement) : bool :=
  existsb (fun a => str_eqb (id a) i) l.

(** Neither record is ordered before the other. *)
Definition tied (a b : PlayerScore) : Prop :=
  compareScores a b = false /\ compareScores b a = false.

(** The text of a line before its first separator. *)
Fixpoint first_field (line : str) : str :=
  match line with
  | [] => []
  | c :: r => if Ascii.eqb c bar then [] else c :: first_field r
  end.

(** How many separators a line holds. *)
Definition bars (line : str) : nat := count_occ ascii_dec line bar.

(** The records a file of the given lines yields when no conversion fails:
    one for each line with at least three separators. *)
Definition record_lines (lines : list str) : list str :=
  filter (fun line => (3 <=? bars line)%nat) lines.

(** A decimal digit. *)
Definition digit (c : ascii) : bool := (48 <=? code c) && (code c <=? 57).

(** A digit or a space. *)
Definition digit_or_space (c : ascii) : bool := Ascii.eqb c space || digit c.

(** A lower-case letter or a space. *)
Definition lower_or_space (c : ascii) : bool :=
  Ascii.eqb c space || ((97 <=? code c) && (code c <=? 122)).

(** A character a key of the typing test can enter. *)
Definition typable (c : ascii) : bool :=
  (32 <=? code c) && (code c <=? 126).

(** The accuracy of [n] correct characters out of [n] is the [double]
    100. *)
Definition exact_100 (n : Z) : bool :=
  match Dbl.ddiv (Dbl.dmul (Dbl.of_Z n) (Dbl.of_Z 100)) (Dbl.of_Z n) with
  | S754_finite false m e => Pos.eqb m 7036874417766400 && (e =? -46)
  | _ => false
  end.

(** [check] holds of the [count] numbers from [n] on. *)
Fixpoint all_from (check : Z -> bool) (count : nat) (n : Z) : bool :=
  match count with
  | O => true
  | S c => check n && all_from check c (n + 1)
  end.

(** The part of the target a skip from [from] to [next] passes over. *)
Definition skipped (target : str) (from next : Z) : str :=
  firstn (Z.to_nat (next - from)) (skipn (Z.to_nat from) target).

(** How many spaces a text holds. *)
Definition spaces (s : str) : Z := Z.of_nat (count_occ ascii_dec s space).

(** [while ((ch = getch()) != 27) { ... if (typed.length() ==
    target.length()) { ... break; } }]: the loop of the typing test fed
    with keys, each with the time at which it is read. It stops at ESC, or
    after the key that completes the text; the flag tells which. *)
Fixpoint play (cfg : Config) (rand : nat -> nat) (keys : list (Z * Z))
  (s : State) : State * bool :=
  match keys with
  | [] => (s, false)
  | (now, ch) :: rest =>
      if ch =? 27 then (s, false)
      else
        let s' := handle_key cfg rand now ch s in
        if complete s' then (s', true) else play cfg rand rest s'
  end.

End Words.

(** ** The text area of the typing screen *)

Module Display.
Import Cxx Players TextSource.

(** A call [mvaddch(row, col, glyph)] of the rendering loop, with the colour
    pair switched on around it by [attron(COLOR_PAIR(color))], if any. The
    call puts the character on the screen when the position lies inside the
    terminal, and nothing otherwise. *)
Record Cell : Type := mkCell {
  row : Z;
  col : Z;
  glyph : ascii;
  color : option Z
}.

(** The variables of the rendering loop. *)
Record Pen : Type := mkPen {
  char_pos : Z;
  current_row : Z;
  current_col : Z;
  cursor_row : Z;
  cursor_col : Z;
  last_text_row : Z
}.

Definition win_start_x : Z := 2.
Definition win_start_y : Z := 1.

(** [start_col = win_start_x + 2], and the first row of the text. *)
Definition start_col : Z := win_start_x + 2.
Definition first_row : Z := win_start_y + 7.

(** [win_start_x + max_text_width] on a terminal of [max_x] columns. *)
Definition text_limit (max_x : Z) : Z :=
  let window_width := max_x - 4 in
  let max_text_width := window_width - 4 in
  win_start_x + max_text_width.

(** The loop that cuts the target into words and single spaces, with the
    word being read and the pieces pushed so far. *)
Fixpoint split_words (target current_word : str) (words_in_target : list str)
  : list str :=
  match target with
  | [] =>
      if negb (size current_word =? 0)
      then words_in_target ++ [current_word]
      else words_in_target
  | c :: rest =>
      if Ascii.eqb c space then
        split_words rest []
          ((if negb (size current_word =? 0)
            then words_in_target ++ [current_word]
            else words_in_target) ++ [[space]])
      else split_words rest (current_word ++ [c]) words_in_target
  end.

(** The value of [color] for the character at [char_pos]: 1 when it is
    typed and right, 2 when it is typed and wrong, 3 when it is not typed
    yet. *)
Definition status (target typed : str) (char_pos : Z) : Z :=
  if char_pos <? size typed then
    if Ascii.eqb (at_ typed char_pos) (at_ target char_pos) then 1 else 2
  else 3.

(** The body of the loop over the characters of a word, [has_colors] being
    what [has_colors()] returns: the pair is switched on only when the
    terminal has colours, and [mvaddch] is called in either case. *)
Definition draw_char (has_colors : bool) (target typed : str)
  (st : Pen * list Cell) (c : ascii) : Pen * list Cell :=
  let '(p, cells) := st in
  let color := status target typed (char_pos p) in
  let at_cursor := char_pos p =? size typed in
  (mkPen (char_pos p + 1) (current_row p) (current_col p + 1)
     (if at_cursor then current_row p else cursor_row p)
     (if at_cursor then current_col p else cursor_col p)
     (current_row p),
   cells ++ [mkCell (current_row p) (current_col p) c
               (if has_colors then Some color else None)]).

(** [if (word != " " && current_col + word.length() > win_start_x +
    max_text_width)]: the sum and the comparison are unsigned. *)
Definition place_word (max_x : Z) (p : Pen) (word : str) : Pen :=
  if negb (str_eqb word [space])
     && (wrap (text_limit max_x) <? wrap (current_col p + size word))
  then mkPen (char_pos p) (current_row p + 1) start_col (cursor_row p)
         (cursor_col p) (last_text_row p)
  else p.

(** The body of the loop over the pieces. *)
Definition draw_word (has_colors : bool) (max_x : Z) (target typed : str)
  (st : Pen * list Cell) (word : str) : Pen * list Cell :=
  let '(p, cells) := st in
  fold_left (draw_char has_colors target typed) word
    (place_word max_x p word, cells).

(** The rendering of the target on a terminal of [max_x] columns: the
    variables after the loop and the calls of [mvaddch], in order. *)
Definition render (has_colors : bool) (max_x : Z) (target typed : str)
  : Pen * list Cell :=
  fold_left (draw_word has_colors max_x target typed)
    (split_words target [] [])
    (mkPen 0 first_row start_col first_row start_col first_row, []).

End Display.

(** ** The vocabulary of the layout *)

Module Layout.
Import Cxx TextSource Display.

(** The pieces alternate: a word is not empty, holds no space, and does not
    follow a word. *)
Fixpoint alternate (after_word : bool) (pieces : list str) : Prop :=
  match pieces with
  | [] => True
  | w :: rest =>
      (w = [space] /\ alternate false rest) \/
      (after_word = false /\ w <> [] /\ ~ In space w /\ alternate true rest)
  end.

(** [b] is placed right of [a]. *)
Definition beside (a b : Cell) : Prop :=
  row b = row a /\ col b = col a + 1.

(** [b] starts the next row, after the space [a]. *)
Definition wrapped (a b : Cell) : Prop :=
  glyph a = space /\ glyph b <> space /\
  row b = row a + 1 /\ col b = start_col.

(** What holds of the calls made so far, [done] being their characters. *)
Definition drawn (has_colors : bool) (target typed done : str) (p : Pen)
  (cells : list Cell) : Prop :=
  map glyph cells = done /\
  char_pos p = size done /\
  start_col <= current_col p <= start_col + size done /\
  (cells = [] -> current_col p = start_col) /\
  (forall i cell, nth_error cells i = Some cell ->
                  color cell
                  = if has_colors
                    then Some (status target typed (Z.of_nat i))
                    else None) /\
  (forall cell, nth_error cells 0 = Some cell -> col cell = start_col) /\
  (size typed < size done ->
   exists cell, nth_error cells (Z.to_nat (size typed)) = Some cell /\
                cursor_row p = row cell /\ cursor_col p = col cell) /\
  (forall i a b, nth_error cells i = Some a ->
                 nth_error cells (S i) = Some b ->
                 beside a b \/ wrapped a b).

(** The pen stands right of the last call. *)
Definition follows (p : Pen) (cells : list Cell) : Prop :=
  forall l last, cells = l ++ [last] ->
                 current_row p = row last /\ current_col p = col last + 1.

(** The pen stands where the character [c] may be placed. *)
Definition ready (p : Pen) (cells : list Cell) (c : ascii) : Prop :=
  forall l last, cells = l ++ [last] ->
    (current_row p = row last /\ current_col p = col last + 1) \/
    (glyph last = space /\ c <> space /\
     current_row p = row last + 1 /\ current_col p = start_col).

End Layout.

(** * Properties *)

Import Cxx Dbl Board TextSource Session Props.

(** ** Strings: [find], [substr] and the size of a concatenation *)

Section StringFacts.

Lemma size_nonneg (s : str) : 0 <= size s.
Proof. unfold size; lia. Qed.

Lemma size_app (s t : str) : size (s ++ t) = size s + size t.
Proof. unfold size; rewrite length_app; lia. Qed.

Lemma size_cons (c : ascii) (s : str) : size (c :: s) = 1 + size s.
Proof. unfold size; simpl length; lia. Qed.

Lemma size_nil : size [] = 0.
Proof. reflexivity. Qed.

Lemma wrap_small (z : Z) : 0 <= z < 2 ^ 64 -> wrap z = z.
Proof. intros H; unfold wrap; now apply Z.mod_small. Qed.

Lemma npos_val : npos = 2 ^ 64 - 1.
Proof. reflexivity. Qed.

(** A scan that finds [c] stops [k] characters further, on the first [c]. *)
Lemma index_from_inv (c : ascii) (s : str) (i : Z) :
  index_from c s i = npos \/
  exists k : nat,
    index_from c s i = i + Z.of_nat k /\ (k < length s)%nat /\
    nth k s zero = c /\ ~ In c (firstn k s) /\
    count_occ ascii_dec s c = S (count_occ ascii_dec (skipn (S k) s) c).
Proof.
  revert i; induction s as [|x r IH]; intros i; simpl; [now left|].
  destruct (Ascii.eqb_spec x c) as [->|Hne].
  - right; exists 0%nat; simpl.
    destruct (ascii_dec c c) as [_|F]; [|contradiction].
    repeat split; try lia; auto.
  - destruct (IH (i + 1)) as [H|(k & Hk & Hlt & Hn & Hpre & Hc)]; [now left|].
    right; exists (S k); rewrite Hk.
    destruct (ascii_dec x c) as [E|_]; [contradiction|].
    repeat split; try lia; auto.
    simpl; intros [E|E]; [now apply Hne|now apply Hpre].
Qed.

(** A scan over a text without [c] finds nothing. *)
Lemma index_from_none (c : ascii) (s : str) (i : Z) :
  ~ In c s -> index_from c s i = npos.
Proof.
  revert i; induction s as [|x r IH]; intros i H; simpl; [reflexivity|].
  destruct (Ascii.eqb_spec x c) as [->|_]; [exfalso; apply H; now left|].
  apply IH; intros F; apply H; now right.
Qed.

(** A scan over [f ++ c :: rest] with no [c] in [f] stops after [f]. *)
Lemma index_from_app (c : ascii) (f rest : str) (i : Z) :
  ~ In c f -> index_from c (f ++ c :: rest) i = i + size f.
Proof.
  revert i; induction f as [|x r IH]; intros i H; simpl.
  - rewrite Ascii.eqb_refl, size_nil; lia.
  - destruct (Ascii.eqb_spec x c) as [->|_]; [exfalso; apply H; now left|].
    rewrite IH, size_cons; [lia|]. intros F; apply H; now right.
Qed.

Lemma skipn_size_app (pre s : str) : skipn (Z.to_nat (size pre)) (pre ++ s) = s.
Proof.
  unfold size; rewrite Nat2Z.id.
  rewrite skipn_app, skipn_all, Nat.sub_diag; reflexivity.
Qed.

(** [find] from the end of a prefix, when the next [c] closes the field [f]. *)
Lemma find_field (c : ascii) (pre f rest : str) :
  ~ In c f ->
  find (pre ++ f ++ c :: rest) c (size pre) = size pre + size f.
Proof.
  intros H; unfold find.
  destruct (Z.leb_spec (size (pre ++ f ++ c :: rest)) (size pre)) as [L|_].
  - rewrite !size_app, size_cons in L.
    pose proof (size_nonneg f); pose proof (size_nonneg rest); lia.
  - rewrite skipn_size_app; now apply index_from_app.
Qed.

(** [find] from the end of a prefix, when no [c] follows. *)
Lemma find_last_field (c : ascii) (pre f : str) :
  ~ In c f -> find (pre ++ f) c (size pre) = npos.
Proof.
  intros H; unfold find.
  destruct (size (pre ++ f) <=? size pre); [reflexivity|].
  rewrite skipn_size_app; now apply index_from_none.
Qed.

Lemma substr_chars_field (pre f rest : str) (n : Z) :
  size f <= n ->
  (rest = [] \/ n = size f) ->
  substr_chars (pre ++ f ++ rest) (size pre) n = f.
Proof.
  intros Hn Hr; unfold substr_chars.
  rewrite skipn_size_app, !size_app.
  pose proof (size_nonneg rest).
  replace (Z.to_nat (Z.min n (size pre + (size f + size rest) - size pre)))
    with (length f).
  - rewrite firstn_app, firstn_all, Nat.sub_diag; simpl; apply app_nil_r.
  - destruct Hr as [-> | ->]; unfold size in *; simpl in *; lia.
Qed.

(** [substr] at the end of a prefix, for the length of the field. *)
Lemma substr_field (pre f rest : str) :
  substr (pre ++ f ++ rest) (size pre) (size f) = Ok f.
Proof.
  unfold substr.
  destruct (Z.ltb_spec (size (pre ++ f ++ rest)) (size pre)) as [L|_].
  - rewrite !size_app in L.
    pose proof (size_nonneg f); pose proof (size_nonneg rest); lia.
  - rewrite substr_chars_field; auto; lia.
Qed.

(** [substr] at the end of a prefix, up to the end of the text. *)
Lemma substr_last_field (pre f : str) (n : Z) :
  size f <= n -> substr (pre ++ f) (size pre) n = Ok f.
Proof.
  intros Hn; unfold substr.
  destruct (Z.ltb_spec (size (pre ++ f)) (size pre)) as [L|_].
  - rewrite size_app in L; pose proof (size_nonneg f); lia.
  - rewrite <- (app_nil_r f) at 1.
    rewrite substr_chars_field; auto.
Qed.

(** What [find] returns: nothing, or the first position from [pos] that
    holds [c]. *)
Lemma find_inv (s : str) (c : ascii) (pos : Z) :
  0 <= pos ->
  find s c pos = npos \/
  (pos <= find s c pos < size s /\
   at_ s (find s c pos) = c /\
   (forall x, pos <= x < find s c pos -> at_ s x <> c) /\
   count_occ ascii_dec (skipn (Z.to_nat pos) s) c
   = S (count_occ ascii_dec (skipn (Z.to_nat (find s c pos + 1)) s) c)).
Proof.
  intros Hpos; unfold find.
  destruct (Z.leb_spec (size s) pos) as [L|L]; [now left|].
  destruct (index_from_inv c (skipn (Z.to_nat pos) s) pos)
    as [H|(k & Hk & Hlt & Hn & Hpre & Hc)]; [now left|].
  right; rewrite Hk.
  rewrite length_skipn in Hlt. unfold size in *.
  assert (E : Z.to_nat (pos + Z.of_nat k) = (Z.to_nat pos + k)%nat) by lia.
  repeat split; try lia.
  - unfold at_; rewrite E, <- nth_skipn; exact Hn.
  - intros x Hx F. apply Hpre. unfold at_ in F.
    replace (Z.to_nat x) with (Z.to_nat pos + (Z.to_nat x - Z.to_nat pos))%nat
      in F by lia.
    rewrite <- nth_skipn in F.
    rewrite <- F.
    rewrite <- (firstn_skipn k (skipn (Z.to_nat pos) s)) at 1.
    rewrite app_nth1.
    + apply nth_In. rewrite length_firstn, length_skipn. lia.
    + rewrite length_firstn, length_skipn. lia.
  - rewrite Hc. f_equal. f_equal.
    rewrite skipn_skipn. f_equal. lia.
Qed.

End StringFacts.

(** ** The loader, line by line *)

Ltac note_sizes :=
  repeat match goal with
         | |- context [size ?s] =>
             lazymatch goal with
             | _ : 0 <= size s |- _ => fail
             | _ => pose proof (size_nonneg s)
             end
         | _ : context [size ?s] |- _ =>
             lazymatch goal with
             | _ : 0 <= size s |- _ => fail
             | _ => pose proof (size_nonneg s)
             end
         end.

Ltac sizes :=
  repeat (rewrite size_app in * || rewrite size_cons in *
          || rewrite size_nil in *);
  note_sizes; try lia.

Section FieldFacts.

Variable line : str.
Hypothesis line_fits : size line < npos.

(** The separator that closes the field [f], searched from the field's
    first position [p]. *)
Lemma find_field_at (pre f rest : str) (p : Z) :
  line = pre ++ f ++ bar :: rest -> ~ In bar f -> p = size pre ->
  find line bar (wrap p) = p + size f.
Proof using line_fits.
  intros -> Hf ->. rewrite wrap_small.
  - now apply find_field.
  - rewrite npos_val in line_fits. sizes.
Qed.

(** No separator after the last field. *)
Lemma find_field_last (pre f : str) (p : Z) :
  line = pre ++ f -> ~ In bar f -> p = size pre ->
  find line bar (wrap p) = npos.
Proof using line_fits.
  intros -> Hf ->. rewrite wrap_small.
  - now apply find_last_field.
  - rewrite npos_val in line_fits. sizes.
Qed.

(** The text of a field, cut out by its first position and its length. *)
Lemma substr_field_at (pre f rest : str) (p n : Z) :
  line = pre ++ f ++ rest -> p = size pre -> n = size f ->
  substr line (wrap p) (wrap n) = Ok f.
Proof using line_fits.
  intros -> -> ->. rewrite npos_val in line_fits.
  rewrite !wrap_small by sizes. apply substr_field.
Qed.

(** The text of the last field, cut out by its first position. *)
Lemma substr_field_last (pre f : str) (p : Z) :
  line = pre ++ f -> p = size pre ->
  substr line (wrap p) npos = Ok f.
Proof using line_fits.
  intros -> ->. rewrite npos_val in line_fits.
  rewrite wrap_small by sizes. apply substr_last_field.
  rewrite npos_val. sizes.
Qed.

(** Three separators found one after the other are three separators. *)
Lemma three_bars :
  let pos1 := find line bar 0 in
  let pos2 := find line bar (wrap (pos1 + 1)) in
  let pos3 := find line bar (wrap (pos2 + 1)) in
  pos1 <> npos -> pos2 <> npos -> pos3 <> npos ->
  (3 <= count_occ ascii_dec line bar)%nat.
Proof using line_fits.
  cbv zeta. intros H1 H2 H3.
  rewrite npos_val in line_fits.
  destruct (find_inv line bar 0 ltac:(lia)) as [E|(B1 & _ & _ & C1)];
    [contradiction|].
  rewrite (wrap_small (find line bar 0 + 1)) in * by lia.
  destruct (find_inv line bar (find line bar 0 + 1) ltac:(lia))
    as [E|(B2 & _ & _ & C2)]; [contradiction|].
  rewrite (wrap_small (find line bar (find line bar 0 + 1) + 1)) in * by lia.
  destruct (find_inv line bar (find line bar (find line bar 0 + 1) + 1)
              ltac:(lia)) as [E|(B3 & _ & _ & C3)]; [contradiction|].
  simpl in C1. rewrite C1, C2, C3. lia.
Qed.

End FieldFacts.

(** ** Lines the loader ignores, and the oldest format *)

(** C10. A line with fewer than three '|' separators is ignored: whatever
    the two numeric conversions would do (even if each call of them threw),
    the loop body returns normally without a record, so no conversion is
    attempted, and the loop goes on with the remaining lines and the same
    leaderboard. *)
Theorem load_ignores_short_line :
  forall (stod_ : str -> result double) (stoi_ : str -> result Z)
         (line : str) (rest : list str) (leaderboard : list PlayerScore),
    size line < npos ->
    (count_occ ascii_dec line bar < 3)%nat ->
    load_line stod_ stoi_ line = Ok None /\
    load_lines stod_ stoi_ (line :: rest) leaderboard
    = load_lines stod_ stoi_ rest leaderboard.
Proof.
  intros stod_ stoi_ line rest leaderboard Hfit Hcount.
  assert (E : load_line stod_ stoi_ line = Ok None).
  { pose proof (three_bars line Hfit) as T. cbv zeta in T.
    unfold load_line. cbv zeta.
    destruct (Z.eqb_spec (find line bar 0) npos) as [_|N1];
      [reflexivity|].
    destruct (Z.eqb_spec (find line bar (wrap (find line bar 0 + 1))) npos)
      as [_|N2]; [reflexivity|].
    destruct (Z.eqb_spec
                (find line bar
                   (wrap (find line bar (wrap (find line bar 0 + 1)) + 1)))
                npos) as [_|N3]; [reflexivity|].
    specialize (T N1 N2 N3). lia. }
  split; [exact E|]. simpl. rewrite E. reflexivity.
Qed.

Lemma load_ignores_short_line_witness :
  load_line (fun _ => Throw invalid_argument) (fun _ => Throw invalid_argument)
    (lit "BOB|50|90") = Ok None /\
  load_lines (fun _ => Throw invalid_argument) (fun _ => Throw invalid_argument)
    [lit "BOB|50|90"; lit "no separator at all"] []
  = load_lines (fun _ => Throw invalid_argument)
      (fun _ => Throw invalid_argument) [lit "no separator at all"] [].
Proof.
  apply (load_ignores_short_line _ _ (lit "BOB|50|90")); vm_compute;
    [reflexivity|lia].
Defined.



(** A line with at least three separators whose WPM text does not convert
    ends the loop body, and with it the load, with the exception of the
    conversion. *)
Lemma load_line_bad_wpm (n w a rest : str) (e : exn)
  (others : list str) (leaderboard : list PlayerScore) :
  let line := n ++ bar :: w ++ bar :: a ++ bar :: rest in
  size line < npos ->
  ~ In bar n -> ~ In bar w -> ~ In bar a ->
  stod w = Throw e ->
  load_line stod stoi line = Throw e /\
  load_lines stod stoi (line :: others) leaderboard = Throw e.
Proof.
  intros line Hfit Hn Hw Ha Ew.
  assert (E : load_line stod stoi line = Throw e).
  { assert (P1 : find line bar 0 = size n).
    { change 0 with (size []) at 1.
      rewrite <- (wrap_small (size [])) by (rewrite size_nil; lia).
      now rewrite (find_field_at line Hfit [] n (w ++ bar :: a ++ bar :: rest)). }
    assert (P2 : find line bar (wrap (size n + 1)) = size n + 1 + size w).
    { apply (find_field_at line Hfit (n ++ [bar]) w (a ++ bar :: rest)); auto.
      - unfold line. now rewrite <- app_assoc.
      - sizes. }
    assert (P3 : find line bar (wrap (size n + 1 + size w + 1))
                 = size n + 1 + size w + 1 + size a).
    { apply (find_field_at line Hfit (n ++ bar :: w ++ [bar]) a rest); auto.
      - unfold line. rewrite <- !app_assoc. simpl. now rewrite <- app_assoc.
      - sizes. }
    assert (S0 : substr line 0 (size n) = Ok n).
    { change 0 with (size []) at 1.
      apply (substr_field [] n (bar :: w ++ bar :: a ++ bar :: rest)). }
    assert (S1 : substr line (wrap (size n + 1))
                   (wrap (size n + 1 + size w - size n - 1)) = Ok w).
    { apply (substr_field_at line Hfit (n ++ [bar]) w
               (bar :: a ++ bar :: rest)).
      - unfold line. now rewrite <- app_assoc.
      - sizes.
      - lia. }
    assert (B : forall z, 0 <= z < npos -> (z =? npos) = false)
      by (intros z Hz; apply Z.eqb_neq; lia).
    assert (Hsz : size line
                  = size n + 1 + size w + 1 + size a + 1 + size rest)
      by (unfold line; sizes).
    clearbody line. note_sizes.
    unfold load_line. cbv zeta.
    rewrite P1, P2, P3, S0, S1.
    rewrite !B by lia. cbn [negb andb bind].
    rewrite Ew. reflexivity. }
  split; [exact E|]. simpl. rewrite E. reflexivity.
Qed.

(** C2 fails on the code: the conversions of WPM, accuracy and time stand
    outside every [try] block. A line whose WPM field is not a number makes
    the whole load end with [std::invalid_argument], also when other lines
    are sound, whereas the same failure in the word count is caught and
    replaced by the defaults. *)
Theorem load_aborts_on_bad_wpm :
  loadLeaderboard (Some (lit "BOB|fast|90|10|01/02/2025 10:00|5|0|0"))
  = Throw invalid_argument /\
  loadLeaderboard
    (Some (lit "ANN|70|99|8|01/02/2025 09:00|5|0|0"
           ++ newline :: lit "BOB|fast|90|10|01/02/2025 10:00|5|0|0"))
  = Throw invalid_argument /\
  loadLeaderboard (Some (lit "BOB|50|90|ten")) = Throw invalid_argument /\
  loadLeaderboard (Some (lit "BOB|50|90|10|01/02/2025 10:00|many|0|0"))
  = Ok [mkScore (lit "BOB") (of_Z 50) (of_Z 90) (of_Z 10) (lit "Unknown")
               15 false false].
Proof. repeat split; vm_compute; reflexivity. Qed.

(** ** Numbers as text: [ostream << int] read back by [std::stoi] *)

Section DigitFacts.

Lemma digit_cases (d : Z) :
  0 <= d < 10 ->
  d = 0 \/ d = 1 \/ d = 2 \/ d = 3 \/ d = 4 \/ d = 5 \/ d = 6 \/ d = 7
  \/ d = 8 \/ d = 9.
Proof. lia. Qed.

Ltac each_digit d H :=
  destruct (digit_cases d H) as [E|[E|[E|[E|[E|[E|[E|[E|[E|E]]]]]]]]];
  subst d.

Lemma digit_val_char (d : Z) : 0 <= d < 10 -> digit_val (digit_char d) = Some d.
Proof. intros H; each_digit d H; reflexivity. Qed.

Lemma digit_not_space (d : Z) : 0 <= d < 10 -> isspace (digit_char d) = false.
Proof. intros H; each_digit d H; reflexivity. Qed.

Lemma take_sign_digit (d : Z) (r : str) :
  0 <= d < 10 -> take_sign (digit_char d :: r) = (false, digit_char d :: r).
Proof. intros H; each_digit d H; reflexivity. Qed.

Lemma digit_plain (d : Z) : 0 <= d < 10 -> plain (digit_char d) = true.
Proof. intros H; each_digit d H; reflexivity. Qed.

Lemma plain_text_app (s t : str) :
  plain_text (s ++ t) = plain_text s && plain_text t.
Proof. apply forallb_app. Qed.

Lemma plain_text_no (s : str) :
  plain_text s = true -> ~ In bar s /\ ~ In newline s.
Proof.
  unfold plain_text; rewrite forallb_forall; intros H.
  split; intros F; apply H in F; discriminate F.
Qed.

Lemma plain_text_sub (s t : str) :
  incl s t -> plain_text t = true -> plain_text s = true.
Proof.
  unfold plain_text; rewrite !forallb_forall; intros I H c Hc.
  apply H, I, Hc.
Qed.

Lemma show_digits_plain (fuel : nat) (n : Z) (acc : str) :
  plain_text acc = true -> plain_text (show_digits fuel n acc) = true.
Proof.
  revert n acc; induction fuel as [|f IH]; intros n acc H; simpl; [exact H|].
  assert (P : plain_text (digit_char (n mod 10) :: acc) = true).
  { simpl. rewrite digit_plain, H; [reflexivity|].
    apply Z.mod_pos_bound; lia. }
  destruct (n <? 10); [exact P|now apply IH].
Qed.

Lemma show_nat_plain (n : Z) : plain_text (show_nat n) = true.
Proof. now apply show_digits_plain. Qed.

Lemma show_int_plain (z : Z) : plain_text (show_int z) = true.
Proof.
  unfold show_int; destruct (z <? 0); [simpl|]; apply show_nat_plain.
Qed.

(** The text of [n] starts with a digit. *)
Lemma show_digits_head (fuel : nat) (n : Z) (acc : str) :
  exists d r, 0 <= d < 10 /\ show_digits (S fuel) n acc = digit_char d :: r.
Proof.
  revert n acc; induction fuel as [|f IH]; intros n acc.
  - exists (n mod 10), acc; split; [apply Z.mod_pos_bound; lia|].
    simpl; now destruct (n <? 10).
  - change (show_digits (S (S f)) n acc)
      with (if n <? 10 then digit_char (n mod 10) :: acc
            else show_digits (S f) (n / 10) (digit_char (n mod 10) :: acc)).
    destruct (n <? 10); [|apply IH].
    exists (n mod 10), acc; split; [apply Z.mod_pos_bound; lia|reflexivity].
Qed.

(** Reading the text of [n] in front of [acc] shifts the value read so far
    by the digits of [n]. *)
Lemma span_show_digits (fuel : nat) (n : Z) (acc : str) (a k : Z) :
  0 <= n < 2 ^ Z.of_nat fuel -> fuel <> O ->
  exists L, 0 < L /\
    span_digits digit_val 10 (show_digits fuel n acc) a k
    = span_digits digit_val 10 acc (a * 10 ^ L + n) (k + L).
Proof.
  revert n acc a k; induction fuel as [|f IH]; intros n acc a k Hn Hf.
  - contradiction.
  - simpl show_digits.
    assert (Hd : 0 <= n mod 10 < 10) by (apply Z.mod_pos_bound; lia).
    destruct (Z.ltb_spec n 10) as [Lt|Ge].
    + exists 1; split; [lia|]. rewrite Z.pow_1_r.
      change (span_digits digit_val 10 (digit_char (n mod 10) :: acc) a k)
        with (match digit_val (digit_char (n mod 10)) with
              | Some d => span_digits digit_val 10 acc (a * 10 + d) (k + 1)
              | None => (a, k, digit_char (n mod 10) :: acc)
              end).
      rewrite digit_val_char by exact Hd.
      now rewrite Z.mod_small by lia.
    + assert (Hq : 0 <= n / 10 < 2 ^ Z.of_nat f).
      { split; [apply Z.div_pos; lia|].
        apply Z.div_lt_upper_bound; [lia|].
        rewrite Nat2Z.inj_succ, Z.pow_succ_r in Hn by lia. lia. }
      assert (Hf' : f <> O).
      { intros ->. change (2 ^ Z.of_nat 0) with 1 in Hq.
        assert (1 <= n / 10) by (apply Z.div_le_lower_bound; lia). lia. }
      destruct (IH (n / 10) (digit_char (n mod 10) :: acc) a k Hq Hf')
        as (L & HL & E).
      exists (L + 1); split; [lia|]. rewrite E.
      change (span_digits digit_val 10 (digit_char (n mod 10) :: acc)
                (a * 10 ^ L + n / 10) (k + L))
        with (match digit_val (digit_char (n mod 10)) with
              | Some d =>
                  span_digits digit_val 10 acc
                    ((a * 10 ^ L + n / 10) * 10 + d) (k + L + 1)
              | None => (a * 10 ^ L + n / 10, k + L, digit_char (n mod 10) :: acc)
              end).
      rewrite digit_val_char by exact Hd.
      f_equal; [|lia].
      rewrite Z.pow_add_r, Z.pow_1_r by lia.
      pose proof (Z.div_mod n 10). lia.
Qed.

Lemma span_show_nat (n : Z) :
  0 <= n ->
  exists L, 0 < L /\ span_digits digit_val 10 (show_nat n) 0 0 = (n, L, []).
Proof.
  intros Hn. unfold show_nat.
  destruct (span_show_digits (S (Z.to_nat (Z.log2 n))) n [] 0 0)
    as (L & HL & E).
  - split; [exact Hn|].
    rewrite Nat2Z.inj_succ, Z2Nat.id by apply Z.log2_nonneg.
    destruct (Z.eq_dec n 0) as [->|Hz]; [reflexivity|].
    apply Z.log2_spec; lia.
  - discriminate.
  - exists L; split; [exact HL|]. rewrite E. reflexivity.
Qed.

(** What [ostream << int] writes, [std::stoi] reads back. *)
Lemma stoi_show_int (z : Z) :
  INT_MIN <= z <= INT_MAX -> stoi (show_int z) = Ok z.
Proof.
  intros Hz. unfold show_int, stoi.
  destruct (Z.ltb_spec z 0) as [Neg|Pos].
  - change (skip_space ("-"%char :: show_nat (- z)))
      with ("-"%char :: show_nat (- z)).
    change (take_sign ("-"%char :: show_nat (- z)))
      with (true, show_nat (- z)).
    destruct (span_show_nat (- z)) as (L & HL & E); [lia|].
    rewrite E. destruct (Z.eqb_spec L 0) as [F|_]; [lia|].
    rewrite Z.opp_involutive.
    destruct (Z.leb_spec INT_MIN z), (Z.leb_spec z INT_MAX);
      simpl; try lia; reflexivity.
  - destruct (show_digits_head (Z.to_nat (Z.log2 z)) z []) as (d & r & Hd & E).
    destruct (span_show_nat z Pos) as (L & HL & ES).
    unfold show_nat in *. rewrite E in *.
    simpl skip_space. rewrite digit_not_space by exact Hd.
    rewrite take_sign_digit by exact Hd.
    rewrite ES. destruct (Z.eqb_spec L 0) as [F|_]; [lia|].
    destruct (Z.leb_spec INT_MIN z), (Z.leb_spec z INT_MAX);
      simpl; try lia; reflexivity.
Qed.

End DigitFacts.

(** ** The text of a [double] keeps clear of the separators *)

Section ShowDoubleFacts.

Lemma plain_text_firstn (n : nat) (s : str) :
  plain_text s = true -> plain_text (firstn n s) = true.
Proof.
  intros H. rewrite <- (firstn_skipn n s), plain_text_app in H.
  now apply andb_true_iff in H.
Qed.

Lemma plain_text_skipn (n : nat) (s : str) :
  plain_text s = true -> plain_text (skipn n s) = true.
Proof.
  intros H. rewrite <- (firstn_skipn n s), plain_text_app in H.
  now apply andb_true_iff in H.
Qed.

Lemma plain_text_rev (s : str) : plain_text (rev s) = plain_text s.
Proof.
  induction s as [|c r IH]; [reflexivity|].
  simpl rev. rewrite plain_text_app, IH. simpl.
  destruct (plain c), (plain_text r); reflexivity.
Qed.

Lemma plain_text_repeat (c : ascii) (n : nat) :
  plain c = true -> plain_text (repeat c n) = true.
Proof. intros H; induction n as [|n IH]; simpl; [|rewrite H]; auto. Qed.

Lemma drop_zeros_step (s : str) :
  drop_zeros s = s \/ exists r, s = "0"%char :: r /\ drop_zeros s = drop_zeros r.
Proof.
  destruct s as [|[[] [] [] [] [] [] [] []] r]; simpl; auto.
  right; exists r; auto.
Qed.

Lemma drop_zeros_plain (s : str) :
  plain_text s = true -> plain_text (drop_zeros s) = true.
Proof.
  induction s as [|c r IH]; intros H; [exact H|].
  destruct (drop_zeros_step (c :: r)) as [->|(r' & E & ->)]; [exact H|].
  injection E as -> ->. apply IH. exact H.
Qed.

Lemma with_fraction_plain (i f : str) :
  plain_text i = true -> plain_text f = true ->
  plain_text (with_fraction i f) = true.
Proof.
  intros Hi Hf. unfold with_fraction.
  assert (P : plain_text (rev (drop_zeros (rev f))) = true).
  { rewrite plain_text_rev. apply drop_zeros_plain.
    now rewrite plain_text_rev. }
  destruct (rev (drop_zeros (rev f))) as [|c r]; [exact Hi|].
  rewrite plain_text_app, Hi. exact P.
Qed.

Lemma show_exponent_plain (x : Z) : plain_text (show_exponent x) = true.
Proof.
  unfold show_exponent.
  change (?a :: ?b :: ?l) with ([a; b] ++ l).
  rewrite !plain_text_app, show_nat_plain.
  destruct (x <? 0), (Z.abs x <? 10); reflexivity.
Qed.

Lemma show_g_plain (q x : Z) : plain_text (show_g q x) = true.
Proof.
  unfold show_g. pose proof (show_nat_plain q) as Hq.
  destruct ((-4 <=? x) && (x <? 6)).
  - destruct (0 <=? x); apply with_fraction_plain; auto.
    + now apply plain_text_firstn.
    + now apply plain_text_skipn.
    + rewrite plain_text_app, Hq, plain_text_repeat; reflexivity.
  - rewrite plain_text_app, show_exponent_plain, with_fraction_plain;
      auto using plain_text_firstn, plain_text_skipn.
Qed.

Lemma show_double_plain (x : double) : plain_text (show_double x) = true.
Proof.
  destruct x as [s|s| |s m e]; simpl show_double.
  - now destruct s.
  - now destruct s.
  - reflexivity.
  - destruct (six_digits _ _) as [q x].
    rewrite plain_text_app, show_g_plain. now destruct s.
Qed.

End ShowDoubleFacts.

(** ** A line of the newest format, field by field *)

Ltac regroup :=
  repeat (rewrite <- app_assoc || rewrite <- app_comm_cons); reflexivity.

(** A line of eight fields whose count and flags convert: the loader
    converts the three numbers in turn, and yields the record made of the
    fields, the name in upper case, or the exception of the first number
    that does not convert. *)
Lemma load_newest_fields (f1 f2 f3 f4 f5 f6 f7 f8 : str) (v6 v7 v8 : Z) :
  let line :=
    f1 ++ bar :: f2 ++ bar :: f3 ++ bar :: f4 ++ bar :: f5 ++ bar :: f6
       ++ bar :: f7 ++ bar :: f8 in
  size line < npos ->
  ~ In bar f1 -> ~ In bar f2 -> ~ In bar f3 -> ~ In bar f4 ->
  ~ In bar f5 -> ~ In bar f6 -> ~ In bar f7 -> ~ In bar f8 ->
  stoi f6 = Ok v6 -> stoi f7 = Ok v7 -> stoi f8 = Ok v8 ->
  load_line stod stoi line
  = bind (stod f2) (fun v2 =>
    bind (stod f3) (fun v3 =>
    bind (stod f4) (fun v4 =>
      Ok (Some (mkScore (toUpperCase f1) v2 v3 v4 f5 v6 (v7 =? 1)
                        (v8 =? 1)))))).
Proof.
  intros line Hfit H1 H2 H3 H4 H5 H6 H7 H8 E6 E7 E8.
  assert (Hsz : size line
                = size f1 + 1 + size f2 + 1 + size f3 + 1 + size f4 + 1 + size f5 + 1 + size f6 + 1 + size f7 + 1 + size f8) by (unfold line; sizes).
  assert (P1 : find line bar 0 = size f1).
  { change 0 with (size []) at 1.
    rewrite <- (wrap_small (size [])) by (rewrite size_nil; lia).
    now rewrite (find_field_at line Hfit [] f1 (f2 ++ bar :: f3 ++ bar :: f4 ++ bar :: f5 ++ bar :: f6 ++ bar :: f7 ++ bar :: f8)). }
  assert (P2 : find line bar (wrap (size f1 + 1))
               = size f1 + 1 + size f2).
  { apply (find_field_at line Hfit (f1 ++ [bar]) f2 (f3 ++ bar :: f4 ++ bar :: f5 ++ bar :: f6 ++ bar :: f7 ++ bar :: f8));
      [unfold line; regroup|assumption|sizes]. }
  assert (P3 : find line bar (wrap (size f1 + 1 + size f2 + 1))
               = size f1 + 1 + size f2 + 1 + size f3).
  { apply (find_field_at line Hfit (f1 ++ bar :: f2 ++ [bar]) f3 (f4 ++ bar :: f5 ++ bar :: f6 ++ bar :: f7 ++ bar :: f8));
      [unfold line; regroup|assumption|sizes]. }
  assert (P4 : find line bar (wrap (size f1 + 1 + size f2 + 1 + size f3 + 1))
               = size f1 + 1 + size f2 + 1 + size f3 + 1 + size f4).
  { apply (find_field_at line Hfit (f1 ++ bar :: f2 ++ bar :: f3 ++ [bar]) f4 (f5 ++ bar :: f6 ++ bar :: f7 ++ bar :: f8));
      [unfold line; regroup|assumption|sizes]. }
  assert (P5 : find line bar (wrap (size f1 + 1 + size f2 + 1 + size f3 + 1 + size f4 + 1))
               = size f1 + 1 + size f2 + 1 + size f3 + 1 + size f4 + 1 + size f5).
  { apply (find_field_at line Hfit (f1 ++ bar :: f2 ++ bar :: f3 ++ bar :: f4 ++ [bar]) f5 (f6 ++ bar :: f7 ++ bar :: f8));
      [unfold line; regroup|assumption|sizes]. }
  assert (P6 : find line bar (wrap (size f1 + 1 + size f2 + 1 + size f3 + 1 + size f4 + 1 + size f5 + 1))
               = size f1 + 1 + size f2 + 1 + size f3 + 1 + size f4 + 1 + size f5 + 1 + size f6).
  { apply (find_field_at line Hfit (f1 ++ bar :: f2 ++ bar :: f3 ++ bar :: f4 ++ bar :: f5 ++ [bar]) f6 (f7 ++ bar :: f8));
      [unfold line; regroup|assumption|sizes]. }
  assert (P7 : find line bar (wrap (size f1 + 1 + size f2 + 1 + size f3 + 1 + size f4 + 1 + size f5 + 1 + size f6 + 1))
               = size f1 + 1 + size f2 + 1 + size f3 + 1 + size f4 + 1 + size f5 + 1 + size f6 + 1 + size f7).
  { apply (find_field_at line Hfit (f1 ++ bar :: f2 ++ bar :: f3 ++ bar :: f4 ++ bar :: f5 ++ bar :: f6 ++ [bar]) f7 (f8));
      [unfold line; regroup|assumption|sizes]. }
  assert (S1 : substr line 0 (size f1) = Ok f1).
  { change 0 with (size []) at 1.
    apply (substr_field [] f1 (bar :: f2 ++ bar :: f3 ++ bar :: f4 ++ bar :: f5 ++ bar :: f6 ++ bar :: f7 ++ bar :: f8)). }
  assert (S2 : substr line (wrap (size f1 + 1))
                 (wrap (size f1 + 1 + size f2 - (size f1) - 1)) = Ok f2).
  { apply (substr_field_at line Hfit (f1 ++ [bar]) f2 (bar :: f3 ++ bar :: f4 ++ bar :: f5 ++ bar :: f6 ++ bar :: f7 ++ bar :: f8));
      [unfold line; regroup|sizes|lia]. }
  assert (S3 : substr line (wrap (size f1 + 1 + size f2 + 1))
                 (wrap (size f1 + 1 + size f2 + 1 + size f3 - (size f1 + 1 + size f2) - 1)) = Ok f3).
  { apply (substr_field_at line Hfit (f1 ++ bar :: f2 ++ [bar]) f3 (bar :: f4 ++ bar :: f5 ++ bar :: f6 ++ bar :: f7 ++ bar :: f8));
      [unfold line; regroup|sizes|lia]. }
  assert (S4 : substr line (wrap (size f1 + 1 + size f2 + 1 + size f3 + 1))
                 (wrap (size f1 + 1 + size f2 + 1 + size f3 + 1 + size f4 - (size f1 + 1 + size f2 + 1 + size f3) - 1)) = Ok f4).
  { apply (substr_field_at line Hfit (f1 ++ bar :: f2 ++ bar :: f3 ++ [bar]) f4 (bar :: f5 ++ bar :: f6 ++ bar :: f7 ++ bar :: f8));
      [unfold line; regroup|sizes|lia]. }
  assert (S5 : substr line (wrap (size f1 + 1 + size f2 + 1 + size f3 + 1 + size f4 + 1))
                 (wrap (size f1 + 1 + size f2 + 1 + size f3 + 1 + size f4 + 1 + size f5 - (size f1 + 1 + size f2 + 1 + size f3 + 1 + size f4) - 1)) = Ok f5).
  { apply (substr_field_at line Hfit (f1 ++ bar :: f2 ++ bar :: f3 ++ bar :: f4 ++ [bar]) f5 (bar :: f6 ++ bar :: f7 ++ bar :: f8));
      [unfold line; regroup|sizes|lia]. }
  assert (S6 : substr line (wrap (size f1 + 1 + size f2 + 1 + size f3 + 1 + size f4 + 1 + size f5 + 1))
                 (wrap (size f1 + 1 + size f2 + 1 + size f3 + 1 + size f4 + 1 + size f5 + 1 + size f6 - (size f1 + 1 + size f2 + 1 + size f3 + 1 + size f4 + 1 + size f5) - 1)) = Ok f6).
  { apply (substr_field_at line Hfit (f1 ++ bar :: f2 ++ bar :: f3 ++ bar :: f4 ++ bar :: f5 ++ [bar]) f6 (bar :: f7 ++ bar :: f8));
      [unfold line; regroup|sizes|lia]. }
  assert (S7 : substr line (wrap (size f1 + 1 + size f2 + 1 + size f3 + 1 + size f4 + 1 + size f5 + 1 + size f6 + 1))
                 (wrap (size f1 + 1 + size f2 + 1 + size f3 + 1 + size f4 + 1 + size f5 + 1 + size f6 + 1 + size f7 - (size f1 + 1 + size f2 + 1 + size f3 + 1 + size f4 + 1 + size f5 + 1 + size f6) - 1)) = Ok f7).
  { apply (substr_field_at line Hfit (f1 ++ bar :: f2 ++ bar :: f3 ++ bar :: f4 ++ bar :: f5 ++ bar :: f6 ++ [bar]) f7 (bar :: f8));
      [unfold line; regroup|sizes|lia]. }
  assert (S8 : substr line (wrap (size f1 + 1 + size f2 + 1 + size f3 + 1 + size f4 + 1 + size f5 + 1 + size f6 + 1 + size f7 + 1)) npos = Ok f8).
  { apply (substr_field_last line Hfit (f1 ++ bar :: f2 ++ bar :: f3 ++ bar :: f4 ++ bar :: f5 ++ bar :: f6 ++ bar :: f7 ++ [bar]) f8);
      [unfold line; regroup|sizes]. }
  assert (B : forall z, 0 <= z < npos -> (z =? npos) = false)
    by (intros z Hz; apply Z.eqb_neq; lia).
  clearbody line. note_sizes.
  unfold load_line, parse_newest. cbv zeta.
  rewrite P1, P2, P3, P4, P5, P6, P7.
  rewrite S1, S2, S3, S4, S5, S6, S7, S8.
  rewrite !B by lia.
  cbn [negb andb bind try_catch].
  destruct (stod f2) as [v2|e]; cbn [bind]; [|reflexivity].
  destruct (stod f3) as [v3|e]; cbn [bind]; [|reflexivity].
  destruct (stod f4) as [v4|e]; cbn [bind]; [|reflexivity].
  rewrite E6, E7, E8. reflexivity.
Qed.

(** ** Saving, then loading *)

Section RoundTrip.

(** Both texts of a NaN read back as the NaN. *)
Lemma stod_nan_text :
  stod (lit "nan") = Ok S754_nan /\ stod (lit "-nan") = Ok S754_nan.
Proof. split; reflexivity. Qed.

Lemma save_line_text (s : PlayerScore) : save_line s = line_text s ++ [newline].
Proof. unfold save_line, line_text. symmetry. regroup. Qed.

Lemma show_flag_plain (b : bool) : plain_text (show_flag b) = true.
Proof. now destruct b. Qed.

Lemma no_newline_field (f rest : str) :
  ~ In newline f -> ~ In newline rest -> ~ In newline (f ++ bar :: rest).
Proof.
  intros Hf Hr F. apply in_app_or in F as [F|[F|F]]; auto. discriminate F.
Qed.

Lemma line_text_no_newline (s : PlayerScore) :
  plain_text (name s) = true -> plain_text (date s) = true ->
  ~ In newline (line_text s).
Proof.
  intros Hn Hd. unfold line_text.
  repeat apply no_newline_field;
    apply plain_text_no;
    auto using show_double_plain, show_int_plain, show_flag_plain.
Qed.

Lemma getlines_line (l rest cur : str) :
  ~ In newline l ->
  getlines cur (l ++ newline :: rest) = (rev cur ++ l) :: getlines [] rest.
Proof.
  revert cur; induction l as [|c r IH]; intros cur H; simpl.
  - now rewrite app_nil_r.
  - destruct (Ascii.eqb_spec c newline) as [->|_];
      [exfalso; apply H; now left|].
    rewrite IH by (intros F; apply H; now right).
    simpl. now rewrite <- app_assoc.
Qed.

Lemma getlines_saved (lb : list PlayerScore) :
  Forall writable lb ->
  getlines [] (saveLeaderboard lb) = map line_text lb.
Proof.
  induction 1 as [|s lb Hs _ IH]; [reflexivity|].
  unfold saveLeaderboard in *. simpl.
  rewrite save_line_text, <- app_assoc. simpl.
  rewrite getlines_line, IH; [reflexivity|].
  destruct Hs as (Hn & Hd & _).
  apply line_text_no_newline; assumption.
Qed.

(** The line of a writable record loads as the record read back. *)
Lemma load_line_text (s : PlayerScore) :
  writable s ->
  load_line stod stoi (line_text s)
  = bind (reread_score s) (fun s' => Ok (Some s')).
Proof.
  intros (Hn & Hd & Hc & Hfit).
  unfold line_text in *.
  rewrite (load_newest_fields (name s) (show_double (wpm s))
             (show_double (accuracy s)) (show_double (time s)) (date s)
             (show_int (wordCount s)) (show_flag (hasPunctuation s))
             (show_flag (hasNumbers s))
             (wordCount s)
             (if hasPunctuation s then 1 else 0)
             (if hasNumbers s then 1 else 0));
    try assumption;
    try (apply plain_text_no;
         auto using show_double_plain, show_int_plain, show_flag_plain).
  - unfold reread_score, reread.
    destruct (stod (show_double (wpm s))) as [w|e]; [|reflexivity].
    destruct (stod (show_double (accuracy s))) as [a|e]; [|reflexivity].
    destruct (stod (show_double (time s))) as [t|e]; [|reflexivity].
    cbn [bind]. now destruct (hasPunctuation s), (hasNumbers s).
  - now apply stoi_show_int.
  - now destruct (hasPunctuation s).
  - now destruct (hasNumbers s).
Qed.

Lemma load_lines_saved (lb : list PlayerScore) :
  Forall writable lb ->
  forall acc : list PlayerScore,
    load_lines stod stoi (map line_text lb) acc
    = bind (reread_board lb) (fun lb' => Ok (acc ++ lb')).
Proof.
  induction 1 as [|s lb Hs _ IH]; intros acc; simpl.
  - now rewrite app_nil_r.
  - rewrite load_line_text by exact Hs.
    destruct (reread_score s) as [s'|e]; [|reflexivity].
    cbn [bind]. rewrite IH.
    destruct (reread_board lb) as [lb'|e]; [|reflexivity].
    cbn [bind]. now rewrite <- app_assoc.
Qed.

Lemma load_saved (lb : list PlayerScore) :
  Forall writable lb ->
  loadLeaderboard (Some (saveLeaderboard lb)) = reread_board lb.
Proof.
  intros H. unfold loadLeaderboard.
  rewrite getlines_saved, load_lines_saved by exact H.
  now destruct (reread_board lb).
Qed.

Lemma reread_score_reloaded (s s' : PlayerScore) :
  reread_score s = Ok s' -> reloaded s s'.
Proof.
  unfold reread_score, reloaded.
  destruct (reread (wpm s)) as [w|e]; [|discriminate].
  destruct (reread (accuracy s)) as [a|e]; [|discriminate].
  destruct (reread (time s)) as [t|e]; [|discriminate].
  cbn [bind]. intros E. injection E as <-. cbn. repeat split; reflexivity.
Qed.

Lemma reread_board_reloaded (lb : list PlayerScore) :
  forall lb', reread_board lb = Ok lb' -> Forall2 reloaded lb lb'.
Proof.
  induction lb as [|s lb IH]; intros lb' E; simpl in E.
  - injection E as <-. constructor.
  - destruct (reread_score s) as [s'|e] eqn:Es; [|discriminate].
    cbn [bind] in E.
    destruct (reread_board lb) as [r|e]; [|discriminate].
    cbn [bind] in E. injection E as <-.
    constructor; [now apply reread_score_reloaded | now apply IH].
Qed.

Lemma reread_faithful (lb : list PlayerScore) :
  Forall faithful lb -> reread_board lb = Ok lb.
Proof.
  induction 1 as [|s lb (Hu & Ew & Ea & Et) _ IH]; [reflexivity|].
  simpl. unfold reread_score. rewrite Ew, Ea, Et, Hu, IH. cbn [bind].
  now destruct s.
Qed.

End RoundTrip.

(** C7, as the claim states it, fails. The writer keeps six significant
    digits of a number: the score of nine correct characters in seven
    seconds, 15.428571428571429, is written as 15.4286 and read back as
    another number. A name may hold the separator (the name prompt accepts
    every printable character): the line of "A|B" is cut after "A", and the
    load ends with [std::invalid_argument] on the text "B". A name that is
    not in upper case comes back in upper case. *)
Lemma save_load_loses_digits :
  let wpm0 := ddiv (ddiv (of_Z 9) (of_Z 5)) (ddiv (of_Z 7) (of_Z 60)) in
  let lb :=
    [mkScore (lit "BOB") wpm0 (of_Z 100) (of_Z 7) (lit "01/02/2025 10:00")
             2 false false] in
  let lb_bar :=
    [mkScore (lit "A|B") (of_Z 60) (of_Z 100) (of_Z 7)
             (lit "01/02/2025 10:00") 5 false false] in
  let lb_lower :=
    [mkScore (lit "bob") (of_Z 60) (of_Z 100) (of_Z 7)
             (lit "01/02/2025 10:00") 5 false false] in
  (saveLeaderboard lb
   = lit "BOB|15.4286|100|7|01/02/2025 10:00|2|0|0" ++ [newline] /\
   loadLeaderboard (Some (saveLeaderboard lb))
   = Ok [mkScore (lit "BOB") (ratio false 154286 10000) (of_Z 100) (of_Z 7)
                 (lit "01/02/2025 10:00") 2 false false] /\
   loadLeaderboard (Some (saveLeaderboard lb)) <> Ok lb) /\
  (saveLeaderboard lb_bar
   = lit "A|B|60|100|7|01/02/2025 10:00|5|0|0" ++ [newline] /\
   loadLeaderboard (Some (saveLeaderboard lb_bar)) = Throw invalid_argument) /\
  (loadLeaderboard (Some (saveLeaderboard lb_lower))
   = Ok [mkScore (lit "BOB") (of_Z 60) (of_Z 100) (of_Z 7)
                 (lit "01/02/2025 10:00") 5 false false]).
Proof.
  cbv zeta. repeat split; try (vm_compute; reflexivity).
  intros F. vm_compute in F. discriminate F.
Qed.

(** C7, amended. Saving a leaderboard whose names and dates hold neither
    '|' nor newline, then loading the file, reads the records back one for
    one and in the same order: the date, the word count and the two flags
    of every record are preserved, the name comes back in upper case, and
    each of WPM, accuracy and time comes back as the number that its
    six-digit text converts to. The load ends with the exception of the
    first such text that does not convert, and with nothing else. Records
    with names in upper case and numbers that their texts give back come
    back with every field preserved. *)
Theorem save_then_load :
  forall lb : list PlayerScore,
    Forall writable lb ->
    loadLeaderboard (Some (saveLeaderboard lb)) = reread_board lb /\
    (forall lb', loadLeaderboard (Some (saveLeaderboard lb)) = Ok lb' ->
                 Forall2 reloaded lb lb') /\
    (Forall faithful lb ->
     loadLeaderboard (Some (saveLeaderboard lb)) = Ok lb).
Proof.
  intros lb H. rewrite (load_saved lb H).
  split; [reflexivity|].
  split; [apply reread_board_reloaded | apply reread_faithful].
Qed.

Ltac writable_now :=
  repeat split; try (vm_compute; reflexivity);
  try (vm_compute; intros F; discriminate F).

Lemma save_then_load_witness :
  let run := ddiv (ddiv (of_Z 3) (of_Z 5)) (ddiv (of_Z 3) (of_Z 60)) in
  let ann :=
    mkScore (lit "ANN") (ratio false 725 10) (of_Z 100) (of_Z 8)
            (lit "01/02/2025 09:00") 5 true false in
  let lb :=
    [ann; mkScore (lit "bob") run (of_Z 100) (of_Z 3) (lit "Unknown") 15
                  false true] in
  run <> of_Z 12 /\
  saveLeaderboard lb
  = lit "ANN|72.5|100|8|01/02/2025 09:00|5|1|0" ++ newline
      :: lit "bob|12|100|3|Unknown|15|0|1" ++ [newline] /\
  loadLeaderboard (Some (saveLeaderboard lb))
  = Ok [ann; mkScore (lit "BOB") (of_Z 12) (of_Z 100) (of_Z 3)
                     (lit "Unknown") 15 false true] /\
  loadLeaderboard (Some (saveLeaderboard [ann])) = Ok [ann].
Proof.
  cbv zeta.
  split; [vm_compute; intros F; discriminate F|].
  split; [vm_compute; reflexivity|].
  split.
  - destruct (save_then_load
                [mkScore (lit "ANN") (ratio false 725 10) (of_Z 100) (of_Z 8)
                         (lit "01/02/2025 09:00") 5 true false;
                 mkScore (lit "bob")
                         (ddiv (ddiv (of_Z 3) (of_Z 5))
                               (ddiv (of_Z 3) (of_Z 60)))
                         (of_Z 100) (of_Z 3) (lit "Unknown") 15 false true])
      as (E & _ & _).
    + repeat constructor; writable_now.
    + rewrite E. vm_compute. reflexivity.
  - destruct (save_then_load
                [mkScore (lit "ANN") (ratio false 725 10) (of_Z 100) (of_Z 8)
                         (lit "01/02/2025 09:00") 5 true false])
      as (_ & _ & E).
    + repeat constructor; writable_now.
    + apply E. repeat constructor; vm_compute; reflexivity.
Defined.

(** ** The order of [double] values that are numbers *)

Section DoubleOrder.

Lemma SFcompare_ord (x y : double) :
  is_nan x = false -> is_nan y = false ->
  SFcompare x y = Some (lex (ord x) (ord y)).
Proof.
  destruct x as [s|s| |s m e], y as [t|t| |t n f]; try discriminate;
    intros _ _; try (destruct s; try destruct t; reflexivity).
  simpl SFcompare. destruct s, t; try reflexivity; unfold ord, lex.
  change (-1 ?= -1) with Eq. rewrite Z.compare_opp.
  rewrite (Z.compare_antisym e f).
  destruct (e ?= f); reflexivity.
Qed.

Lemma lex_Lt (a b : Z * Z * Z) : lex a b = Lt <-> lt3 a b.
Proof.
  destruct a as [[a1 a2] a3], b as [[b1 b2] b3]; unfold lex, lt3.
  destruct (Z.compare_spec a1 b1), (Z.compare_spec a2 b2),
    (Z.compare_spec a3 b3); split; intros K; try discriminate K;
    try reflexivity; lia.
Qed.

Lemma lex_Gt (a b : Z * Z * Z) : lex a b = Gt <-> lt3 b a.
Proof.
  destruct a as [[a1 a2] a3], b as [[b1 b2] b3]; unfold lex, lt3.
  destruct (Z.compare_spec a1 b1), (Z.compare_spec a2 b2),
    (Z.compare_spec a3 b3); split; intros K; try discriminate K;
    try reflexivity; lia.
Qed.

Lemma lex_Eq (a b : Z * Z * Z) : lex a b = Eq <-> a = b.
Proof.
  destruct a as [[a1 a2] a3], b as [[b1 b2] b3]; unfold lex.
  destruct (Z.compare_spec a1 b1), (Z.compare_spec a2 b2),
    (Z.compare_spec a3 b3); split; intros K; try discriminate K;
    try reflexivity; try (injection K; lia); subst; reflexivity.
Qed.

Lemma lt3_trans (a b c : Z * Z * Z) : lt3 a b -> lt3 b c -> lt3 a c.
Proof.
  destruct a as [[a1 a2] a3], b as [[b1 b2] b3], c as [[c1 c2] c3].
  unfold lt3; lia.
Qed.

Lemma lt3_irrefl (a : Z * Z * Z) : ~ lt3 a a.
Proof. destruct a as [[a1 a2] a3]; unfold lt3; lia. Qed.

Lemma lt3_total (a b : Z * Z * Z) : lt3 a b \/ a = b \/ lt3 b a.
Proof.
  destruct a as [[a1 a2] a3], b as [[b1 b2] b3]; unfold lt3.
  destruct (Z.lt_total a1 b1) as [|[|]], (Z.lt_total a2 b2) as [|[|]],
    (Z.lt_total a3 b3) as [|[|]]; subst; auto; try lia;
    right; right; lia.
Qed.

Variables x y : double.
Hypothesis x_num : is_nan x = false.
Hypothesis y_num : is_nan y = false.

Lemma dgt_ord : dgt x y = true <-> lt3 (ord y) (ord x).
Proof using x_num y_num.
  unfold dgt, SFltb. rewrite SFcompare_ord by assumption.
  rewrite <- lex_Lt. destruct (lex (ord y) (ord x)); split; congruence.
Qed.

Lemma deq_ord : deq x y = true <-> ord x = ord y.
Proof using x_num y_num.
  unfold deq, SFeqb. rewrite SFcompare_ord by assumption.
  rewrite <- lex_Eq. destruct (lex (ord x) (ord y)); split; congruence.
Qed.

Lemma dne_ord : dne x y = true <-> ord x <> ord y.
Proof using x_num y_num.
  unfold dne. rewrite negb_true_iff, <- deq_ord. fold (deq x y).
  destruct (deq x y); split; congruence.
Qed.

Lemma dge_ord : dge x y = true <-> ~ lt3 (ord x) (ord y).
Proof using x_num y_num.
  unfold dge, SFleb. rewrite SFcompare_ord by assumption.
  rewrite <- lex_Gt. destruct (lex (ord y) (ord x)); split; congruence.
Qed.

End DoubleOrder.

(** ** Ranking *)

Section CompareFacts.

Lemma compareScores_ord (a b : PlayerScore) :
  numeric a -> numeric b ->
  (compareScores a b = true <->
   lt3 (ord (wpm b)) (ord (wpm a)) \/
   (ord (wpm a) = ord (wpm b) /\ lt3 (ord (accuracy b)) (ord (accuracy a)))).
Proof.
  intros [Wa Aa] [Wb Ab]. unfold compareScores.
  pose proof (dne_ord (wpm a) (wpm b) Wa Wb) as N.
  pose proof (dgt_ord (wpm a) (wpm b) Wa Wb) as G.
  pose proof (dgt_ord (accuracy a) (accuracy b) Aa Ab) as GA.
  pose proof (lt3_irrefl (ord (wpm a))) as I.
  destruct (dne (wpm a) (wpm b)).
  - rewrite G. split; [auto|]. intros [H|[E _]]; [exact H|].
    now apply N in E.
  - rewrite GA.
    assert (E : ord (wpm a) = ord (wpm b)).
    { destruct (lt3_total (ord (wpm a)) (ord (wpm b))) as [L|[E|L]];
        [|exact E|]; assert (F : false = true)
          by (apply N; intros E; rewrite E in L;
              now apply lt3_irrefl in L); discriminate F. }
    split; [auto|]. intros [H|[_ H]]; [|exact H].
    rewrite E in H. now apply lt3_irrefl in H.
Qed.

Lemma ranked_ord (a b : PlayerScore) :
  numeric a -> numeric b ->
  (ranked a b <->
   lt3 (ord (wpm b)) (ord (wpm a)) \/
   (ord (wpm a) = ord (wpm b) /\ ~ lt3 (ord (accuracy a)) (ord (accuracy b)))).
Proof.
  intros [Wa Aa] [Wb Ab]. unfold ranked.
  rewrite (dgt_ord (wpm a) (wpm b) Wa Wb), (deq_ord (wpm a) (wpm b) Wa Wb),
    (dge_ord (accuracy a) (accuracy b) Aa Ab).
  reflexivity.
Qed.

(** For numbers, [a] may stand before [b] exactly when [compareScores]
    does not put [b] before [a]. *)
Lemma ranked_iff (a b : PlayerScore) :
  numeric a -> numeric b -> (ranked a b <-> compareScores b a = false).
Proof.
  intros Na Nb.
  rewrite (ranked_ord a b Na Nb), <- not_true_iff_false,
    (compareScores_ord b a Nb Na).
  pose proof (lt3_total (ord (wpm a)) (ord (wpm b))) as T.
  pose proof (lt3_irrefl (ord (wpm a))) as I.
  pose proof (lt3_trans (ord (wpm a)) (ord (wpm b)) (ord (wpm a))) as Tr.
  split.
  - intros [H|[E H]] [K|[E' K]].
    + apply I, Tr; assumption.
    + rewrite E' in H. now apply lt3_irrefl in H.
    + rewrite E in K. now apply lt3_irrefl in K.
    + now apply H.
  - intros H. destruct T as [L|[E|L]].
    + exfalso; apply H; now left.
    + right; split; [exact E|]. intros K. apply H; right; split; auto.
    + now left.
Qed.

Lemma compareScores_trans (a b c : PlayerScore) :
  numeric a -> numeric b -> numeric c ->
  compareScores a b = true -> compareScores b c = true ->
  compareScores a c = true.
Proof.
  intros Na Nb Nc.
  rewrite (compareScores_ord a b Na Nb), (compareScores_ord b c Nb Nc),
    (compareScores_ord a c Na Nc).
  intros [H|[E H]] [K|[E' K]].
  - left; eapply lt3_trans; eauto.
  - left; now rewrite <- E'.
  - left; now rewrite E.
  - right; split; [congruence|]. eapply lt3_trans; eauto.
Qed.

Lemma compareScores_asym (a b : PlayerScore) :
  numeric a -> numeric b ->
  compareScores a b = true -> compareScores b a = false.
Proof.
  intros Na Nb H. apply not_true_iff_false. intros K.
  pose proof (compareScores_trans a b a Na Nb Na H K) as F.
  apply (compareScores_ord a a Na Na) in F.
  destruct F as [F|[_ F]]; now apply lt3_irrefl in F.
Qed.

End CompareFacts.

(** ** The sort and the insertion *)

Section SortFacts.

Lemma insert_sorted_perm (x : PlayerScore) (l : list PlayerScore) :
  Permutation (insert_sorted compareScores x l) (x :: l).
Proof.
  induction l as [|y r IH]; simpl; [reflexivity|].
  destruct (compareScores x y); [reflexivity|].
  rewrite IH. apply perm_swap.
Qed.

Lemma sort_perm_acc (l acc : list PlayerScore) :
  Permutation
    (fold_left (fun sorted x => insert_sorted compareScores x sorted) l acc)
    (acc ++ l).
Proof.
  revert acc; induction l as [|x r IH]; intros acc; simpl.
  - now rewrite app_nil_r.
  - rewrite IH, insert_sorted_perm. simpl. apply Permutation_middle.
Qed.

Lemma sort_perm (l : list PlayerScore) :
  Permutation (sort compareScores l) l.
Proof. apply (sort_perm_acc l []). Qed.

Lemma insert_sorted_sorted (x : PlayerScore) (l : list PlayerScore) :
  numeric x -> Forall numeric l ->
  StronglySorted before l ->
  StronglySorted before (insert_sorted compareScores x l).
Proof.
  intros Nx Nl S; induction S as [|y r S IH Hy]; simpl.
  - constructor; constructor.
  - inversion Nl as [|? ? Ny Nr]; subst.
    destruct (compareScores x y) eqn:C.
    + constructor; [now constructor|].
      constructor; [now apply compareScores_asym|].
      rewrite Forall_forall in *. intros z Hz. unfold before.
      apply not_true_iff_false. intros K.
      assert (F : compareScores z y = true)
        by (apply (compareScores_trans z x y); auto).
      specialize (Hy z Hz). unfold before in Hy. congruence.
    + constructor; [now apply IH|].
      rewrite Forall_forall in *. intros z Hz.
      apply (Permutation_in _ (insert_sorted_perm x r)) in Hz.
      destruct Hz as [<-|Hz]; [exact C|now apply Hy].
Qed.

Lemma sort_sorted_acc (l acc : list PlayerScore) :
  Forall numeric l -> Forall numeric acc -> StronglySorted before acc ->
  StronglySorted before
    (fold_left (fun sorted x => insert_sorted compareScores x sorted) l acc).
Proof.
  revert acc; induction l as [|x r IH]; intros acc Nl Na S; simpl; [exact S|].
  inversion Nl as [|? ? Nx Nr]; subst.
  apply IH; [exact Nr| |now apply insert_sorted_sorted].
  apply (Permutation_Forall (x := x :: acc)); [|now constructor].
  symmetry; apply insert_sorted_perm.
Qed.

Lemma sort_sorted (l : list PlayerScore) :
  Forall numeric l -> StronglySorted before (sort compareScores l).
Proof. intros N; apply sort_sorted_acc; auto; constructor. Qed.

Lemma sorted_firstn (n : nat) (l : list PlayerScore) :
  StronglySorted before l -> StronglySorted before (firstn n l).
Proof.
  intros S; revert n; induction S as [|y r S IH Hy]; intros [|n]; simpl;
    try constructor; auto.
  rewrite Forall_forall in *. intros z Hz. apply Hy.
  rewrite <- (firstn_skipn n r). apply in_or_app; now left.
Qed.

Lemma sorted_pairs (R : PlayerScore -> PlayerScore -> Prop)
  (l : list PlayerScore) :
  StronglySorted R l ->
  forall (i j : nat) (a b : PlayerScore),
    (i < j)%nat -> nth_error l i = Some a -> nth_error l j = Some b -> R a b.
Proof.
  induction 1 as [|y r S IH Hy]; intros i j a b Hij Ha Hb.
  - destruct i; discriminate Ha.
  - destruct j as [|j]; [lia|]. simpl in Hb. destruct i as [|i].
    + injection Ha as <-. rewrite Forall_forall in Hy.
      apply Hy. eapply nth_error_In; eauto.
    + simpl in Ha. apply (IH i j); auto; lia.
Qed.

Lemma sorted_ranked (l : list PlayerScore) :
  Forall numeric l -> StronglySorted before l -> StronglySorted ranked l.
Proof.
  intros N S; induction S as [|y r S IH Hy]; [constructor|].
  inversion N as [|? ? Ny Nr]; subst.
  constructor; [now apply IH|].
  rewrite Forall_forall in *. intros z Hz.
  apply ranked_iff; auto. now apply Hy.
Qed.

End SortFacts.

Section InsertFacts.

Lemma compareScores_irrefl (a : PlayerScore) :
  numeric a -> compareScores a a = false.
Proof.
  intros Na. apply not_true_iff_false. intros K.
  apply (compareScores_ord a a Na Na) in K.
  destruct K as [K|[_ K]]; now apply lt3_irrefl in K.
Qed.

Lemma sorted_app (R : PlayerScore -> PlayerScore -> Prop)
  (l1 l2 : list PlayerScore) :
  StronglySorted R (l1 ++ l2) ->
  forall a b, In a l1 -> In b l2 -> R a b.
Proof.
  induction l1 as [|y r IH]; intros S a b Ha Hb; [contradiction|].
  simpl in S. inversion S as [|? ? S' Hy]; subst.
  destruct Ha as [<-|Ha]; [|now apply IH].
  rewrite Forall_forall in Hy. apply Hy, in_or_app. now right.
Qed.

Lemma addToLeaderboard_firstn (lb : list PlayerScore) (r : PlayerScore) :
  addToLeaderboard lb r = firstn 10 (sort compareScores (lb ++ [r])).
Proof.
  unfold addToLeaderboard.
  destruct (Z.ltb_spec 10 (Z.of_nat (length (sort compareScores (lb ++ [r])))))
    as [_|L]; [reflexivity|].
  symmetry; apply firstn_all2; lia.
Qed.

(** A record with a higher WPM than [low] is not ranked at or below it. *)
Lemma higher_not_below (r low : PlayerScore) :
  numeric r -> numeric low ->
  dgt (wpm r) (wpm low) = true -> ~ ranked low r.
Proof.
  intros Nr Nl H K.
  apply (dgt_ord _ _ (proj1 Nr) (proj1 Nl)) in H.
  apply (ranked_ord low r Nl Nr) in K.
  destruct K as [K|[E _]].
  - apply (lt3_irrefl (ord (wpm r))). eapply lt3_trans; eauto.
  - rewrite E in H. now apply lt3_irrefl in H.
Qed.

End InsertFacts.

(** C5, as the claim states it, fails: a session completed within the
    second of its first key, with no correct character, scores 0/0, which
    is not a number, and two such records are in no order: neither WPM is
    higher, and the two are not equal. *)
Lemma nan_scores_are_not_ranked :
  let cfg := mkConfig 1 false true in
  let rnd := fun _ : nat => 7%nat in
  let st := handle_key cfg rnd 100 56 (start cfg rnd 0) in
  let today := lit "01/02/2025 10:00" in
  let lb1 := fst (finish_session cfg (lit "ANN") today [] st 100) in
  let lb2 := fst (finish_session cfg (lit "BOB") today lb1 st 100) in
  target st = lit "7" /\ typed st = lit "8" /\
  exists a b,
    lb2 = [a; b] /\ wpm a = S754_nan /\ wpm b = S754_nan /\
    dgt (wpm a) (wpm b) = false /\ deq (wpm a) (wpm b) = false /\
    ~ ranked a b.
Proof.
  cbv zeta. split; [vm_compute; reflexivity|].
  split; [vm_compute; reflexivity|].
  eexists; eexists. split; [vm_compute; reflexivity|].
  repeat split; try reflexivity.
  intros [F|[F _]]; vm_compute in F; discriminate F.
Qed.

(** C5, amended. For a leaderboard and a new record whose WPM and accuracy
    are numbers, [addToLeaderboard] appends the record, sorts and keeps the
    first ten: afterwards at most ten records remain, every record standing
    before another has a higher WPM, or the same WPM and an accuracy at
    least as high, and when ten records were held and the new one has a
    higher WPM than a lowest of them, exactly ten remain, the new record is
    one of them, and the record left out is a lowest of the ten. *)
Theorem insert_keeps_ranking :
  forall (lb : list PlayerScore) (r : PlayerScore),
    Forall numeric lb -> numeric r ->
    let lb' := addToLeaderboard lb r in
    (exists sorted,
        Permutation sorted (lb ++ [r]) /\ StronglySorted ranked sorted /\
        lb' = firstn 10 sorted) /\
    (length lb' <= 10)%nat /\
    (forall (i j : nat) (a b : PlayerScore),
        (i < j)%nat -> nth_error lb' i = Some a -> nth_error lb' j = Some b ->
        ranked a b) /\
    (forall low : PlayerScore,
        length lb = 10%nat -> In low lb ->
        (forall x, In x lb -> ranked x low) ->
        dgt (wpm r) (wpm low) = true ->
        length lb' = 10%nat /\ In r lb' /\
        exists out,
          In out lb /\ (forall x, In x lb -> ranked x out) /\
          Permutation (lb' ++ [out]) (lb ++ [r])).
Proof.
  intros lb r Nlb Nr lb'.
  assert (Nall : Forall numeric (lb ++ [r]))
    by (apply Forall_app; split; [exact Nlb|now constructor]).
  pose proof (sort_perm (lb ++ [r])) as P.
  pose proof (sort_sorted (lb ++ [r]) Nall) as S.
  assert (NS : Forall numeric (sort compareScores (lb ++ [r])))
    by (apply (Permutation_Forall (x := lb ++ [r])); [now symmetry|exact Nall]).
  assert (E : lb' = firstn 10 (sort compareScores (lb ++ [r])))
    by apply addToLeaderboard_firstn.
  assert (S' : StronglySorted ranked lb').
  { rewrite E. apply sorted_ranked.
    - rewrite Forall_forall in *. intros z Hz. apply NS.
      rewrite <- (firstn_skipn 10). apply in_or_app; now left.
    - now apply sorted_firstn. }
  split; [|split; [|split]].
  - exists (sort compareScores (lb ++ [r])).
    repeat split; auto using sorted_ranked.
  - rewrite E, length_firstn. lia.
  - now apply sorted_pairs.
  - intros low Hlen Hlow Hlowest Hhigher.
    assert (Nlow : numeric low) by (rewrite Forall_forall in Nlb; auto).
    assert (LS : length (sort compareScores (lb ++ [r])) = 11%nat).
    { rewrite (Permutation_length P), length_app, Hlen. reflexivity. }
    destruct (skipn 10 (sort compareScores (lb ++ [r]))) as [|out [|? ?]] eqn:K;
      try (apply (f_equal (@length _)) in K; rewrite length_skipn, LS in K;
           simpl in K; lia).
    assert (D : sort compareScores (lb ++ [r]) = lb' ++ [out])
      by (rewrite <- (firstn_skipn 10 (sort _ _)), K, E; reflexivity).
    rewrite D in P, S, NS.
    assert (Nout : numeric out).
    { rewrite Forall_forall in NS. apply NS, in_or_app. right; now left. }
    assert (Below : forall z, In z lb' -> ranked z out).
    { intros z Hz. apply ranked_iff; auto.
      - rewrite Forall_forall in NS. apply NS, in_or_app. now left.
      - apply (sorted_app before lb' [out] S z out Hz). now left. }
    assert (Own : ranked out out)
      by (apply ranked_iff; auto; now apply compareScores_irrefl).
    assert (Hr : out <> r).
    { intros ->.
      assert (Hl : In low (lb' ++ [r]))
        by (apply (Permutation_in _ (Permutation_sym P)), in_or_app; now left).
      apply (higher_not_below r low Nr Nlow Hhigher).
      apply in_app_or in Hl as [Hl|[<-|[]]]; auto. }
    split; [|split].
    + apply (f_equal (@length _)) in D.
      rewrite LS, length_app in D. simpl in D. lia.
    + assert (Hin : In r (lb' ++ [out]))
        by (apply (Permutation_in _ (Permutation_sym P)), in_or_app;
            right; now left).
      apply in_app_or in Hin as [Hin|[Hin|[]]]; [exact Hin|].
      now elim Hr.
    + exists out. split; [|split; [|exact P]].
      * assert (Hin : In out (lb ++ [r]))
          by (apply (Permutation_in _ P), in_or_app; right; now left).
        apply in_app_or in Hin as [Hin|[Hin|[]]]; [exact Hin|].
        now elim Hr.
      * intros x Hx.
        assert (Hin : In x (lb' ++ [out]))
          by (apply (Permutation_in _ (Permutation_sym P)), in_or_app;
              now left).
        apply in_app_or in Hin as [Hin|[<-|[]]]; auto.
Qed.

Lemma insert_keeps_ranking_witness :
  Forall numeric sample_board /\ numeric (sample_score 55) /\
  addToLeaderboard sample_board (sample_score 55)
  = map sample_score [100; 90; 80; 70; 60; 55; 50; 40; 30; 20] /\
  length (addToLeaderboard sample_board (sample_score 55)) = 10%nat /\
  In (sample_score 55) (addToLeaderboard sample_board (sample_score 55)) /\
  (forall (i j : nat) (a b : PlayerScore),
      (i < j)%nat ->
      nth_error (addToLeaderboard sample_board (sample_score 55)) i = Some a ->
      nth_error (addToLeaderboard sample_board (sample_score 55)) j = Some b ->
      ranked a b).
Proof.
  assert (N : Forall numeric sample_board)
    by (repeat constructor; reflexivity).
  assert (Nr : numeric (sample_score 55)) by (split; reflexivity).
  destruct (insert_keeps_ranking sample_board (sample_score 55) N Nr)
    as (_ & _ & Pairs & Evict).
  destruct (Evict (sample_score 10)) as (Len & Kept & _).
  - reflexivity.
  - simpl. tauto.
  - intros x Hx. simpl in Hx.
    repeat (destruct Hx as [<-|Hx]; [vm_compute; auto|]). contradiction.
  - reflexivity.
  - repeat split; auto.
Defined.

(** ** The generated text *)

Section TextFacts.

Lemma pool_tokens_ok (p n : bool) : forallb token_ok (pool p n) = true.
Proof. destruct p, n; vm_compute; reflexivity. Qed.

(** The code's branches select the pool of each mode. *)
Lemma selected_pool_pool (p n : bool) : selected_pool p n = pool p n.
Proof. destruct p, n; vm_compute; reflexivity. Qed.

Lemma pool_not_empty (p n : bool) : length (pool p n) <> O.
Proof. destruct p, n; vm_compute; discriminate. Qed.

Lemma token_ok_inv (t : str) :
  token_ok t = true ->
  t <> [] /\ (length t <= 12)%nat /\ ~ In space t /\ ~ In underscore t.
Proof.
  unfold token_ok. rewrite !andb_true_iff, forallb_forall.
  intros [[H0 H1] H2]. repeat split.
  - intros ->. discriminate H0.
  - now apply Nat.leb_le.
  - intros F. apply H2 in F. unfold space in F. now rewrite Ascii.eqb_refl in F.
  - intros F. apply H2 in F. rewrite Ascii.eqb_refl in F.
    now rewrite andb_false_r in F.
Qed.

Variable pl : list str.
Hypothesis pl_ok : forallb token_ok pl = true.
Hypothesis pl_not_empty : length pl <> O.
Variable rand : nat -> nat.

Lemma picks_length (n k : nat) : length (picks pl rand n k) = n.
Proof using Type. revert k; induction n as [|n IH]; intros k; simpl; auto. Qed.

Lemma picks_in_pool (n k : nat) :
  Forall (fun t => In t pl) (picks pl rand n k).
Proof using pl_not_empty.
  revert k; induction n as [|n IH]; intros k; simpl; constructor; auto.
  apply nth_In, Nat.mod_upper_bound, pl_not_empty.
Qed.

Lemma picks_ok (n k : nat) :
  Forall (fun t => token_ok t = true) (picks pl rand n k).
Proof using pl_ok pl_not_empty.
  pose proof (picks_in_pool n k) as H.
  rewrite forallb_forall in pl_ok. rewrite Forall_forall in *. auto.
Qed.

(** The loop appends a space and a token for each remaining iteration once
    the first token is in place. *)
Lemma generate_loop_rest (n : nat) (i : Z) (k : nat) (target : str) :
  0 < i ->
  generate_loop pl rand n i k target
  = target ++ concat (map (cons space) (picks pl rand n k)).
Proof using Type.
  clear pl_ok pl_not_empty.
  revert i k target; induction n as [|n IH]; intros i k target Hi; simpl.
  - now rewrite app_nil_r.
  - destruct (Z.ltb_spec 0 i) as [_|F]; [|lia].
    rewrite IH by lia. rewrite <- !app_assoc. reflexivity.
Qed.

Lemma generate_loop_join (n k : nat) :
  generate_loop pl rand n 0 k [] = join (picks pl rand n k).
Proof using Type.
  clear pl_ok pl_not_empty.
  destruct n as [|n]; [reflexivity|]. simpl.
  now rewrite generate_loop_rest by lia.
Qed.

End TextFacts.

Section JoinFacts.

Lemma split_on_token (t : str) : ~ In space t -> split_on space t = [t].
Proof.
  induction t as [|x r IH]; intros H; simpl; [reflexivity|].
  destruct (Ascii.eqb_spec x space) as [->|_]; [exfalso; apply H; now left|].
  rewrite IH; [reflexivity|]. intros F; apply H; now right.
Qed.

Lemma split_on_app (t s : str) :
  ~ In space t -> split_on space (t ++ space :: s) = t :: split_on space s.
Proof.
  induction t as [|x r IH]; intros H; simpl.
  - rewrite ?Ascii.eqb_refl. reflexivity.
  - destruct (Ascii.eqb_spec x space) as [->|_]; [exfalso; apply H; now left|].
    rewrite IH; [reflexivity|]. intros F; apply H; now right.
Qed.

Lemma split_join (t : str) (rest : list str) :
  Forall (fun u => ~ In space u) (t :: rest) ->
  split_on space (join (t :: rest)) = t :: rest.
Proof.
  revert t; induction rest as [|u rest IH]; intros t H; simpl.
  - rewrite app_nil_r. apply split_on_token. now inversion H.
  - inversion H as [|? ? Ht Hr]; subst.
    rewrite split_on_app by exact Ht. f_equal. now apply IH.
Qed.

Lemma spaced_token (b : bool) (t rest : str) :
  t <> [] -> ~ In space t ->
  spaced_ok b (t ++ rest) = spaced_ok false rest.
Proof.
  revert b; induction t as [|x r IH]; intros b Ht H; [contradiction|].
  simpl. destruct (Ascii.eqb_spec x space) as [->|_];
    [exfalso; apply H; now left|].
  destruct r as [|y r]; [reflexivity|].
  apply IH; [discriminate|]. intros F; apply H; now right.
Qed.

Lemma spaced_rest (rest : list str) :
  Forall (fun u => u <> [] /\ ~ In space u) rest ->
  spaced_ok false (concat (map (cons space) rest)) = true.
Proof.
  induction 1 as [|u rest [Hu Hs] _ IH]; simpl; [reflexivity|].
  rewrite ?Ascii.eqb_refl. simpl.
  now rewrite spaced_token.
Qed.

Lemma spaced_join (t : str) (rest : list str) :
  Forall (fun u => u <> [] /\ ~ In space u) (t :: rest) ->
  spaced_ok true (join (t :: rest)) = true.
Proof.
  intros H. inversion H as [|? ? [Ht Hs] Hr]; subst. simpl.
  rewrite spaced_token by assumption. now apply spaced_rest.
Qed.

Lemma join_chars (c : ascii) (tokens : list str) :
  In c (join tokens) -> c = space \/ exists t, In t tokens /\ In c t.
Proof.
  destruct tokens as [|t rest]; [contradiction|]. simpl.
  intros H. apply in_app_or in H as [H|H].
  - right; exists t; split; [now left|exact H].
  - induction rest as [|u rest IH]; [contradiction|].
    simpl in H. destruct H as [H|H]; [now left|].
    apply in_app_or in H as [H|H].
    + right; exists u; split; [right; now left|exact H].
    + destruct (IH H) as [E|(v & Hv & Hc)]; [now left|].
      right; exists v; split; [|exact Hc].
      destruct Hv as [<-|Hv]; [now left|right; now right].
Qed.

Lemma join_size (tokens : list str) :
  Forall (fun t => (length t <= 12)%nat) tokens ->
  size (join tokens) <= 13 * Z.of_nat (length tokens).
Proof.
  destruct tokens as [|t rest]; [intros _; apply Z.le_refl|].
  intros H. inversion H as [|? ? Ht Hr]; subst. simpl join.
  rewrite size_app.
  assert (R : size (concat (map (cons space) rest))
              <= 13 * Z.of_nat (length rest)).
  { clear H Ht. induction Hr as [|u rest Hu _ IH]; [apply Z.le_refl|].
    simpl concat. rewrite size_cons, size_app. simpl length.
    unfold size at 1. lia. }
  simpl length. unfold size at 1. lia.
Qed.

End JoinFacts.

(** C9. For a word count in [1, 1000], either value of the two options and
    any sequence of random numbers, the generated target cut at its spaces
    gives exactly [wordCount] tokens, none empty; the target is these tokens
    joined by one space, and it has no space at its start or end and no two
    spaces in a row. The tokens are drawn from the pool of the mode: the
    [i]-th token is the element of [selected_pool] at the index the [i]-th
    random number gives, so in the numbers-only mode every token is a pure
    number, and the punctuation and digit words appear only with their
    options. *)
Theorem generated_text_shape :
  forall (wordCount : Z) (includePunctuation includeNumbers : bool)
         (rand : nat -> nat) (k : nat),
    1 <= wordCount <= 1000 ->
    let target := generate wordCount includePunctuation includeNumbers rand k in
    let tokens := split_on space target in
    Z.of_nat (length tokens) = wordCount /\
    Forall (fun t => In t (pool includePunctuation includeNumbers)) tokens /\
    Forall (fun t => t <> [] /\ ~ In space t) tokens /\
    target = join tokens /\
    spaced_ok true target = true /\
    tokens = picks (selected_pool includePunctuation includeNumbers) rand
               (Z.to_nat wordCount) k /\
    Forall (fun t => In t (selected_pool includePunctuation includeNumbers))
      tokens.
Proof.
  intros wordCount p n rand k Hwc target tokens.
  rewrite (selected_pool_pool p n).
  pose proof (pool_tokens_ok p n) as Hok.
  pose proof (pool_not_empty p n) as Hne.
  assert (E : target = join (picks (pool p n) rand (Z.to_nat wordCount) k))
    by (unfold target, generate; apply generate_loop_join).
  pose proof (picks_length (pool p n) rand (Z.to_nat wordCount) k) as Hlen.
  pose proof (picks_in_pool (pool p n) Hne rand (Z.to_nat wordCount) k) as Hin.
  pose proof (picks_ok (pool p n) Hok Hne rand (Z.to_nat wordCount) k) as Hall.
  destruct (picks (pool p n) rand (Z.to_nat wordCount) k) as [|t rest] eqn:P;
    [simpl in Hlen; lia|].
  assert (Hshape : Forall (fun u => u <> [] /\ ~ In space u) (t :: rest)).
  { rewrite Forall_forall in *. intros u Hu.
    destruct (token_ok_inv u (Hall u Hu)) as (A & _ & B & _). auto. }
  assert (T : tokens = t :: rest).
  { unfold tokens. rewrite E. apply split_join.
    rewrite Forall_forall in *. intros u Hu. now apply Hshape. }
  rewrite T. repeat split; auto.
  - rewrite Hlen. lia.
  - rewrite E. now apply spaced_join.
Qed.

Lemma generated_text_shape_witness :
  let target := generate 5 false true (fun k => (k * 7 + 29)%nat) 0 in
  target = lit "456 0 7 14 25" /\
  Z.of_nat (length (split_on space target)) = 5 /\
  Forall (fun t => In t (pool false true)) (split_on space target) /\
  Forall (fun t => t <> [] /\ ~ In space t) (split_on space target) /\
  target = join (split_on space target) /\
  spaced_ok true target = true /\
  split_on space target
  = picks (selected_pool false true) (fun k => (k * 7 + 29)%nat)
      (Z.to_nat 5) 0 /\
  Forall (fun t => In t pureNumbers) (split_on space target).
Proof.
  split; [vm_compute; reflexivity|].
  apply (generated_text_shape 5 false true (fun k => (k * 7 + 29)%nat) 0).
  lia.
Defined.

(** ** The typing loop: the scans of the space handler *)

Section ScanFacts.

Lemma at_app_left (a b : str) (x : Z) :
  0 <= x < size a -> at_ (a ++ b) x = at_ a x.
Proof. unfold at_, size; intros H. apply app_nth1. lia. Qed.

Lemma at_app_right (a b : str) (x : Z) :
  size a <= x -> at_ (a ++ b) x = at_ b (x - size a).
Proof.
  unfold at_, size; intros H. rewrite app_nth2 by lia. f_equal. lia.
Qed.

Lemma skipn_at (n : nat) (s : str) :
  (n < length s)%nat -> skipn n s = nth n s zero :: skipn (S n) s.
Proof.
  revert s; induction n as [|n IH]; intros [|c r] H; simpl in *; try lia.
  - reflexivity.
  - apply IH. lia.
Qed.

Lemma index_from_found (c : ascii) (s : str) (i : Z) :
  In c s ->
  exists k : nat, index_from c s i = i + Z.of_nat k /\ (k < length s)%nat.
Proof.
  revert i; induction s as [|x r IH]; intros i H; [contradiction|]. simpl.
  destruct (Ascii.eqb_spec x c) as [->|Hne].
  - exists 0%nat; split; [lia|simpl; lia].
  - destruct H as [H|H]; [contradiction|].
    destruct (IH (i + 1) H) as (k & E & L).
    exists (S k); split; [lia|simpl; lia].
Qed.

(** When [find] finds nothing, no position from [pos] on holds [c]. *)
Lemma find_npos (s : str) (c : ascii) (pos : Z) :
  0 <= pos -> size s < npos -> find s c pos = npos ->
  forall x, pos <= x < size s -> at_ s x <> c.
Proof.
  intros Hpos Hfit E x Hx F. unfold find in E.
  destruct (Z.leb_spec (size s) pos) as [L|L]; [lia|].
  destruct (index_from_found c (skipn (Z.to_nat pos) s) pos) as (k & Ek & Lk).
  - unfold at_ in F. rewrite <- F.
    replace (Z.to_nat x) with (Z.to_nat pos + (Z.to_nat x - Z.to_nat pos))%nat
      by lia.
    rewrite <- nth_skipn. apply nth_In. rewrite length_skipn.
    unfold size in *. lia.
  - rewrite length_skipn in Lk. unfold size in *. lia.
Qed.

(** The scan over the spaces stops on the first character that is not a
    space, or at the end. *)
Lemma skip_spaces_spec (target : str) (fuel : nat) (p : Z) :
  0 <= p <= size target -> size target - p <= Z.of_nat fuel ->
  let q := skip_spaces fuel target p in
  p <= q <= size target /\
  (forall x, p <= x < q -> at_ target x = space) /\
  (q = size target \/ at_ target q <> space).
Proof.
  revert p; induction fuel as [|f IH]; intros p Hp Hf; simpl.
  - repeat split; lia.
  - destruct (Z.ltb_spec p (size target)) as [L|L]; simpl.
    + destruct (Ascii.eqb_spec (at_ target p) space) as [E|N].
      * destruct (IH (p + 1)) as (B & A & D); [lia|lia|].
        repeat split; try lia; [|exact D].
        intros x Hx. destruct (Z.eq_dec x p) as [->|Hne]; [exact E|].
        apply A. lia.
      * repeat split; try lia. now right.
    + repeat split; lia.
Qed.

(** The fill writes a mark for each target character up to [next]. *)
Lemma fill_spec (target : str) (next : Z) (fuel : nat) (typed : str) :
  size typed <= next <= size target ->
  next - size typed <= Z.of_nat fuel ->
  fill fuel target typed next
  = typed ++ map mark (firstn (Z.to_nat (next - size typed))
                         (skipn (Z.to_nat (size typed)) target)).
Proof.
  revert typed; induction fuel as [|f IH]; intros typed Hn Hf; simpl.
  - replace (Z.to_nat (next - size typed)) with 0%nat by lia.
    simpl. now rewrite app_nil_r.
  - destruct (Z.ltb_spec (size typed) next) as [L|L]; simpl.
    + destruct (Z.ltb_spec (size typed) (size target)) as [_|F]; [|lia].
      rewrite IH by (rewrite size_app, size_cons, size_nil; lia).
      rewrite size_app, size_cons, size_nil, <- app_assoc. f_equal.
      replace (Z.to_nat (next - size typed))
        with (S (Z.to_nat (next - (size typed + (1 + 0))))) by lia.
      rewrite (skipn_at (Z.to_nat (size typed)))
        by (unfold size in *; lia).
      rewrite firstn_cons, map_cons.
      replace (S (Z.to_nat (size typed)))
        with (Z.to_nat (size typed + (1 + 0))) by (unfold size; lia).
      reflexivity.
    + replace (Z.to_nat (next - size typed)) with 0%nat by lia.
      simpl. now rewrite app_nil_r.
Qed.

(** The fill never leaves the target's length behind. *)
Lemma fill_bounded (target : str) (next : Z) (fuel : nat) (typed : str) :
  size typed <= size target -> size (fill fuel target typed next) <= size target.
Proof.
  revert typed; induction fuel as [|f IH]; intros typed H; simpl; [exact H|].
  destruct (Z.ltb_spec (size typed) next); simpl; [|exact H].
  destruct (Z.ltb_spec (size typed) (size target)); simpl; [|exact H].
  apply IH. rewrite size_app, size_cons, size_nil. lia.
Qed.

End ScanFacts.

(** ** The typing loop: one key *)

Section KeyFacts.

Variable cfg : Config.
Variable rand : nat -> nat.

Lemma target_start_timer (now : Z) (s : State) :
  target (start_timer now s) = target s.
Proof. unfold start_timer; now destruct (started s). Qed.

Lemma typed_start_timer (now : Z) (s : State) :
  typed (start_timer now s) = typed s.
Proof. unfold start_timer; now destruct (started s). Qed.

Lemma size_firstn_le (n : nat) (s : str) : size (firstn n s) <= size s.
Proof. unfold size. rewrite length_firstn. lia. Qed.

Lemma size_removelast (s : str) : s <> [] -> size (removelast s) = size s - 1.
Proof.
  intros H. destruct (exists_last H) as (r & c & ->).
  rewrite removelast_last, size_app, size_cons, size_nil. lia.
Qed.

(** Backspace never lengthens what is typed and leaves the target alone. *)
Lemma backspace_bounded (s : State) :
  target (backspace s) = target s /\
  size (typed (backspace s)) <= size (typed s).
Proof.
  unfold backspace.
  destruct (has_jumped s && (jumped_from_pos s <? size (typed s))); simpl.
  - split; [reflexivity|]. unfold substr_chars. simpl skipn.
    apply size_firstn_le.
  - destruct (Z.eqb_spec (size (typed s)) 0) as [E|N]; simpl.
    + split; [reflexivity|lia].
    + split; [reflexivity|]. unfold pop_back.
      rewrite size_removelast; [lia|].
      intros F. rewrite F in N. now apply N.
Qed.

Lemma space_key_bounded (now : Z) (s : State) :
  size (typed s) <= size (target s) ->
  target (space_key now s) = target s /\
  size (typed (space_key now s)) <= size (target (space_key now s)).
Proof.
  intros H. unfold space_key.
  destruct (Z.ltb_spec (size (typed s)) (size (target s))) as [L|L];
    [|now split].
  rewrite !target_start_timer, !typed_start_timer.
  destruct (Z.ltb_spec (size (typed s)) (size (target s))) as [_|F]; [|lia].
  destruct (negb (Ascii.eqb (at_ (target s) (size (typed s))) space)); simpl;
    rewrite !target_start_timer; (split; [reflexivity|]).
  - now apply fill_bounded.
  - rewrite size_app, size_cons, size_nil. lia.
Qed.

Lemma printable_key_bounded (now ch : Z) (s : State) :
  size (typed s) <= size (target s) ->
  target (printable_key now ch s) = target s /\
  size (typed (printable_key now ch s))
  <= size (target (printable_key now ch s)).
Proof.
  intros H. unfold printable_key.
  destruct (Z.ltb_spec (size (typed s)) (size (target s))) as [L|L];
    [|now split].
  simpl. rewrite !target_start_timer, !typed_start_timer.
  split; [reflexivity|]. rewrite size_app, size_cons, size_nil. lia.
Qed.

(** Every handler keeps what is typed within the target's length. *)
Lemma handle_key_bounded (now ch : Z) (s : State) :
  size (typed s) <= size (target s) ->
  size (typed (handle_key cfg rand now ch s))
  <= size (target (handle_key cfg rand now ch s)).
Proof.
  intros H. unfold handle_key.
  destruct ((ch =? KEY_BACKSPACE) || (ch =? 127) || (ch =? 8)).
  { destruct (backspace_bounded s) as [-> B]. lia. }
  destruct (ch =? 32); [now apply space_key_bounded|].
  destruct ((33 <=? ch) && (ch <=? 126)); [now apply printable_key_bounded|].
  destruct ((ch =? 10) || (ch =? 13)); [|exact H].
  simpl. apply size_nonneg.
Qed.

(** A key leaves the target as it is, or replaces it by a new one. *)
Lemma handle_key_target (now ch : Z) (s : State) :
  target (handle_key cfg rand now ch s) = target s \/
  target (handle_key cfg rand now ch s) = new_target cfg rand (rand_calls s).
Proof.
  unfold handle_key.
  destruct ((ch =? KEY_BACKSPACE) || (ch =? 127) || (ch =? 8)).
  { left. apply backspace_bounded. }
  destruct (ch =? 32).
  { left. unfold space_key.
    destruct (size (typed s) <? size (target s)); [|reflexivity].
    destruct (_ && _); simpl; apply target_start_timer. }
  destruct ((33 <=? ch) && (ch <=? 126)).
  { left. unfold printable_key.
    destruct (size (typed s) <? size (target s)); [|reflexivity].
    simpl; apply target_start_timer. }
  destruct ((ch =? 10) || (ch =? 13)); [now right|now left].
Qed.

(** What a generated target is made of. *)
Lemma new_target_facts (k : nat) :
  valid_config cfg ->
  size (new_target cfg rand k) < npos /\
  ~ In underscore (new_target cfg rand k) /\
  0 < size (new_target cfg rand k).
Proof.
  intros V. unfold valid_config in V. unfold new_target, generate.
  set (pl := pool (includePunctuation cfg) (includeNumbers cfg)).
  pose proof (pool_tokens_ok (includePunctuation cfg) (includeNumbers cfg))
    as Hok.
  pose proof (pool_not_empty (includePunctuation cfg) (includeNumbers cfg))
    as Hne.
  fold pl in Hok, Hne.
  rewrite generate_loop_join.
  pose proof (picks_length pl rand (Z.to_nat (cfg_wordCount cfg)) k) as Hlen.
  pose proof (picks_ok pl Hok Hne rand (Z.to_nat (cfg_wordCount cfg)) k)
    as Hall.
  set (tokens := picks pl rand (Z.to_nat (cfg_wordCount cfg)) k) in *.
  assert (Hinv : forall t, In t tokens ->
            t <> [] /\ (length t <= 12)%nat /\ ~ In space t
            /\ ~ In underscore t).
  { rewrite Forall_forall in Hall. intros t Ht. now apply token_ok_inv, Hall. }
  split; [|split].
  - assert (B : size (join tokens) <= 13 * Z.of_nat (length tokens)).
    { apply join_size. rewrite Forall_forall. intros t Ht.
      now apply Hinv. }
    rewrite Hlen in B. rewrite npos_val. lia.
  - intros F. apply join_chars in F as [F|(t & Ht & Hc)]; [discriminate F|].
    now apply (Hinv t Ht).
  - destruct tokens as [|t rest]; [simpl in Hlen; lia|].
    destruct (Hinv t (or_introl eq_refl)) as (Ht & _).
    simpl join. rewrite size_app.
    destruct t as [|c t]; [contradiction|].
    rewrite size_cons.
    pose proof (size_nonneg t).
    pose proof (size_nonneg (concat (map (cons space) rest))). lia.
Qed.

(** A state of the loop types against a generated target. *)
Lemma reachable_target (s : State) :
  reachable cfg rand s -> exists k, target s = new_target cfg rand k.
Proof.
  induction 1 as [k|s now ch _ [k IH] _ _].
  - now exists k.
  - destruct (handle_key_target now ch s) as [E|E]; rewrite E; eauto.
Qed.

End KeyFacts.

(** C8. What is typed is never longer than the target: in every state the
    loop reaches, and across every key handler (printable character, space
    with its skip fill, backspace, restart, any other key) from any state
    where it holds. *)
Theorem typed_within_target :
  forall (cfg : Config) (rand : nat -> nat),
    (forall s : State,
        reachable cfg rand s -> size (typed s) <= size (target s)) /\
    (forall (now ch : Z) (s : State),
        size (typed s) <= size (target s) ->
        size (typed (handle_key cfg rand now ch s))
        <= size (target (handle_key cfg rand now ch s))).
Proof.
  intros cfg rand. split.
  - induction 1 as [k|s now ch _ IH _ _].
    + simpl. apply size_nonneg.
    + now apply handle_key_bounded.
  - intros now ch s. apply handle_key_bounded.
Qed.

Section SkipFacts.

Lemma at_in (s : str) (x : Z) : 0 <= x < size s -> In (at_ s x) s.
Proof. unfold at_, size; intros H. apply nth_In. lia. Qed.

Lemma mark_space (c : ascii) : c = space -> mark c = space.
Proof. intros ->. reflexivity. Qed.

Lemma mark_other (c : ascii) : c <> space -> mark c = underscore.
Proof.
  intros H. unfold mark. now destruct (Ascii.eqb_spec c space).
Qed.

(** The text the fill appended, read position by position. *)
Lemma at_marked (typed target : str) (n : nat) (x : Z) :
  size typed <= x < size typed + Z.of_nat n ->
  x < size target ->
  at_ (typed ++ map mark (firstn n (skipn (Z.to_nat (size typed)) target))) x
  = mark (at_ target x).
Proof.
  intros Hx Ht. rewrite at_app_right by lia. unfold at_.
  set (seg := firstn n (skipn (Z.to_nat (size typed)) target)).
  assert (L : (Z.to_nat (x - size typed) < length seg)%nat).
  { unfold seg. rewrite length_firstn, length_skipn. unfold size in *. lia. }
  rewrite (nth_indep _ zero (mark zero)) by now rewrite length_map.
  rewrite map_nth. f_equal. unfold seg.
  rewrite nth_firstn.
  destruct (Nat.ltb_spec (Z.to_nat (x - size typed)) n) as [_|F]; [|lia].
  rewrite nth_skipn. f_equal. unfold size in *. lia.
Qed.

(** The position computed by the space handler is where the next word
    starts. *)
Lemma next_word_pos_spec (target : str) (from : Z) :
  size target < npos -> 0 <= from < size target ->
  at_ target from <> space ->
  from < next_word_pos target from <= size target /\
  next_word_start target from (next_word_pos target from).
Proof.
  intros Hfit Hfrom Hmid. unfold next_word_pos.
  destruct (find_inv target space from) as [E|(B & A & Bef & _)]; [lia| |].
  - rewrite E, Z.eqb_refl. simpl. split; [lia|].
    exists (size target). repeat split; try lia.
    intros x Hx. apply (find_npos target space from); auto; lia.
  - destruct (Z.eqb_spec (find target space from) npos) as [E|_]; [lia|].
    simpl. set (sp := find target space from) in *.
    assert (Hsp : from < sp).
    { destruct (Z.eq_dec sp from) as [E|N]; [|lia].
      rewrite E in A. contradiction. }
    destruct (skip_spaces_spec target (length target) sp) as (Bq & Aq & Dq);
      [lia|unfold size; lia|].
    split; [lia|]. exists sp. repeat split; try lia; auto.
    destruct Dq as [Dq|Dq]; [now left|right]. split; [|exact Dq].
    destruct (Z.eq_dec (skip_spaces (length target) target sp) sp) as [E|N];
      [|lia].
    rewrite E in Dq. contradiction.
Qed.

(** The space handler in the middle of a word. *)
Lemma space_key_skip (now : Z) (s : State) :
  size (target s) < npos ->
  size (typed s) < size (target s) ->
  at_ (target s) (size (typed s)) <> space ->
  let s' := space_key now s in
  let next := next_word_pos (target s) (size (typed s)) in
  target s' = target s /\
  jumped_from_pos s' = size (typed s) /\ has_jumped s' = true /\
  size (typed s') = next /\
  typed s'
  = typed s ++ map mark (firstn (Z.to_nat (next - size (typed s)))
                           (skipn (Z.to_nat (size (typed s))) (target s))).
Proof.
  intros Hfit Hlt Hmid s' next.
  pose proof (size_nonneg (typed s)) as H0.
  destruct (next_word_pos_spec (target s) (size (typed s)) Hfit
              (conj H0 Hlt) Hmid) as (Bn & _).
  fold next in Bn.
  assert (F : fill (length (target s)) (target s) (typed s) next
              = typed s ++ map mark
                  (firstn (Z.to_nat (next - size (typed s)))
                     (skipn (Z.to_nat (size (typed s))) (target s))))
    by (apply fill_spec; unfold size in *; lia).
  unfold s', space_key.
  destruct (Z.ltb_spec (size (typed s)) (size (target s))) as [_|L]; [|lia].
  rewrite !target_start_timer, !typed_start_timer.
  destruct (Z.ltb_spec (size (typed s)) (size (target s))) as [_|L]; [|lia].
  destruct (Ascii.eqb_spec (at_ (target s) (size (typed s))) space)
    as [E|_]; [contradiction|].
  simpl. rewrite target_start_timer. fold next. rewrite F.
  repeat split; auto.
  rewrite size_app. unfold size at 2.
  rewrite length_map, length_firstn, length_skipn. unfold size in *. lia.
Qed.

End SkipFacts.

(** C3. In a state of the loop where the next target character is not a
    space, the space key records the old length of [typed] as the jump
    anchor and lengthens [typed], keeping what was typed, up to the first
    character of the next word (the end of the target when no word
    follows); every position it fills holds a space where the target has
    one, and otherwise an underscore, which differs from the target's
    character there. *)
Theorem space_skips_to_next_word :
  forall (cfg : Config) (rand : nat -> nat) (s : State) (now : Z),
    valid_config cfg -> reachable cfg rand s ->
    size (typed s) < size (target s) ->
    at_ (target s) (size (typed s)) <> space ->
    let s' := handle_key cfg rand now 32 s in
    target s' = target s /\
    jumped_from_pos s' = size (typed s) /\ has_jumped s' = true /\
    next_word_start (target s) (size (typed s)) (size (typed s')) /\
    firstn (length (typed s)) (typed s') = typed s /\
    (forall x : Z,
        size (typed s) <= x < size (typed s') ->
        (at_ (target s) x = space -> at_ (typed s') x = space) /\
        (at_ (typed s') x <> space ->
         at_ (typed s') x = underscore /\ at_ (typed s') x <> at_ (target s) x)).
Proof.
  intros cfg rand s now V R Hlt Hmid s'.
  destruct (reachable_target cfg rand s R) as (k & Ek).
  destruct (new_target_facts cfg rand k V) as (Hfit & Hclean & _).
  rewrite <- Ek in Hfit, Hclean.
  pose proof (size_nonneg (typed s)) as H0.
  destruct (next_word_pos_spec (target s) (size (typed s)) Hfit
              (conj H0 Hlt) Hmid) as (Bn & Hnext).
  destruct (space_key_skip now s Hfit Hlt Hmid) as (Et & Ej & Eh & Es & Ety).
  change (handle_key cfg rand now 32 s) with (space_key now s) in s'.
  fold s' in Et, Ej, Eh, Es, Ety.
  split; [exact Et|]. split; [exact Ej|]. split; [exact Eh|].
  split; [now rewrite Es|]. split.
  - rewrite Ety, firstn_app, firstn_all, Nat.sub_diag. simpl.
    apply app_nil_r.
  - intros x Hx. rewrite Es in Hx.
    assert (M : at_ (typed s') x = mark (at_ (target s) x))
      by (rewrite Ety; apply at_marked; lia).
    split.
    + intros E. rewrite M. now apply mark_space.
    + intros Hns.
      assert (N : at_ (target s) x <> space)
        by (intros E; apply Hns; rewrite M; now apply mark_space).
      rewrite M, (mark_other _ N). split; [reflexivity|].
      intros E. apply Hclean. rewrite E. apply at_in. lia.
Qed.

Lemma space_skips_to_next_word_witness :
  let cfg := mkConfig 5 true true in
  let rand := fun k : nat => (k * 37 + 11)%nat in
  let s := handle_key cfg rand 100 101 (handle_key cfg rand 100 116
                                          (start cfg rand 0)) in
  let s' := handle_key cfg rand 101 32 s in
  target s = lit "test down phone improvement yes," /\
  typed s = lit "te" /\ typed s' = lit "te__ " /\
  jumped_from_pos s' = 2 /\ has_jumped s' = true /\
  next_word_start (target s) 2 5.
Proof.
  intros cfg rand s s'.
  assert (V : valid_config cfg) by (unfold valid_config; simpl; lia).
  assert (R : reachable cfg rand s).
  { apply reach_key; [apply reach_key; [apply reach_start| |]| |];
      try (vm_compute; reflexivity); discriminate. }
  assert (L : size (typed s) < size (target s)) by (vm_compute; reflexivity).
  assert (M : at_ (target s) (size (typed s)) <> space)
    by (vm_compute; discriminate).
  destruct (space_skips_to_next_word cfg rand s 101 V R L M)
    as (_ & J & H & N & _).
  repeat split; try (vm_compute; reflexivity); assumption.
Defined.

(** C4. Backspace, in any state: with an active jump whose anchor lies
    before the end of [typed], [typed] is cut back to exactly the anchor's
    length and the jump is cleared; with no active jump and a non-empty
    [typed], exactly the last character is removed. After a skip from a
    state of the loop, one backspace gives back the text typed before the
    skip. *)
Theorem backspace_undoes_skip :
  forall (cfg : Config) (rand : nat -> nat) (s : State) (now ch : Z),
    ch = KEY_BACKSPACE \/ ch = 127 \/ ch = 8 ->
    let s' := handle_key cfg rand now ch s in
    (has_jumped s = true -> 0 <= jumped_from_pos s < size (typed s) ->
     typed s' = firstn (Z.to_nat (jumped_from_pos s)) (typed s) /\
     size (typed s') = jumped_from_pos s /\
     has_jumped s' = false /\ jumped_from_pos s' = npos) /\
    (has_jumped s = false -> typed s <> [] ->
     typed s' = removelast (typed s) /\
     size (typed s') = size (typed s) - 1 /\
     typed s = typed s' ++ [last (typed s) zero] /\
     has_jumped s' = false /\ jumped_from_pos s' = npos) /\
    (forall now0 : Z,
        valid_config cfg -> reachable cfg rand s ->
        size (typed s) < size (target s) ->
        at_ (target s) (size (typed s)) <> space ->
        typed (handle_key cfg rand now ch (handle_key cfg rand now0 32 s))
        = typed s).
Proof.
  intros cfg rand s now ch Hch s'.
  assert (K : forall t, handle_key cfg rand now ch t = backspace t).
  { intros t. unfold handle_key.
    destruct Hch as [-> | [-> | ->]]; reflexivity. }
  unfold s'. rewrite K. split; [|split].
  - intros Hj Hp. unfold backspace. rewrite Hj.
    destruct (Z.ltb_spec (jumped_from_pos s) (size (typed s))) as [_|F];
      [|lia].
    simpl. unfold substr_chars. simpl skipn.
    rewrite Z.sub_0_r, Z.min_l by lia.
    repeat split. unfold size in *. rewrite length_firstn. lia.
  - intros Hj Hne. unfold backspace. rewrite Hj. simpl.
    destruct (Z.eqb_spec (size (typed s)) 0) as [E|_].
    + destruct (typed s); [contradiction|]. rewrite size_cons in E.
      pose proof (size_nonneg s0). lia.
    + simpl. unfold pop_back. repeat split.
      * now apply size_removelast.
      * now apply app_removelast_last.
  - intros now0 V R Hlt Hmid. rewrite K.
    destruct (reachable_target cfg rand s R) as (k & Ek).
    destruct (new_target_facts cfg rand k V) as (Hfit & _).
    rewrite <- Ek in Hfit.
    pose proof (size_nonneg (typed s)) as H0.
    destruct (next_word_pos_spec (target s) (size (typed s)) Hfit
                (conj H0 Hlt) Hmid) as (Bn & _).
    destruct (space_key_skip now0 s Hfit Hlt Hmid) as (_ & Ej & Eh & Es & Ety).
    change (handle_key cfg rand now0 32 s) with (space_key now0 s).
    unfold backspace. rewrite Eh, Ej, Es.
    destruct (Z.ltb_spec (size (typed s))
                (next_word_pos (target s) (size (typed s)))) as [_|F]; [|lia].
    simpl. unfold substr_chars. simpl skipn.
    rewrite Es, Z.sub_0_r, Z.min_l by lia.
    rewrite Ety. unfold size. rewrite Nat2Z.id.
    rewrite firstn_app, firstn_all, Nat.sub_diag. simpl. apply app_nil_r.
Qed.

Lemma backspace_undoes_skip_witness :
  let cfg := mkConfig 5 true true in
  let rand := fun k : nat => (k * 37 + 11)%nat in
  let s := handle_key cfg rand 100 101 (handle_key cfg rand 100 116
                                          (start cfg rand 0)) in
  let skipped := handle_key cfg rand 101 32 s in
  typed skipped = lit "te__ " /\ jumped_from_pos skipped = 2 /\
  typed (handle_key cfg rand 102 127 skipped) = lit "te" /\
  has_jumped (handle_key cfg rand 102 127 skipped) = false /\
  typed (handle_key cfg rand 103 127 (handle_key cfg rand 102 127 skipped))
  = lit "t".
Proof.
  intros cfg rand s skipped.
  destruct (backspace_undoes_skip cfg rand skipped 102 127
              (or_intror (or_introl eq_refl))) as (A & _ & _).
  destruct A as (T & _ & H & _);
    [vm_compute; reflexivity|change (0 <= 2 < 5); lia|].
  split; [vm_compute; reflexivity|]. split; [vm_compute; reflexivity|].
  split; [rewrite T; vm_compute; reflexivity|].
  split; [exact H|vm_compute; reflexivity].
Defined.

(** ** The score *)

(** The live display shows no statistics while the elapsed time is zero. *)
Lemma live_stats_guard (s : State) (now : Z) :
  now = start_time s -> live_stats s now = None.
Proof.
  intros ->. unfold live_stats, difftime. rewrite Z.sub_diag.
  now destruct (started s && (0 <? size (typed s))).
Qed.

(** The completion branch has no such guard: with a zero elapsed time the
    rate is a quotient by [0.0 / 60.0], which is zero. *)
Lemma final_stats_zero_elapsed (s : State) (now : Z) :
  now = start_time s ->
  final_stats s now
  = score (count_correct (typed s) (target s)) (size (typed s))
      (S754_zero false) /\
  ddiv (S754_zero false) (of_Z 60) = S754_zero false.
Proof.
  intros ->. unfold final_stats, difftime. rewrite Z.sub_diag.
  split; reflexivity.
Qed.

(** C1 fails on the code for the final score: a one-word numeric target
    "7" typed within the second of its first key. The live display is
    guarded and shows nothing; the completion branch divides by the zero
    elapsed time all the same, and the score written to the leaderboard file
    has the WPM "inf". *)
Theorem final_score_divides_by_zero :
  let cfg := mkConfig 1 false true in
  let rand := fun _ : nat => 7%nat in
  let s := handle_key cfg rand 100 55 (start cfg rand 0) in
  target s = lit "7" /\ typed s = lit "7" /\
  started s = true /\ start_time s = 100 /\ complete s = true /\
  live_stats s 100 = None /\
  stat_elapsed (final_stats s 100) = S754_zero false /\
  stat_wpm (final_stats s 100) = S754_infinity false /\
  snd (finish_session cfg (lit "BOB") (lit "01/02/2025 10:00") [] s 100)
  = lit "BOB|inf|100|0|01/02/2025 10:00|1|0|1" ++ [newline].
Proof. cbv zeta. repeat split; vm_compute; reflexivity. Qed.

(** ** Worked examples *)

Section Scenarios.

Let cfg : Config := mkConfig 2 false false.
Let rand : nat -> nat := fun _ => 0%nat.

Let typing (typed : str) : State :=
  mkState (lit "cat dog") typed 100 true npos false 2.

(** Space at a word boundary is an ordinary space: no jump is recorded. *)
Example space_at_word_boundary :
  let s := handle_key cfg rand 101 32 (typing (lit "cat")) in
  typed s = lit "cat " /\ has_jumped s = false /\ jumped_from_pos s = npos.
Proof. repeat split; vm_compute; reflexivity. Qed.

(** Space inside a word skips it; one backspace undoes the skip. *)
Example space_inside_word :
  let s := handle_key cfg rand 101 32 (typing (lit "ca")) in
  typed s = lit "ca_ " /\ has_jumped s = true /\ jumped_from_pos s = 2 /\
  typed (handle_key cfg rand 102 KEY_BACKSPACE s) = lit "ca".
Proof. repeat split; vm_compute; reflexivity. Qed.

(** The live statistics once a second has passed: 3 correct characters in
    one second are 36 words per minute at full accuracy. *)
Example live_stats_after_a_second :
  live_stats (typing (lit "cat")) 101
  = Some (mkStats (of_Z 36) (of_Z 100) (of_Z 1)).
Proof. vm_compute; reflexivity. Qed.

(** Below half accuracy the rate is scaled down: one correct character out
    of three in one second is 12 raw, times (100/3)/50. *)
Example live_stats_penalty :
  live_stats (typing (lit "cxx")) 101
  = Some (mkStats (dmul (of_Z 12) (ddiv (ddiv (of_Z 100) (of_Z 3)) (of_Z 50)))
                  (ddiv (of_Z 100) (of_Z 3)) (of_Z 1)).
Proof. vm_compute; reflexivity. Qed.

(** The legacy shapes, as the loader reads them. With four or five
    separators the search for the next separator starts again at the
    beginning of the line ([npos + 1] is 0), [pos7] is found, and the
    newest-format branch converts the name as a flag or word count: the
    conversion fails and the date falls back to "Unknown" with the other
    defaults. *)
Example legacy_shapes :
  loadLeaderboard (Some (lit "bob|50.5|90|12"))
  = Ok [mkScore (lit "BOB") (ratio false 505 10) (of_Z 90) (of_Z 12)
                (lit "Unknown") 15 false false] /\
  loadLeaderboard (Some (lit "bob|50.5|90|12|01/02/2024 10:00"))
  = Ok [mkScore (lit "BOB") (ratio false 505 10) (of_Z 90) (of_Z 12)
                (lit "Unknown") 15 false false] /\
  loadLeaderboard (Some (lit "bob|50.5|90|12|01/02/2024 10:00|25"))
  = Ok [mkScore (lit "BOB") (ratio false 505 10) (of_Z 90) (of_Z 12)
                (lit "Unknown") 15 false false] /\
  loadLeaderboard (Some (lit "bob|50.5|90|12|01/02/2024 10:00|25|1|0"))
  = Ok [mkScore (lit "BOB") (ratio false 505 10) (of_Z 90) (of_Z 12)
                (lit "01/02/2024 10:00") 25 true false] /\
  loadLeaderboard None = Ok [].
Proof. repeat split; vm_compute; reflexivity. Qed.

End Scenarios.

(** * The names of the players *)

Section PlayerFacts.

Import Keys Players Words.

Lemma str_eqb_eq (a b : str) : str_eqb a b = true <-> a = b.
Proof.
  revert b; induction a as [|x a IH]; intros [|y b]; simpl;
    split; try congruence; try discriminate.
  - intros H. apply andb_true_iff in H as [H1 H2].
    apply Ascii.eqb_eq in H1. apply IH in H2. congruence.
  - intros H. injection H as -> ->. rewrite Ascii.eqb_refl. simpl.
    apply IH. reflexivity.
Qed.

Lemma str_eqb_refl (a : str) : str_eqb a a = true.
Proof. apply str_eqb_eq. reflexivity. Qed.

Lemma found_In (l : list str) (n : str) : found l n = true <-> In n l.
Proof.
  induction l as [|u l IH]; simpl.
  - split; [discriminate | tauto].
  - destruct (str_eqb u n) eqn:E.
    + apply str_eqb_eq in E. split; auto.
    + rewrite IH. split; auto. intros [H | H]; auto.
      subst. rewrite str_eqb_refl in E. discriminate.
Qed.

Lemma found_app (l1 l2 : list str) (n : str) :
  found (l1 ++ l2) n = found l1 n || found l2 n.
Proof.
  induction l1 as [|u l1 IH]; simpl; auto.
  destruct (str_eqb u n); auto.
Qed.

Lemma unique_from_facts (lb : list PlayerScore) (acc : list str) :
  NoDup acc ->
  let r :=
    fold_left
      (fun uniqueNames s =>
         if found uniqueNames (name s) then uniqueNames
         else uniqueNames ++ [name s])
      lb acc in
  NoDup r /\ forall n, In n r <-> In n acc \/ In n (map name lb).
Proof.
  revert acc; induction lb as [|s lb IH]; intros acc Hacc; simpl.
  - split; auto. intros n. tauto.
  - destruct (found acc (name s)) eqn:E.
    + destruct (IH acc Hacc) as [N M]. split; auto.
      intros n. rewrite M. apply found_In in E.
      split; [tauto |]. intros [H | [H | H]]; auto. subst. auto.
    + assert (Hacc' : NoDup (acc ++ [name s])).
      { apply NoDup_app; auto.
        - constructor; [simpl; tauto | constructor].
        - intros x Hx [Hy | []]. subst.
          apply found_In in Hx. congruence. }
      destruct (IH _ Hacc') as [N M]. split; auto.
      intros n. rewrite M, in_app_iff. simpl. tauto.
Qed.

Lemma unique_names_in (leaderboard : list PlayerScore) (n : str) :
  In n (getUniquePlayerNames leaderboard) <-> In n (map name leaderboard).
Proof.
  destruct (unique_from_facts leaderboard [] (NoDup_nil _)) as [_ M].
  unfold getUniquePlayerNames. rewrite M. simpl. tauto.
Qed.

(** X1. [getUniquePlayerNames] lists every name of the leaderboard, and
    each of them once. *)
Theorem unique_names_distinct (leaderboard : list PlayerScore) :
  NoDup (getUniquePlayerNames leaderboard) /\
  forall n, In n (getUniquePlayerNames leaderboard) <->
            In n (map name leaderboard).
Proof.
  split; [| apply unique_names_in].
  apply (unique_from_facts leaderboard [] (NoDup_nil _)).
Qed.

Lemma filter_filter {A : Type} (p q : A -> bool) (l : list A) :
  filter p (filter q l) = filter (fun x => q x && p x) l.
Proof.
  induction l as [|x l IH]; simpl; auto.
  destruct (q x); simpl; [destruct (p x) |]; rewrite IH; auto.
Qed.

Lemma unique_from_split (lb : list PlayerScore) :
  forall acc : list str,
    fold_left
      (fun uniqueNames s =>
         if found uniqueNames (name s) then uniqueNames
         else uniqueNames ++ [name s])
      lb acc
    = acc ++ filter (fun n => negb (found acc n)) (getUniquePlayerNames lb).
Proof.
  unfold getUniquePlayerNames.
  induction lb as [|s lb IH]; intros acc; simpl.
  - rewrite app_nil_r. reflexivity.
  - rewrite (IH [name s]). simpl.
    destruct (found acc (name s)) eqn:E.
    + simpl. rewrite IH. f_equal.
      rewrite filter_filter. apply filter_ext. intros n.
      destruct (str_eqb (name s) n) eqn:F; simpl; auto.
      apply str_eqb_eq in F. subst. rewrite E. reflexivity.
    + simpl. rewrite IH, <- app_assoc. simpl.
      do 2 f_equal. rewrite filter_filter. apply filter_ext. intros n.
      rewrite found_app. simpl.
      destruct (str_eqb (name s) n), (found acc n); reflexivity.
Qed.

(** X2. [getUniquePlayerNames] keeps the names in the order in which they
    first occur: the names of a leaderboard in two parts are those of the
    first part, followed by those of the second part that the first does
    not hold. *)
Theorem unique_names_first_seen (l1 l2 : list PlayerScore) :
  getUniquePlayerNames (l1 ++ l2)
  = getUniquePlayerNames l1
    ++ filter (fun n => negb (found (getUniquePlayerNames l1) n))
         (getUniquePlayerNames l2).
Proof.
  unfold getUniquePlayerNames at 1. rewrite fold_left_app.
  apply unique_from_split.
Qed.

Lemma code_chr (z : Z) : 0 <= z < 256 -> code (chr z) = z.
Proof.
  intros H. unfold code, chr. rewrite nat_ascii_embedding; lia.
Qed.

Lemma chr_code (c : ascii) : chr (code c) = c.
Proof.
  unfold code, chr. rewrite Nat2Z.id. apply ascii_nat_embedding.
Qed.

Lemma toupper_typed (c : ascii) :
  typed_char c = true ->
  name_char (toupper c) = true /\ toupper (toupper c) = toupper c.
Proof.
  unfold typed_char, name_char, toupper. intros H.
  destruct ((97 <=? code c) && (code c <=? 122)) eqn:E.
  - assert (K : code (chr (code c - 32)) = code c - 32)
      by (apply code_chr; lia).
    rewrite K.
    assert (L : (97 <=? code c - 32) && (code c - 32 <=? 122) = false)
      by lia.
    rewrite L. split; [lia | reflexivity].
  - rewrite E. split; [lia | reflexivity].
Qed.

Lemma toUpperCase_typed (name : str) :
  forallb typed_char name = true ->
  forallb name_char (toUpperCase name) = true /\
  toUpperCase (toUpperCase name) = toUpperCase name.
Proof.
  induction name as [|c name IH]; simpl; auto.
  intros H. apply andb_true_iff in H as [H1 H2].
  destruct (toupper_typed c H1) as [A B], (IH H2) as [C D].
  rewrite A, C, B. split; [reflexivity |]. f_equal. exact D.
Qed.

Lemma forallb_removelast {A : Type} (p : A -> bool) (l : list A) :
  forallb p l = true -> forallb p (removelast l) = true.
Proof.
  induction l as [|x l IH]; simpl; auto.
  intros H. apply andb_true_iff in H as [H1 H2].
  destruct l; simpl in *; auto. rewrite H1. simpl. auto.
Qed.

Lemma new_name_loop_shape (keys : list Z) :
  forall (name r : str) (rest : list Z),
    size name <= 20 -> forallb typed_char name = true ->
    new_name_loop name keys = Some (r, rest) ->
    r = lit "CANCEL" \/ entered_name r.
Proof.
  induction keys as [|ch keys IH]; intros name r rest Hn Hc; simpl;
    [discriminate |].
  destruct (is_enter ch && negb (size name =? 0)) eqn:E1.
  { intros H. injection H as <- <-. right.
    destruct (toUpperCase_typed name Hc) as [A B].
    unfold entered_name. repeat split; auto.
    - destruct name; [| discriminate].
      rewrite andb_true_iff in E1. destruct E1 as [_ E1].
      discriminate.
    - unfold toUpperCase, size in *. rewrite length_map. exact Hn. }
  destruct (is_quit ch) eqn:E2.
  { intros H. injection H as <- <-. left. reflexivity. }
  destruct (is_backspace ch) eqn:E3.
  { apply IH.
    - destruct (negb (size name =? 0)) eqn:E; auto.
      assert (K : name <> []) by (intros ->; discriminate).
      pose proof (size_removelast name K). unfold pop_back. lia.
    - destruct (negb (size name =? 0)); auto.
      apply forallb_removelast. exact Hc. }
  destruct ((32 <=? ch) && (ch <=? 126) && (size name <? 20)) eqn:E4.
  { apply IH.
    - rewrite size_app, size_cons, size_nil. lia.
    - rewrite forallb_app, Hc. simpl. rewrite andb_true_r.
      unfold typed_char. rewrite code_chr by lia.
      unfold is_quit, is_letter in E2. lia. }
  apply IH; auto.
Qed.

(** X3. [getNewPlayerName] returns either "CANCEL" or a name that is not
    empty, has at most twenty characters, all printable, none a lower-case
    letter and none a 'Q', and that [toUpperCase] leaves as it is. *)
Theorem new_name_shape (keys rest : list Z) (r : str) :
  getNewPlayerName keys = Some (r, rest) ->
  r = lit "CANCEL" \/ entered_name r.
Proof.
  apply new_name_loop_shape; [unfold size; simpl; lia | reflexivity].
Qed.

Lemma new_name_shape_witness :
  getNewPlayerName (keys_of (lit "worm") ++ [10; 99]) = Some (lit "WORM", [99])
  /\ (lit "WORM" = lit "CANCEL" \/ entered_name (lit "WORM")).
Proof.
  split; [reflexivity |].
  apply (new_name_shape (keys_of (lit "worm") ++ [10; 99]) [99]).
  reflexivity.
Defined.

Lemma selection_loop_shape (names : list str) (keys : list Z) :
  forall (choice : Z) (r : str) (rest : list Z),
    0 <= choice <= Z.of_nat (length names) ->
    selection_loop names choice keys = Some (r, rest) ->
    r = lit "WORM_CLOSET" \/ r = lit "CANCEL" \/ r = [] \/ In r names.
Proof.
  induction keys as [|ch keys IH]; intros choice r rest Hc; simpl;
    [discriminate |].
  destruct (is_letter 119 87 ch).
  { intros H. injection H as <- <-. auto. }
  destruct ((ch =? KEY_UP) && (0 <? choice)) eqn:E1.
  { apply IH. lia. }
  destruct (is_down ch && (choice <? Z.of_nat (length names))) eqn:E2.
  { apply IH. lia. }
  destruct (is_enter ch).
  { destruct (choice <? Z.of_nat (length names)) eqn:E3.
    - intros H. injection H as <- <-. do 3 right.
      apply nth_In. lia.
    - destruct (choice =? Z.of_nat (length names)).
      + intros H. injection H as <- <-. auto.
      + apply IH. lia. }
  destruct (is_quit ch).
  { intros H. injection H as <- <-. auto. }
  apply IH. lia.
Qed.

(** X4. [getPlayerName] returns "CANCEL", "WORM_CLOSET", a name of the
    leaderboard, or a name entered at the prompt. *)
Theorem player_name_shape (leaderboard : list PlayerScore)
  (keys rest : list Z) (r : str) :
  getPlayerName leaderboard keys = Some (r, rest) ->
  r = lit "CANCEL" \/ r = lit "WORM_CLOSET" \/
  In r (map name leaderboard) \/ entered_name r.
Proof.
  unfold getPlayerName.
  destruct (getUniquePlayerNames leaderboard) as [|u us] eqn:U.
  - intros H. apply new_name_loop_shape in H;
      [tauto | unfold size; simpl; lia | reflexivity].
  - rewrite <- U.
    destruct (showNameSelectionMenu (getUniquePlayerNames leaderboard) keys)
      as [[sel rest0]|] eqn:S; [| discriminate].
    apply selection_loop_shape in S; [| lia].
    destruct (str_eqb sel (lit "CANCEL")) eqn:E1.
    { intros H. injection H as <- <-. auto. }
    destruct (str_eqb sel []) eqn:E2.
    { intros H. apply new_name_loop_shape in H;
        [tauto | unfold size; simpl; lia | reflexivity]. }
    intros H. injection H as <- <-.
    destruct S as [S | [S | [S | S]]]; auto.
    + apply str_eqb_eq in S. congruence.
    + apply unique_names_in in S. auto.
Qed.

Lemma player_name_shape_witness :
  getPlayerName [sample_score 10] [10] = Some (lit "ANN", [])
  /\ (lit "ANN" = lit "CANCEL" \/ lit "ANN" = lit "WORM_CLOSET" \/
      In (lit "ANN") (map name [sample_score 10]) \/
      entered_name (lit "ANN")).
Proof.
  split; [reflexivity |].
  apply (player_name_shape [sample_score 10] [10] []).
  reflexivity.
Defined.

End PlayerFacts.

(** * The menus before a test *)

Section MenuFacts.

Import Keys Menus Words.

Lemma custom_loop_range (keys : list Z) :
  forall (input : str) (r : Z) (rest : list Z),
    custom_loop input keys = Some (r, rest) ->
    (r = -1 \/ 1 <= r <= 1000) /\ (length rest < length keys)%nat.
Proof.
  induction keys as [|ch keys IH]; intros input r rest; simpl;
    [discriminate |].
  assert (Step : forall i, custom_loop i keys = Some (r, rest) ->
                 (r = -1 \/ 1 <= r <= 1000) /\ (length rest < S (length keys))%nat).
  { intros i H. destruct (IH i r rest H). split; [assumption | lia]. }
  destruct (is_enter ch && negb (size input =? 0)).
  { destruct (stoi input) as [wc | e]; [| apply Step].
    destruct ((1 <=? wc) && (wc <=? 1000)) eqn:E; [| apply Step].
    intros H. injection H as <- <-. split; lia. }
  destruct (is_quit ch).
  { intros H. injection H as <- <-. split; [auto | lia]. }
  destruct (is_backspace ch); [apply Step |].
  destruct ((48 <=? ch) && (ch <=? 57) && (size input <? 4)); apply Step.
Qed.

Lemma word_count_loop_range (fuel : nat) :
  forall (choice : Z) (keys : list Z) (r : Z) (rest : list Z),
    0 <= choice <= 4 ->
    word_count_loop fuel choice keys = Some (r, rest) ->
    r = -1 \/ 1 <= r <= 1000.
Proof.
  induction fuel as [|f IH]; intros choice keys r rest Hc;
    [discriminate |].
  destruct keys as [|ch keys]; [discriminate |].
  cbn [word_count_loop].
  destruct (is_up ch && (0 <? choice)) eqn:E1; [apply IH; lia |].
  destruct (is_down ch && (choice <? Z.of_nat (length wordCounts))) eqn:E2.
  { apply IH. simpl in E2. lia. }
  destruct (is_enter ch).
  { destruct (choice <? Z.of_nat (length wordCounts)) eqn:E3.
    - intros H. injection H as <- <-. simpl in E3.
      assert (K : choice = 0 \/ choice = 1 \/ choice = 2 \/ choice = 3)
        by lia.
      destruct K as [-> | [-> | [-> | ->]]]; simpl; lia.
    - destruct (getCustomWordCount keys) as [[cw rest']|] eqn:G;
        [| discriminate].
      apply custom_loop_range in G. destruct G as [G _].
      destruct (0 <? cw) eqn:E4.
      { intros H. injection H as <- <-. lia. }
      destruct (cw =? -1).
      { intros H. injection H as <- <-. auto. }
      apply IH. exact Hc. }
  destruct (is_quit ch).
  { intros H. injection H as <- <-. auto. }
  apply IH. exact Hc.
Qed.

(** As many iterations as there are keys is all the loop of the word
    count menu can run: more fuel changes nothing. *)
Lemma word_count_loop_fuel (f1 : nat) :
  forall (f2 : nat) (choice : Z) (keys : list Z),
    (length keys <= f1)%nat -> (length keys <= f2)%nat ->
    word_count_loop f1 choice keys = word_count_loop f2 choice keys.
Proof.
  induction f1 as [|f1 IH]; intros f2 choice keys H1 H2.
  - destruct keys; [| simpl in H1; lia]. destruct f2; reflexivity.
  - destruct keys as [|ch keys]; [destruct f2; reflexivity |].
    destruct f2 as [|f2]; [simpl in H2; lia |].
    simpl in H1, H2. cbn [word_count_loop].
    destruct (is_up ch && (0 <? choice)); [apply IH; lia |].
    destruct (is_down ch && (choice <? Z.of_nat (length wordCounts)));
      [apply IH; lia |].
    destruct (is_enter ch).
    { destruct (choice <? Z.of_nat (length wordCounts)); [reflexivity |].
      destruct (getCustomWordCount keys) as [[cw rest']|] eqn:G;
        [| reflexivity].
      apply custom_loop_range in G. destruct G as [_ G].
      destruct (0 <? cw); [reflexivity |].
      destruct (cw =? -1); [reflexivity |].
      apply IH; lia. }
    destruct (is_quit ch); [reflexivity |].
    apply IH; lia.
Qed.

(** X5. [showWordCountMenu] returns -1 or a word count from 1 to 1000,
    whether one of the four listed counts is chosen or a custom count is
    entered. *)
Theorem word_count_menu_range (keys rest : list Z) (r : Z) :
  showWordCountMenu keys = Some (r, rest) ->
  r = -1 \/ 1 <= r <= 1000.
Proof. apply word_count_loop_range. lia. Qed.

Lemma word_count_menu_range_witness :
  showWordCountMenu [258; 258; 10; 32] = Some (25, [32])
  /\ (25 = -1 \/ 1 <= 25 <= 1000).
Proof.
  split; [reflexivity |].
  apply (word_count_menu_range [258; 258; 10; 32] [32]). reflexivity.
Defined.

(** X6. Every configuration the menus hand to the typing test is a valid
    one: its word count is between 1 and 1000. *)
Theorem chosen_config_valid (keys rest : list Z) (cfg : Config) :
  choose_config keys = Some (Some cfg, rest) -> valid_config cfg.
Proof.
  unfold choose_config.
  destruct (showWordCountMenu keys) as [[wc rest0]|] eqn:W; [| discriminate].
  apply word_count_loop_range in W; [| lia].
  destruct (wc =? -1) eqn:E; [discriminate |].
  destruct (showTextOptionsMenu rest0) as [[[p n] rest1]|]; [| discriminate].
  intros H. injection H as <- <-. unfold valid_config. simpl. lia.
Qed.

Lemma chosen_config_valid_witness :
  choose_config [10; 32; 10] = Some (Some (mkConfig 5 true false), [])
  /\ valid_config (mkConfig 5 true false).
Proof.
  split; [reflexivity |].
  apply (chosen_config_valid [10; 32; 10] []). reflexivity.
Defined.

Lemma count_text (n : Z) :
  1 <= n <= 1000 ->
  1 <= size (show_int n) <= 4 /\ forallb digit (show_int n) = true.
Proof.
  intros Hn.
  assert (A : forallb
                (fun k => let t := show_int (Z.of_nat k) in
                          (1 <=? size t) && (size t <=? 4)
                          && forallb digit t)
                (seq 1 1000) = true) by (vm_compute; reflexivity).
  rewrite forallb_forall in A.
  specialize (A (Z.to_nat n)). rewrite Z2Nat.id in A by lia.
  cbv zeta in A.
  assert (I : In (Z.to_nat n) (seq 1 1000)) by (apply in_seq; lia).
  apply A in I. apply andb_true_iff in I as [I1 I2].
  split; [lia | exact I2].
Qed.

Lemma custom_loop_digits (digits : str) :
  forall (input : str) (ks : list Z),
    forallb digit digits = true -> size input + size digits <= 4 ->
    custom_loop input (keys_of digits ++ ks) = custom_loop (input ++ digits) ks.
Proof.
  induction digits as [|c digits IH]; intros input ks Hd Hs.
  - rewrite app_nil_r. reflexivity.
  - simpl in Hd. apply andb_true_iff in Hd as [Hc Hd].
    unfold digit in Hc. rewrite size_cons in Hs.
    pose proof (size_nonneg digits).
    change (keys_of (c :: digits) ++ ks)
      with (code c :: (keys_of digits ++ ks)).
    cbn [custom_loop].
    replace (is_enter (code c)) with false by (unfold is_enter; lia).
    replace (is_quit (code c)) with false
      by (unfold is_quit, is_letter; lia).
    replace (is_backspace (code c)) with false
      by (unfold is_backspace, KEY_BACKSPACE; lia).
    replace ((48 <=? code c) && (code c <=? 57) && (size input <? 4))
      with true by lia.
    cbn [andb]. rewrite chr_code, IH.
    + rewrite <- app_assoc. reflexivity.
    + exact Hd.
    + rewrite size_app, size_cons, size_nil. lia.
Qed.

Lemma custom_count_typed (n : Z) (rest : list Z) :
  1 <= n <= 1000 ->
  getCustomWordCount (keys_of (show_int n) ++ 10 :: rest) = Some (n, rest).
Proof.
  intros Hn. destruct (count_text n Hn) as [Hs Hd].
  unfold getCustomWordCount. rewrite custom_loop_digits; auto.
  - cbn [custom_loop app].
    change (is_enter 10) with true.
    replace (negb (size (show_int n) =? 0)) with true by lia.
    cbn [andb]. rewrite stoi_show_int by (unfold INT_MIN, INT_MAX; lia).
    replace ((1 <=? n) && (n <=? 1000)) with true by lia.
    reflexivity.
  - unfold size at 1. simpl. lia.
Qed.

(** X7. A count from 1 to 1000 typed in decimal at the custom prompt and
    confirmed with Enter is the count [getCustomWordCount] returns, and the
    keys after the Enter are left unread. *)
Theorem custom_count_round_trip (n : Z) (rest : list Z) :
  1 <= n <= 1000 ->
  getCustomWordCount (keys_of (show_int n) ++ 10 :: rest) = Some (n, rest).
Proof. apply custom_count_typed. Qed.

Lemma custom_count_round_trip_witness :
  1 <= 250 <= 1000 /\
  getCustomWordCount (keys_of (show_int 250) ++ 10 :: [113]) = Some (250, [113]).
Proof.
  split; [lia |]. apply (custom_count_round_trip 250 [113]). lia.
Defined.

(** X8. Choosing the fifth entry of the word count menu and typing a count
    from 1 to 1000 makes [showWordCountMenu] return that count. *)
Theorem custom_entry_of_menu (n : Z) (rest : list Z) :
  1 <= n <= 1000 ->
  showWordCountMenu
    ([KEY_DOWN; KEY_DOWN; KEY_DOWN; KEY_DOWN; 10]
       ++ keys_of (show_int n) ++ 10 :: rest)
  = Some (n, rest).
Proof.
  intros Hn. unfold showWordCountMenu.
  cbn [app length word_count_loop].
  change (is_up KEY_DOWN) with false. change (is_down KEY_DOWN) with true.
  change (is_up 10) with false. change (is_down 10) with false.
  change (is_enter 10) with true.
  cbn. rewrite custom_count_typed by exact Hn.
  replace (0 <? n) with true by lia. reflexivity.
Qed.

Lemma custom_entry_of_menu_witness :
  1 <= 1000 <= 1000 /\
  showWordCountMenu
    ([KEY_DOWN; KEY_DOWN; KEY_DOWN; KEY_DOWN; 10]
       ++ keys_of (show_int 1000) ++ 10 :: [])
  = Some (1000, []).
Proof.
  split; [lia |]. apply (custom_entry_of_menu 1000 []). lia.
Defined.

End MenuFacts.

(** * The loader by the number of fields *)

Section LoaderShapes.

Lemma wrap_restart : wrap (npos + 1) = 0.
Proof. reflexivity. Qed.

Lemma wrap_back (p : Z) : 0 <= p < 2 ^ 64 -> wrap (p - npos - 1) = p.
Proof.
  intros H. unfold wrap. rewrite npos_val.
  replace (p - (2 ^ 64 - 1) - 1) with (p + (-1) * 2 ^ 64) by lia.
  rewrite Z_mod_plus_full. apply Z.mod_small. exact H.
Qed.

(** The text of the last field, cut out with a length that reaches beyond
    the end of the line. *)
Lemma substr_field_end (line : str) (pre f : str) (p n : Z) :
  size line < npos ->
  line = pre ++ f -> p = size pre -> size f <= n < 2 ^ 64 ->
  substr line (wrap p) (wrap n) = Ok f.
Proof.
  intros Hfit -> -> Hn. rewrite npos_val in Hfit.
  rewrite !wrap_small by sizes. apply substr_last_field. lia.
Qed.

(** X9. A line of eight fields or more, NAME|WPM|ACCURACY|TIME|DATE|COUNT|P|N
    where N is all that follows the seventh separator: the loader converts
    WPM, accuracy and time, and a failure there leaves the function; it
    converts the count and the two flags inside the [try] block, and a
    failure there gives the date "Unknown", the count 15 and both flags
    false, so that the date read from the line is dropped with them. *)
Theorem load_eight_fields
  (stod_ : str -> result double) (stoi_ : str -> result Z)
  (f1 f2 f3 f4 f5 f6 f7 f8 : str) :
  let line :=
    f1 ++ bar :: f2 ++ bar :: f3 ++ bar :: f4 ++ bar :: f5 ++ bar :: f6
      ++ bar :: f7 ++ bar :: f8 in
  size line < npos ->
  ~ In bar f1 -> ~ In bar f2 -> ~ In bar f3 -> ~ In bar f4 -> ~ In bar f5 ->
  ~ In bar f6 -> ~ In bar f7 ->
  load_line stod_ stoi_ line
  = bind (stod_ f2) (fun wpm =>
    bind (stod_ f3) (fun accuracy =>
    bind (stod_ f4) (fun time =>
      let '(date, wordCount, p, n) :=
        try_catch
          (bind (stoi_ f6) (fun wc =>
           bind (stoi_ f7) (fun p =>
           bind (stoi_ f8) (fun n => Ok (f5, wc, p =? 1, n =? 1)))))
          (lit "Unknown", 15, false, false) in
      Ok (Some (mkScore (toUpperCase f1) wpm accuracy time date wordCount
                        p n))))).
Proof.
  intros line Hfit H1 H2 H3 H4 H5 H6 H7.
  assert (Hsz : size line = size f1 + 1 + size f2 + 1 + size f3 + 1 + size f4 + 1 + size f5 + 1 + size f6 + 1 + size f7 + 1 + size f8) by (unfold line; sizes).
  assert (P1 : find line bar 0 = size f1).
  { change 0 with (size []) at 1.
    rewrite <- (wrap_small (size [])) by (rewrite size_nil; lia).
    now rewrite (find_field_at line Hfit [] f1 (f2 ++ bar :: f3 ++ bar :: f4 ++ bar :: f5 ++ bar :: f6 ++ bar :: f7 ++ bar :: f8)). }
  assert (P2 : find line bar (wrap (size f1 + 1)) = size f1 + 1 + size f2).
  { apply (find_field_at line Hfit (f1 ++ [bar]) f2 (f3 ++ bar :: f4 ++ bar :: f5 ++ bar :: f6 ++ bar :: f7 ++ bar :: f8));
      [unfold line; regroup | assumption | sizes]. }
  assert (P3 : find line bar (wrap (size f1 + 1 + size f2 + 1)) = size f1 + 1 + size f2 + 1 + size f3).
  { apply (find_field_at line Hfit (f1 ++ bar :: f2 ++ [bar]) f3 (f4 ++ bar :: f5 ++ bar :: f6 ++ bar :: f7 ++ bar :: f8));
      [unfold line; regroup | assumption | sizes]. }
  assert (P4 : find line bar (wrap (size f1 + 1 + size f2 + 1 + size f3 + 1)) = size f1 + 1 + size f2 + 1 + size f3 + 1 + size f4).
  { apply (find_field_at line Hfit (f1 ++ bar :: f2 ++ bar :: f3 ++ [bar]) f4 (f5 ++ bar :: f6 ++ bar :: f7 ++ bar :: f8));
      [unfold line; regroup | assumption | sizes]. }
  assert (P5 : find line bar (wrap (size f1 + 1 + size f2 + 1 + size f3 + 1 + size f4 + 1)) = size f1 + 1 + size f2 + 1 + size f3 + 1 + size f4 + 1 + size f5).
  { apply (find_field_at line Hfit (f1 ++ bar :: f2 ++ bar :: f3 ++ bar :: f4 ++ [bar]) f5 (f6 ++ bar :: f7 ++ bar :: f8));
      [unfold line; regroup | assumption | sizes]. }
  assert (P6 : find line bar (wrap (size f1 + 1 + size f2 + 1 + size f3 + 1 + size f4 + 1 + size f5 + 1)) = size f1 + 1 + size f2 + 1 + size f3 + 1 + size f4 + 1 + size f5 + 1 + size f6).
  { apply (find_field_at line Hfit (f1 ++ bar :: f2 ++ bar :: f3 ++ bar :: f4 ++ bar :: f5 ++ [bar]) f6 (f7 ++ bar :: f8));
      [unfold line; regroup | assumption | sizes]. }
  assert (P7 : find line bar (wrap (size f1 + 1 + size f2 + 1 + size f3 + 1 + size f4 + 1 + size f5 + 1 + size f6 + 1)) = size f1 + 1 + size f2 + 1 + size f3 + 1 + size f4 + 1 + size f5 + 1 + size f6 + 1 + size f7).
  { apply (find_field_at line Hfit (f1 ++ bar :: f2 ++ bar :: f3 ++ bar :: f4 ++ bar :: f5 ++ bar :: f6 ++ [bar]) f7 (f8));
      [unfold line; regroup | assumption | sizes]. }
  assert (S1 : substr line 0 (size f1) = Ok f1).
  { change 0 with (size []) at 1.
    apply (substr_field [] f1 (bar :: f2 ++ bar :: f3 ++ bar :: f4 ++ bar :: f5 ++ bar :: f6 ++ bar :: f7 ++ bar :: f8)). }
  assert (S2 : substr line (wrap (size f1 + 1)) (wrap (size f1 + 1 + size f2 - (size f1) - 1)) = Ok f2).
  { apply (substr_field_at line Hfit (f1 ++ [bar]) f2 (bar :: f3 ++ bar :: f4 ++ bar :: f5 ++ bar :: f6 ++ bar :: f7 ++ bar :: f8));
      [unfold line; regroup | sizes | lia]. }
  assert (S3 : substr line (wrap (size f1 + 1 + size f2 + 1)) (wrap (size f1 + 1 + size f2 + 1 + size f3 - (size f1 + 1 + size f2) - 1)) = Ok f3).
  { apply (substr_field_at line Hfit (f1 ++ bar :: f2 ++ [bar]) f3 (bar :: f4 ++ bar :: f5 ++ bar :: f6 ++ bar :: f7 ++ bar :: f8));
      [unfold line; regroup | sizes | lia]. }
  assert (S4 : substr line (wrap (size f1 + 1 + size f2 + 1 + size f3 + 1)) (wrap (size f1 + 1 + size f2 + 1 + size f3 + 1 + size f4 - (size f1 + 1 + size f2 + 1 + size f3) - 1)) = Ok f4).
  { apply (substr_field_at line Hfit (f1 ++ bar :: f2 ++ bar :: f3 ++ [bar]) f4 (bar :: f5 ++ bar :: f6 ++ bar :: f7 ++ bar :: f8));
      [unfold line; regroup | sizes | lia]. }
  assert (S5 : substr line (wrap (size f1 + 1 + size f2 + 1 + size f3 + 1 + size f4 + 1)) (wrap (size f1 + 1 + size f2 + 1 + size f3 + 1 + size f4 + 1 + size f5 - (size f1 + 1 + size f2 + 1 + size f3 + 1 + size f4) - 1)) = Ok f5).
  { apply (substr_field_at line Hfit (f1 ++ bar :: f2 ++ bar :: f3 ++ bar :: f4 ++ [bar]) f5 (bar :: f6 ++ bar :: f7 ++ bar :: f8));
      [unfold line; regroup | sizes | lia]. }
  assert (S6 : substr line (wrap (size f1 + 1 + size f2 + 1 + size f3 + 1 + size f4 + 1 + size f5 + 1)) (wrap (size f1 + 1 + size f2 + 1 + size f3 + 1 + size f4 + 1 + size f5 + 1 + size f6 - (size f1 + 1 + size f2 + 1 + size f3 + 1 + size f4 + 1 + size f5) - 1)) = Ok f6).
  { apply (substr_field_at line Hfit (f1 ++ bar :: f2 ++ bar :: f3 ++ bar :: f4 ++ bar :: f5 ++ [bar]) f6 (bar :: f7 ++ bar :: f8));
      [unfold line; regroup | sizes | lia]. }
  assert (S7 : substr line (wrap (size f1 + 1 + size f2 + 1 + size f3 + 1 + size f4 + 1 + size f5 + 1 + size f6 + 1)) (wrap (size f1 + 1 + size f2 + 1 + size f3 + 1 + size f4 + 1 + size f5 + 1 + size f6 + 1 + size f7 - (size f1 + 1 + size f2 + 1 + size f3 + 1 + size f4 + 1 + size f5 + 1 + size f6) - 1)) = Ok f7).
  { apply (substr_field_at line Hfit (f1 ++ bar :: f2 ++ bar :: f3 ++ bar :: f4 ++ bar :: f5 ++ bar :: f6 ++ [bar]) f7 (bar :: f8));
      [unfold line; regroup | sizes | lia]. }
  assert (S8 : substr line (wrap (size f1 + 1 + size f2 + 1 + size f3 + 1 + size f4 + 1 + size f5 + 1 + size f6 + 1 + size f7 + 1)) npos = Ok f8).
  { apply (substr_field_last line Hfit (f1 ++ bar :: f2 ++ bar :: f3 ++ bar :: f4 ++ bar :: f5 ++ bar :: f6 ++ bar :: f7 ++ [bar]) f8);
      [unfold line; regroup | sizes]. }
  assert (B : forall z, 0 <= z < npos -> (z =? npos) = false)
    by (intros z Hz; apply Z.eqb_neq; lia).
  clearbody line. note_sizes.
  unfold load_line, parse_newest. cbv zeta.
  rewrite P1, P2, P3, P4, P5, P6, P7.
  rewrite S1, S2, S3, S4, S5, S6, S7, S8.
  rewrite !B by lia.
  cbn [negb andb bind try_catch]. reflexivity.
Qed.

(** X10. A line of exactly seven fields is read by the branch for the
    format with a word count and no flags: the count is converted
    from the sixth and seventh fields together, separator included, and
    both flags are false. *)
Theorem load_seven_fields
  (stod_ : str -> result double) (stoi_ : str -> result Z)
  (f1 f2 f3 f4 f5 f6 f7 : str) :
  let line :=
    f1 ++ bar :: f2 ++ bar :: f3 ++ bar :: f4 ++ bar :: f5 ++ bar :: f6
      ++ bar :: f7 in
  size line < npos ->
  ~ In bar f1 -> ~ In bar f2 -> ~ In bar f3 -> ~ In bar f4 -> ~ In bar f5 ->
  ~ In bar f6 -> ~ In bar f7 ->
  load_line stod_ stoi_ line
  = bind (stod_ f2) (fun wpm =>
    bind (stod_ f3) (fun accuracy =>
    bind (stod_ f4) (fun time =>
      let '(date, wordCount) :=
        try_catch
          (bind (stoi_ (f6 ++ bar :: f7)) (fun wc => Ok (f5, wc)))
          (lit "Unknown", 15) in
      Ok (Some (mkScore (toUpperCase f1) wpm accuracy time date wordCount
                        false false))))).
Proof.
  intros line Hfit H1 H2 H3 H4 H5 H6 H7.
  assert (Hsz : size line = size f1 + 1 + size f2 + 1 + size f3 + 1 + size f4 + 1 + size f5 + 1 + size f6 + 1 + size f7) by (unfold line; sizes).
  assert (P1 : find line bar 0 = size f1).
  { change 0 with (size []) at 1.
    rewrite <- (wrap_small (size [])) by (rewrite size_nil; lia).
    now rewrite (find_field_at line Hfit [] f1 (f2 ++ bar :: f3 ++ bar :: f4 ++ bar :: f5 ++ bar :: f6 ++ bar :: f7)). }
  assert (P2 : find line bar (wrap (size f1 + 1)) = size f1 + 1 + size f2).
  { apply (find_field_at line Hfit (f1 ++ [bar]) f2 (f3 ++ bar :: f4 ++ bar :: f5 ++ bar :: f6 ++ bar :: f7));
      [unfold line; regroup | assumption | sizes]. }
  assert (P3 : find line bar (wrap (size f1 + 1 + size f2 + 1)) = size f1 + 1 + size f2 + 1 + size f3).
  { apply (find_field_at line Hfit (f1 ++ bar :: f2 ++ [bar]) f3 (f4 ++ bar :: f5 ++ bar :: f6 ++ bar :: f7));
      [unfold line; regroup | assumption | sizes]. }
  assert (P4 : find line bar (wrap (size f1 + 1 + size f2 + 1 + size f3 + 1)) = size f1 + 1 + size f2 + 1 + size f3 + 1 + size f4).
  { apply (find_field_at line Hfit (f1 ++ bar :: f2 ++ bar :: f3 ++ [bar]) f4 (f5 ++ bar :: f6 ++ bar :: f7));
      [unfold line; regroup | assumption | sizes]. }
  assert (P5 : find line bar (wrap (size f1 + 1 + size f2 + 1 + size f3 + 1 + size f4 + 1)) = size f1 + 1 + size f2 + 1 + size f3 + 1 + size f4 + 1 + size f5).
  { apply (find_field_at line Hfit (f1 ++ bar :: f2 ++ bar :: f3 ++ bar :: f4 ++ [bar]) f5 (f6 ++ bar :: f7));
      [unfold line; regroup | assumption | sizes]. }
  assert (P6 : find line bar (wrap (size f1 + 1 + size f2 + 1 + size f3 + 1 + size f4 + 1 + size f5 + 1)) = size f1 + 1 + size f2 + 1 + size f3 + 1 + size f4 + 1 + size f5 + 1 + size f6).
  { apply (find_field_at line Hfit (f1 ++ bar :: f2 ++ bar :: f3 ++ bar :: f4 ++ bar :: f5 ++ [bar]) f6 (f7));
      [unfold line; regroup | assumption | sizes]. }
  assert (P7 : find line bar (wrap (size f1 + 1 + size f2 + 1 + size f3 + 1 + size f4 + 1 + size f5 + 1 + size f6 + 1)) = npos).
  { apply (find_field_last line Hfit (f1 ++ bar :: f2 ++ bar :: f3 ++ bar :: f4 ++ bar :: f5 ++ bar :: f6 ++ [bar]) f7);
      [unfold line; regroup | assumption | sizes]. }
  assert (S1 : substr line 0 (size f1) = Ok f1).
  { change 0 with (size []) at 1.
    apply (substr_field [] f1 (bar :: f2 ++ bar :: f3 ++ bar :: f4 ++ bar :: f5 ++ bar :: f6 ++ bar :: f7)). }
  assert (S2 : substr line (wrap (size f1 + 1)) (wrap (size f1 + 1 + size f2 - (size f1) - 1)) = Ok f2).
  { apply (substr_field_at line Hfit (f1 ++ [bar]) f2 (bar :: f3 ++ bar :: f4 ++ bar :: f5 ++ bar :: f6 ++ bar :: f7));
      [unfold line; regroup | sizes | lia]. }
  assert (S3 : substr line (wrap (size f1 + 1 + size f2 + 1)) (wrap (size f1 + 1 + size f2 + 1 + size f3 - (size f1 + 1 + size f2) - 1)) = Ok f3).
  { apply (substr_field_at line Hfit (f1 ++ bar :: f2 ++ [bar]) f3 (bar :: f4 ++ bar :: f5 ++ bar :: f6 ++ bar :: f7));
      [unfold line; regroup | sizes | lia]. }
  assert (S4 : substr line (wrap (size f1 + 1 + size f2 + 1 + size f3 + 1)) (wrap (size f1 + 1 + size f2 + 1 + size f3 + 1 + size f4 - (size f1 + 1 + size f2 + 1 + size f3) - 1)) = Ok f4).
  { apply (substr_field_at line Hfit (f1 ++ bar :: f2 ++ bar :: f3 ++ [bar]) f4 (bar :: f5 ++ bar :: f6 ++ bar :: f7));
      [unfold line; regroup | sizes | lia]. }
  assert (S5 : substr line (wrap (size f1 + 1 + size f2 + 1 + size f3 + 1 + size f4 + 1)) (wrap (size f1 + 1 + size f2 + 1 + size f3 + 1 + size f4 + 1 + size f5 - (size f1 + 1 + size f2 + 1 + size f3 + 1 + size f4) - 1)) = Ok f5).
  { apply (substr_field_at line Hfit (f1 ++ bar :: f2 ++ bar :: f3 ++ bar :: f4 ++ [bar]) f5 (bar :: f6 ++ bar :: f7));
      [unfold line; regroup | sizes | lia]. }
  assert (S6 : substr line (wrap (size f1 + 1 + size f2 + 1 + size f3 + 1 + size f4 + 1 + size f5 + 1)) (wrap (size f1 + 1 + size f2 + 1 + size f3 + 1 + size f4 + 1 + size f5 + 1 + size f6 - (size f1 + 1 + size f2 + 1 + size f3 + 1 + size f4 + 1 + size f5) - 1)) = Ok f6).
  { apply (substr_field_at line Hfit (f1 ++ bar :: f2 ++ bar :: f3 ++ bar :: f4 ++ bar :: f5 ++ [bar]) f6 (bar :: f7));
      [unfold line; regroup | sizes | lia]. }
  assert (SL : substr line (wrap (size f1 + 1 + size f2 + 1 + size f3 + 1 + size f4 + 1 + size f5 + 1)) npos = Ok (f6 ++ bar :: f7)).
  { apply (substr_field_last line Hfit (f1 ++ bar :: f2 ++ bar :: f3 ++ bar :: f4 ++ bar :: f5 ++ [bar]) (f6 ++ bar :: f7));
      [unfold line; regroup | sizes]. }
  assert (B : forall z, 0 <= z < npos -> (z =? npos) = false)
    by (intros z Hz; apply Z.eqb_neq; lia).
  clearbody line. note_sizes.
  unfold load_line, parse_counted. cbv zeta.
  rewrite P1, P2, P3, P4, P5, P6, P7.
  rewrite S1, S2, S3, S4, S5, SL.
  rewrite Z.eqb_refl. rewrite !B by lia.
  cbn [negb andb bind try_catch]. reflexivity.
Qed.

(** X11. A line of exactly six fields, NAME|WPM|ACCURACY|TIME|DATE|COUNT: no
    sixth separator is found, the search for the seventh starts again at
    the beginning of the line ([npos + 1] is 0) and finds the first, and
    the line is read by the branch of the newest format, with the name
    converted as the punctuation flag. Unless the name starts with a
    number, the conversion fails and the date and the count of the line
    are replaced by "Unknown" and 15. *)
Theorem load_six_fields (stod_ : str -> result double) (stoi_ : str -> result Z)
  (f1 f2 f3 f4 f5 f6 : str) :
  let line :=
    f1 ++ bar :: f2 ++ bar :: f3 ++ bar :: f4 ++ bar :: f5 ++ bar :: f6 in
  size line < npos ->
  ~ In bar f1 -> ~ In bar f2 -> ~ In bar f3 -> ~ In bar f4 -> ~ In bar f5 ->
  ~ In bar f6 ->
  load_line stod_ stoi_ line
  = bind (stod_ f2) (fun wpm =>
    bind (stod_ f3) (fun accuracy =>
    bind (stod_ f4) (fun time =>
      let '(date, wordCount, p, n) :=
        try_catch
          (bind (stoi_ f6) (fun wc =>
           bind (stoi_ f1) (fun p =>
           bind (stoi_ (f2 ++ bar :: f3
                         ++ bar :: f4 ++ bar :: f5 ++ bar :: f6)) (fun n =>
             Ok (f5, wc, p =? 1, n =? 1)))))
          (lit "Unknown", 15, false, false) in
      Ok (Some (mkScore (toUpperCase f1) wpm accuracy time date wordCount
                        p n))))).
Proof.
  intros line Hfit H1 H2 H3 H4 H5 H6.
  assert (Hsz : size line = size f1 + 1 + size f2 + 1 + size f3 + 1 + size f4 + 1 + size f5 + 1 + size f6) by (unfold line; sizes).
  assert (P1 : find line bar 0 = size f1).
  { change 0 with (size []) at 1.
    rewrite <- (wrap_small (size [])) by (rewrite size_nil; lia).
    now rewrite (find_field_at line Hfit [] f1 (f2 ++ bar :: f3 ++ bar :: f4 ++ bar :: f5 ++ bar :: f6)). }
  assert (P2 : find line bar (wrap (size f1 + 1)) = size f1 + 1 + size f2).
  { apply (find_field_at line Hfit (f1 ++ [bar]) f2 (f3 ++ bar :: f4 ++ bar :: f5 ++ bar :: f6));
      [unfold line; regroup | assumption | sizes]. }
  assert (P3 : find line bar (wrap (size f1 + 1 + size f2 + 1)) = size f1 + 1 + size f2 + 1 + size f3).
  { apply (find_field_at line Hfit (f1 ++ bar :: f2 ++ [bar]) f3 (f4 ++ bar :: f5 ++ bar :: f6));
      [unfold line; regroup | assumption | sizes]. }
  assert (P4 : find line bar (wrap (size f1 + 1 + size f2 + 1 + size f3 + 1)) = size f1 + 1 + size f2 + 1 + size f3 + 1 + size f4).
  { apply (find_field_at line Hfit (f1 ++ bar :: f2 ++ bar :: f3 ++ [bar]) f4 (f5 ++ bar :: f6));
      [unfold line; regroup | assumption | sizes]. }
  assert (P5 : find line bar (wrap (size f1 + 1 + size f2 + 1 + size f3 + 1 + size f4 + 1)) = size f1 + 1 + size f2 + 1 + size f3 + 1 + size f4 + 1 + size f5).
  { apply (find_field_at line Hfit (f1 ++ bar :: f2 ++ bar :: f3 ++ bar :: f4 ++ [bar]) f5 (f6));
      [unfold line; regroup | assumption | sizes]. }
  assert (P6 : find line bar (wrap (size f1 + 1 + size f2 + 1 + size f3 + 1 + size f4 + 1 + size f5 + 1)) = npos).
  { apply (find_field_last line Hfit (f1 ++ bar :: f2 ++ bar :: f3 ++ bar :: f4 ++ bar :: f5 ++ [bar]) f6);
      [unfold line; regroup | assumption | sizes]. }
  assert (S1 : substr line 0 (size f1) = Ok f1).
  { change 0 with (size []) at 1.
    apply (substr_field [] f1 (bar :: f2 ++ bar :: f3 ++ bar :: f4 ++ bar :: f5 ++ bar :: f6)). }
  assert (S2 : substr line (wrap (size f1 + 1)) (wrap (size f1 + 1 + size f2 - (size f1) - 1)) = Ok f2).
  { apply (substr_field_at line Hfit (f1 ++ [bar]) f2 (bar :: f3 ++ bar :: f4 ++ bar :: f5 ++ bar :: f6));
      [unfold line; regroup | sizes | lia]. }
  assert (S3 : substr line (wrap (size f1 + 1 + size f2 + 1)) (wrap (size f1 + 1 + size f2 + 1 + size f3 - (size f1 + 1 + size f2) - 1)) = Ok f3).
  { apply (substr_field_at line Hfit (f1 ++ bar :: f2 ++ [bar]) f3 (bar :: f4 ++ bar :: f5 ++ bar :: f6));
      [unfold line; regroup | sizes | lia]. }
  assert (S4 : substr line (wrap (size f1 + 1 + size f2 + 1 + size f3 + 1)) (wrap (size f1 + 1 + size f2 + 1 + size f3 + 1 + size f4 - (size f1 + 1 + size f2 + 1 + size f3) - 1)) = Ok f4).
  { apply (substr_field_at line Hfit (f1 ++ bar :: f2 ++ bar :: f3 ++ [bar]) f4 (bar :: f5 ++ bar :: f6));
      [unfold line; regroup | sizes | lia]. }
  assert (S5 : substr line (wrap (size f1 + 1 + size f2 + 1 + size f3 + 1 + size f4 + 1)) (wrap (size f1 + 1 + size f2 + 1 + size f3 + 1 + size f4 + 1 + size f5 - (size f1 + 1 + size f2 + 1 + size f3 + 1 + size f4) - 1)) = Ok f5).
  { apply (substr_field_at line Hfit (f1 ++ bar :: f2 ++ bar :: f3 ++ bar :: f4 ++ [bar]) f5 (bar :: f6));
      [unfold line; regroup | sizes | lia]. }
  assert (SW : substr line (wrap (size f1 + 1 + size f2 + 1 + size f3 + 1 + size f4 + 1 + size f5 + 1)) (wrap (npos - (size f1 + 1 + size f2 + 1 + size f3 + 1 + size f4 + 1 + size f5) - 1)) = Ok f6).
  { apply (substr_field_end line (f1 ++ bar :: f2 ++ bar :: f3 ++ bar :: f4 ++ bar :: f5 ++ [bar]) f6);
      [exact Hfit | unfold line; regroup | sizes | rewrite npos_val in *; sizes]. }
  assert (SL : substr line (wrap (size f1 + 1)) npos = Ok (f2 ++ bar :: f3 ++ bar :: f4 ++ bar :: f5 ++ bar :: f6)).
  { apply (substr_field_last line Hfit (f1 ++ [bar]) (f2 ++ bar :: f3 ++ bar :: f4 ++ bar :: f5 ++ bar :: f6));
      [unfold line; regroup | sizes]. }
  assert (B : forall z, 0 <= z < npos -> (z =? npos) = false)
    by (intros z Hz; apply Z.eqb_neq; lia).
  clearbody line. note_sizes.
  unfold load_line, parse_newest. cbv zeta.
  rewrite P1, P2, P3, P4, P5, P6.
  rewrite wrap_restart, P1.
  rewrite (wrap_back (size f1)) by (rewrite npos_val in *; lia).
  rewrite S1, S2, S3, S4, S5, SW, SL.
  rewrite !B by lia.
  cbn [negb andb bind try_catch]. reflexivity.
Qed.

(** X12. A line of exactly five fields, NAME|WPM|ACCURACY|TIME|DATE: no fifth
    separator is found, the searches for the sixth and the seventh start
    again at the beginning of the line and find the first and the second,
    and the line is read by the branch of the newest format, with the name
    converted as the word count and the WPM as the punctuation flag. The
    branch written for this format is not the one that reads it. Unless
    the name starts with a number, the date of the line is replaced by
    "Unknown". *)
Theorem load_five_fields
  (stod_ : str -> result double) (stoi_ : str -> result Z)
  (f1 f2 f3 f4 f5 : str) :
  let line := f1 ++ bar :: f2 ++ bar :: f3 ++ bar :: f4 ++ bar :: f5 in
  size line < npos ->
  ~ In bar f1 -> ~ In bar f2 -> ~ In bar f3 -> ~ In bar f4 -> ~ In bar f5 ->
  load_line stod_ stoi_ line
  = bind (stod_ f2) (fun wpm =>
    bind (stod_ f3) (fun accuracy =>
    bind (stod_ f4) (fun time =>
      let '(date, wordCount, p, n) :=
        try_catch
          (bind (stoi_ f1) (fun wc =>
           bind (stoi_ f2) (fun p =>
           bind (stoi_ (f3 ++ bar :: f4 ++ bar :: f5)) (fun n =>
             Ok (f5, wc, p =? 1, n =? 1)))))
          (lit "Unknown", 15, false, false) in
      Ok (Some (mkScore (toUpperCase f1) wpm accuracy time date wordCount
                        p n))))).
Proof.
  intros line Hfit H1 H2 H3 H4 H5.
  assert (Hsz : size line = size f1 + 1 + size f2 + 1 + size f3 + 1 + size f4 + 1 + size f5) by (unfold line; sizes).
  assert (P1 : find line bar 0 = size f1).
  { change 0 with (size []) at 1.
    rewrite <- (wrap_small (size [])) by (rewrite size_nil; lia).
    now rewrite (find_field_at line Hfit [] f1 (f2 ++ bar :: f3 ++ bar :: f4 ++ bar :: f5)). }
  assert (P2 : find line bar (wrap (size f1 + 1)) = size f1 + 1 + size f2).
  { apply (find_field_at line Hfit (f1 ++ [bar]) f2 (f3 ++ bar :: f4 ++ bar :: f5));
      [unfold line; regroup | assumption | sizes]. }
  assert (P3 : find line bar (wrap (size f1 + 1 + size f2 + 1)) = size f1 + 1 + size f2 + 1 + size f3).
  { apply (find_field_at line Hfit (f1 ++ bar :: f2 ++ [bar]) f3 (f4 ++ bar :: f5));
      [unfold line; regroup | assumption | sizes]. }
  assert (P4 : find line bar (wrap (size f1 + 1 + size f2 + 1 + size f3 + 1)) = size f1 + 1 + size f2 + 1 + size f3 + 1 + size f4).
  { apply (find_field_at line Hfit (f1 ++ bar :: f2 ++ bar :: f3 ++ [bar]) f4 (f5));
      [unfold line; regroup | assumption | sizes]. }
  assert (P5 : find line bar (wrap (size f1 + 1 + size f2 + 1 + size f3 + 1 + size f4 + 1)) = npos).
  { apply (find_field_last line Hfit (f1 ++ bar :: f2 ++ bar :: f3 ++ bar :: f4 ++ [bar]) f5);
      [unfold line; regroup | assumption | sizes]. }
  assert (S1 : substr line 0 (size f1) = Ok f1).
  { change 0 with (size []) at 1.
    apply (substr_field [] f1 (bar :: f2 ++ bar :: f3 ++ bar :: f4 ++ bar :: f5)). }
  assert (S2 : substr line (wrap (size f1 + 1)) (wrap (size f1 + 1 + size f2 - (size f1) - 1)) = Ok f2).
  { apply (substr_field_at line Hfit (f1 ++ [bar]) f2 (bar :: f3 ++ bar :: f4 ++ bar :: f5));
      [unfold line; regroup | sizes | lia]. }
  assert (S3 : substr line (wrap (size f1 + 1 + size f2 + 1)) (wrap (size f1 + 1 + size f2 + 1 + size f3 - (size f1 + 1 + size f2) - 1)) = Ok f3).
  { apply (substr_field_at line Hfit (f1 ++ bar :: f2 ++ [bar]) f3 (bar :: f4 ++ bar :: f5));
      [unfold line; regroup | sizes | lia]. }
  assert (S4 : substr line (wrap (size f1 + 1 + size f2 + 1 + size f3 + 1)) (wrap (size f1 + 1 + size f2 + 1 + size f3 + 1 + size f4 - (size f1 + 1 + size f2 + 1 + size f3) - 1)) = Ok f4).
  { apply (substr_field_at line Hfit (f1 ++ bar :: f2 ++ bar :: f3 ++ [bar]) f4 (bar :: f5));
      [unfold line; regroup | sizes | lia]. }
  assert (SW : substr line (wrap (size f1 + 1 + size f2 + 1 + size f3 + 1 + size f4 + 1)) (wrap (npos - (size f1 + 1 + size f2 + 1 + size f3 + 1 + size f4) - 1)) = Ok f5).
  { apply (substr_field_end line (f1 ++ bar :: f2 ++ bar :: f3 ++ bar :: f4 ++ [bar]) f5);
      [exact Hfit | unfold line; regroup | sizes | rewrite npos_val in *; sizes]. }
  assert (SL : substr line (wrap (size f1 + 1 + size f2 + 1)) npos = Ok (f3 ++ bar :: f4 ++ bar :: f5)).
  { apply (substr_field_last line Hfit (f1 ++ bar :: f2 ++ [bar]) (f3 ++ bar :: f4 ++ bar :: f5));
      [unfold line; regroup | sizes]. }
  assert (B : forall z, 0 <= z < npos -> (z =? npos) = false)
    by (intros z Hz; apply Z.eqb_neq; lia).
  clearbody line. note_sizes.
  unfold load_line, parse_newest. cbv zeta.
  rewrite P1, P2, P3, P4, P5.
  rewrite wrap_restart, P1, P2.
  rewrite (wrap_back (size f1)) by (rewrite npos_val in *; lia).
  rewrite S1, S2, S3, S4, SW, SL.
  rewrite !B by lia.
  cbn [negb andb bind try_catch]. reflexivity.
Qed.

End LoaderShapes.

Section LoaderWitnesses.

Ltac no_bar := intros F; vm_compute in F; intuition discriminate.

Lemma load_eight_fields_witness :
  load_line stod stoi (lit "bob|50|90|12|01/02/2024 10:00|many|1|0")
  = Ok (Some (mkScore (lit "BOB") (of_Z 50) (of_Z 90) (of_Z 12)
                      (lit "Unknown") 15 false false)).
Proof.
  change (lit "bob|50|90|12|01/02/2024 10:00|many|1|0")
    with (lit "bob" ++ bar :: lit "50" ++ bar :: lit "90" ++ bar :: lit "12"
            ++ bar :: lit "01/02/2024 10:00" ++ bar :: lit "many"
            ++ bar :: lit "1" ++ bar :: lit "0").
  rewrite load_eight_fields;
    [vm_compute; reflexivity | vm_compute; reflexivity | no_bar ..].
Defined.

Lemma load_seven_fields_witness :
  load_line stod stoi (lit "bob|50|90|12|01/02/2024 10:00|25|1")
  = Ok (Some (mkScore (lit "BOB") (of_Z 50) (of_Z 90) (of_Z 12)
                      (lit "01/02/2024 10:00") 25 false false)).
Proof.
  change (lit "bob|50|90|12|01/02/2024 10:00|25|1")
    with (lit "bob" ++ bar :: lit "50" ++ bar :: lit "90" ++ bar :: lit "12"
            ++ bar :: lit "01/02/2024 10:00" ++ bar :: lit "25"
            ++ bar :: lit "1").
  rewrite load_seven_fields;
    [vm_compute; reflexivity | vm_compute; reflexivity | no_bar ..].
Defined.

Lemma load_six_fields_witness :
  load_line stod stoi (lit "bob|50|90|12|01/02/2024 10:00|25")
  = Ok (Some (mkScore (lit "BOB") (of_Z 50) (of_Z 90) (of_Z 12)
                      (lit "Unknown") 15 false false)).
Proof.
  change (lit "bob|50|90|12|01/02/2024 10:00|25")
    with (lit "bob" ++ bar :: lit "50" ++ bar :: lit "90" ++ bar :: lit "12"
            ++ bar :: lit "01/02/2024 10:00" ++ bar :: lit "25").
  rewrite load_six_fields;
    [vm_compute; reflexivity | vm_compute; reflexivity | no_bar ..].
Defined.

Lemma load_five_fields_witness :
  load_line stod stoi (lit "42|1|90|12|01/02/2024 10:00")
  = Ok (Some (mkScore (lit "42") (of_Z 1) (of_Z 90) (of_Z 12)
                      (lit "01/02/2024 10:00") 42 true false)).
Proof.
  change (lit "42|1|90|12|01/02/2024 10:00")
    with (lit "42" ++ bar :: lit "1" ++ bar :: lit "90" ++ bar :: lit "12"
            ++ bar :: lit "01/02/2024 10:00").
  rewrite load_five_fields;
    [vm_compute; reflexivity | vm_compute; reflexivity | no_bar ..].
Defined.

End LoaderWitnesses.

(** * What a load that succeeds has read *)

Section LoadedNames.

Import Words.

Variable stod_ : str -> result double.
Variable stoi_ : str -> result Z.

Lemma find_none_count (s : str) (c : ascii) (pos : Z) :
  0 <= pos -> size s < npos -> find s c pos = npos ->
  count_occ ascii_dec (skipn (Z.to_nat pos) s) c = 0%nat.
Proof.
  intros Hpos Hfit E.
  destruct (in_dec ascii_dec c (skipn (Z.to_nat pos) s)) as [I|N];
    [| apply count_occ_not_In; exact N].
  exfalso. unfold find in E.
  destruct (Z.leb_spec (size s) pos) as [L|L].
  - rewrite skipn_all2 in I by (unfold size in L; lia). contradiction.
  - destruct (index_from_found c _ pos I) as (k & Ek & Lk).
    rewrite length_skipn in Lk. unfold size in *. lia.
Qed.

(** Three separators in a line are found one after the other. *)
Lemma three_bars_found (line : str) :
  size line < npos -> (3 <= bars line)%nat ->
  let pos1 := find line bar 0 in
  let pos2 := find line bar (wrap (pos1 + 1)) in
  let pos3 := find line bar (wrap (pos2 + 1)) in
  pos1 <> npos /\ pos2 <> npos /\ pos3 <> npos.
Proof using Type.
  intros Hfit Hc. cbv zeta. unfold bars in Hc.
  pose proof Hfit as Hfit'. rewrite npos_val in Hfit'.
  destruct (find_inv line bar 0 ltac:(lia)) as [E|(B1 & _ & _ & C1)].
  { apply find_none_count in E; [simpl in E; lia | lia | exact Hfit]. }
  simpl in C1.
  rewrite (wrap_small (find line bar 0 + 1)) by lia.
  destruct (find_inv line bar (find line bar 0 + 1) ltac:(lia))
    as [E|(B2 & _ & _ & C2)].
  { apply find_none_count in E; [lia | lia | exact Hfit]. }
  rewrite (wrap_small (find line bar (find line bar 0 + 1) + 1)) by lia.
  destruct (find_inv line bar (find line bar (find line bar 0 + 1) + 1)
              ltac:(lia)) as [E|(B3 & _ & _ & C3)].
  { apply find_none_count in E; [lia | lia | exact Hfit]. }
  repeat split; lia.
Qed.

Lemma index_first_field (s : str) (i : Z) :
  In bar s -> index_from bar s i = i + size (first_field s).
Proof using Type.
  revert i; induction s as [|x r IH]; intros i H; [contradiction|]. simpl.
  destruct (Ascii.eqb_spec x bar) as [->|Hne].
  - rewrite size_nil. lia.
  - destruct H as [H|H]; [contradiction|].
    rewrite IH, size_cons by exact H. lia.
Qed.

Lemma firstn_first_field (s : str) :
  firstn (length (first_field s)) s = first_field s.
Proof using Type.
  induction s as [|x r IH]; simpl; [reflexivity|].
  destruct (Ascii.eqb x bar); simpl; [reflexivity|]. now rewrite IH.
Qed.

Lemma first_field_size (s : str) : size (first_field s) <= size s.
Proof using Type.
  induction s as [|x r IH]; simpl; [lia|].
  destruct (Ascii.eqb x bar); rewrite ?size_cons, ?size_nil; sizes.
Qed.

(** The name is cut out before the first separator. *)
Lemma substr_first_field (line : str) :
  find line bar 0 <> npos ->
  substr line 0 (find line bar 0) = Ok (first_field line).
Proof using Type.
  intros N. unfold find in *.
  destruct (Z.leb_spec (size line) 0) as [L|L]; [contradiction|].
  change (skipn (Z.to_nat 0) line) with line in *.
  assert (I : In bar line).
  { destruct (in_dec ascii_dec bar line) as [I|I]; [exact I|].
    exfalso. apply N. now apply index_from_none. }
  rewrite index_first_field by exact I.
  unfold substr.
  destruct (Z.ltb_spec (size line) 0) as [F|_]; [lia|].
  unfold substr_chars. change (skipn (Z.to_nat 0) line) with line.
  pose proof (first_field_size line).
  replace (Z.to_nat (Z.min (0 + size (first_field line)) (size line - 0)))
    with (length (first_field line)) by (unfold size in *; lia).
  now rewrite firstn_first_field.
Qed.

(** What the body of the loop has done when it returns: no record when one
    of the first three separators is missing, and else a record named by
    the text before the first separator, in upper case. *)
Lemma load_line_cases (line : str) (r : option PlayerScore) :
  load_line stod_ stoi_ line = Ok r ->
  let pos1 := find line bar 0 in
  let pos2 := find line bar (wrap (pos1 + 1)) in
  let pos3 := find line bar (wrap (pos2 + 1)) in
  match r with
  | None => pos1 = npos \/ pos2 = npos \/ pos3 = npos
  | Some s =>
      pos1 <> npos /\ pos2 <> npos /\ pos3 <> npos /\
      exists n, substr line 0 pos1 = Ok n /\ name s = toUpperCase n
  end.
Proof using Type.
  unfold load_line. cbv zeta.
  destruct (Z.eqb_spec (find line bar 0) npos) as [E1|N1].
  { intros H. injection H as <-. auto. }
  destruct (Z.eqb_spec (find line bar (wrap (find line bar 0 + 1))) npos)
    as [E2|N2].
  { intros H. injection H as <-. auto. }
  destruct (Z.eqb_spec
              (find line bar
                 (wrap (find line bar (wrap (find line bar 0 + 1)) + 1)))
              npos) as [E3|N3].
  { intros H. injection H as <-. auto. }
  cbn [negb andb].
  destruct (substr line 0 (find line bar 0)) as [n|e] eqn:S0;
    [| discriminate].
  cbn [bind].
  repeat match goal with
         | |- bind ?x _ = _ -> _ =>
             destruct x; cbn [bind]; [| discriminate]
         | |- (if ?b then _ else _) = _ -> _ => destruct b
         | |- context [try_catch ?a ?b] =>
             first [ destruct (try_catch a b) as [[[? ?] ?] ?]
                   | destruct (try_catch a b) as [? ?] ]
         end;
    intros H; injection H as <-; repeat split; auto;
    exists n; split; reflexivity.
Qed.

Lemma load_lines_names (lines : list str) :
  forall lb0 lb : list PlayerScore,
    Forall (fun l => size l < npos) lines ->
    load_lines stod_ stoi_ lines lb0 = Ok lb ->
    map name lb
    = map name lb0
      ++ map (fun l => toUpperCase (first_field l)) (record_lines lines).
Proof using Type.
  induction lines as [|line rest IH]; intros lb0 lb Hf.
  - simpl. intros H. injection H as <-. now rewrite app_nil_r.
  - inversion Hf as [|? ? Hline Hrest]; subst.
    change (record_lines (line :: rest))
      with (if (3 <=? bars line)%nat then line :: record_lines rest
            else record_lines rest).
    cbn [load_lines].
    destruct (load_line stod_ stoi_ line) as [r|e] eqn:E; [| discriminate].
    cbn [bind]. apply load_line_cases in E. cbv zeta in E.
    destruct r as [s|].
    + destruct E as (N1 & N2 & N3 & n & Sn & En).
      pose proof (three_bars line Hline N1 N2 N3) as T.
      fold (bars line) in T.
      replace (3 <=? bars line)%nat with true
        by (symmetry; apply Nat.leb_le; exact T).
      intros H. rewrite (IH _ _ Hrest H), map_app, <- app_assoc. simpl.
      rewrite substr_first_field in Sn by exact N1.
      injection Sn as <-. now rewrite En.
    + destruct (Nat.leb_spec 3 (bars line)) as [T|T].
      * destruct (three_bars_found line Hline T) as (N1 & N2 & N3).
        tauto.
      * intros H. apply (IH _ _ Hrest H).
Qed.

Lemma getlines_sizes (s : str) :
  forall (cur l : str),
    In l (getlines cur s) -> size l <= size cur + size s.
Proof using Type.
  induction s as [|c r IH]; intros cur l; simpl.
  - destruct cur; [contradiction|]. intros [<-|[]].
    unfold size. rewrite length_rev. simpl length. lia.
  - destruct (Ascii.eqb c newline).
    + intros [<-|H].
      * unfold size. rewrite length_rev. simpl length. lia.
      * apply IH in H. rewrite size_cons. rewrite size_nil in H. sizes.
    + intros H. apply IH in H. rewrite !size_cons in *. lia.
Qed.

End LoadedNames.

(** X13. When [loadLeaderboard] returns, the leaderboard holds one record
    for each line with at least three separators, in the order of the
    file, and the name of each record is the text of its line before the
    first separator, in upper case. Nothing limits their number to ten. *)
Theorem loaded_names (text : str) (lb : list PlayerScore) :
  size text < npos ->
  loadLeaderboard (Some text) = Ok lb ->
  map name lb
  = map (fun l => toUpperCase (Words.first_field l))
      (Words.record_lines (getlines [] text)).
Proof.
  intros Hfit H. unfold loadLeaderboard in H.
  apply load_lines_names in H; [exact H|].
  apply Forall_forall. intros l Hl.
  apply getlines_sizes in Hl. rewrite size_nil in Hl. lia.
Qed.

Lemma loaded_names_witness :
  let text := lit "ann|70|99|8" ++ newline :: lit "short|1"
              ++ newline :: lit "bob|50|90|12|01/02/2024 10:00|25|1|0" in
  map name
    [mkScore (lit "ANN") (of_Z 70) (of_Z 99) (of_Z 8) (lit "Unknown") 15
       false false;
     mkScore (lit "BOB") (of_Z 50) (of_Z 90) (of_Z 12)
       (lit "01/02/2024 10:00") 25 true false]
  = map (fun l => toUpperCase (Words.first_field l))
      (Words.record_lines (getlines [] text)).
Proof.
  cbv zeta. apply loaded_names; vm_compute; reflexivity.
Defined.

(** * A name with a separator in it *)

Section SeparatorInName.

Import Players Words.

Lemma line_text_newline_free (s : PlayerScore) :
  ~ In newline (name s) -> ~ In newline (date s) ->
  ~ In newline (line_text s).
Proof.
  intros Hn Hd. unfold line_text.
  repeat apply no_newline_field; auto;
    apply plain_text_no;
    auto using show_double_plain, show_int_plain, show_flag_plain.
Qed.

(** X14. The file format has no escape for the separator, and the name
    prompt accepts it. When a saved record's name holds a separator and the
    text after it is not a number, the next [loadLeaderboard] of the saved
    file does not return: it ends with the exception of [std::stod], which
    nothing catches. *)
Theorem separator_in_name_blocks_load (s : PlayerScore)
  (others : list PlayerScore) (a b : str) (e : exn) :
  name s = a ++ bar :: b -> ~ In bar a -> ~ In bar b ->
  ~ In newline (name s) -> ~ In newline (date s) ->
  size (line_text s) < npos ->
  stod b = Throw e ->
  loadLeaderboard (Some (saveLeaderboard (s :: others))) = Throw e.
Proof.
  intros En Ha Hb Hn Hd Hfit Eb.
  unfold loadLeaderboard, saveLeaderboard. simpl.
  rewrite save_line_text, <- app_assoc. simpl.
  rewrite getlines_line by (apply line_text_newline_free; assumption).
  simpl rev. simpl app at 1.
  assert (L : line_text s
              = a ++ bar :: b ++ bar :: show_double (wpm s)
                  ++ bar :: (show_double (accuracy s)
                  ++ bar :: show_double (time s) ++ bar :: date s
                  ++ bar :: show_int (wordCount s)
                  ++ bar :: show_flag (hasPunctuation s)
                  ++ bar :: show_flag (hasNumbers s))).
  { unfold line_text. rewrite En. regroup. }
  rewrite L in *.
  apply (load_line_bad_wpm a b (show_double (wpm s)) _ e); auto.
  apply plain_text_no, show_double_plain.
Qed.

Lemma separator_in_name_blocks_load_witness :
  getNewPlayerName (keys_of (lit "a|b") ++ [10]) = Some (lit "A|B", []) /\
  loadLeaderboard
    (Some (saveLeaderboard
             [mkScore (lit "A|B") (of_Z 60) (of_Z 100) (of_Z 12)
                (lit "01/02/2025 10:00") 5 false false]))
  = Throw invalid_argument.
Proof.
  split; [reflexivity|].
  apply (separator_in_name_blocks_load _ [] (lit "A") (lit "B"));
    try (vm_compute; reflexivity);
    intros F; vm_compute in F; intuition discriminate.
Defined.

End SeparatorInName.

(** * The comparison that sorts the leaderboard *)

Section OrderFacts.

Import Words.

Lemma tied_ord (a b : PlayerScore) :
  numeric a -> numeric b ->
  (tied a b <->
   ord (wpm a) = ord (wpm b) /\ ord (accuracy a) = ord (accuracy b)).
Proof.
  intros Na Nb. unfold tied.
  rewrite <- !not_true_iff_false.
  rewrite (compareScores_ord a b Na Nb), (compareScores_ord b a Nb Na).
  pose proof (lt3_total (ord (wpm a)) (ord (wpm b))) as T.
  pose proof (lt3_total (ord (accuracy a)) (ord (accuracy b))) as U.
  pose proof (lt3_irrefl (ord (wpm a))) as I.
  pose proof (lt3_irrefl (ord (accuracy a))) as J.
  split.
  - intros [H K]. split.
    + destruct T as [T|[T|T]]; [tauto | exact T | tauto].
    + destruct T as [T|[T|T]]; [tauto | | tauto].
      destruct U as [U|[U|U]]; [| exact U |].
      * exfalso. apply K. right. split; [congruence | exact U].
      * exfalso. apply H. right. split; [exact T | exact U].
  - intros [E F]. rewrite E, F. split; intros [H|[_ H]];
      eapply lt3_irrefl; exact H.
Qed.

(** X15. On records whose WPM and accuracy are numbers, [compareScores] is
    the strict weak ordering [std::sort] requires: no record stands before
    itself, standing before is transitive, and so is being tied. *)
Theorem compareScores_strict_weak (a b c : PlayerScore) :
  numeric a -> numeric b -> numeric c ->
  compareScores a a = false /\
  (compareScores a b = true -> compareScores b c = true ->
   compareScores a c = true) /\
  (tied a b -> tied b c -> tied a c).
Proof.
  intros Na Nb Nc. split; [| split].
  - apply not_true_iff_false. intros K.
    apply (compareScores_ord a a Na Na) in K.
    destruct K as [K|[_ K]]; now apply lt3_irrefl in K.
  - apply compareScores_trans; assumption.
  - rewrite (tied_ord a b Na Nb), (tied_ord b c Nb Nc), (tied_ord a c Na Nc).
    intros [E1 E2] [F1 F2]. split; congruence.
Qed.

Lemma compareScores_strict_weak_witness :
  compareScores (sample_score 50) (sample_score 50) = false /\
  (compareScores (sample_score 50) (sample_score 40) = true ->
   compareScores (sample_score 40) (sample_score 30) = true ->
   compareScores (sample_score 50) (sample_score 30) = true) /\
  (tied (sample_score 50) (sample_score 40) ->
   tied (sample_score 40) (sample_score 30) ->
   tied (sample_score 50) (sample_score 30)).
Proof.
  apply (compareScores_strict_weak (sample_score 50) (sample_score 40)
           (sample_score 30)); split; reflexivity.
Defined.

(** X16. A record whose WPM is not a number is tied with every record,
    those of different rank included: with such a record on the
    leaderboard being tied is not transitive, and [compareScores] is not
    the ordering [std::sort] requires. *)
Theorem nan_wpm_ties_with_all (a b c : PlayerScore) :
  is_nan (wpm b) = true -> tied a b /\ tied b c.
Proof.
  intros H. unfold tied, compareScores, dne, dgt, SFeqb, SFltb.
  destruct (wpm b); try discriminate.
  destruct (wpm a), (wpm c); repeat split; reflexivity.
Qed.

Lemma nan_wpm_ties_with_all_witness :
  let nan := mkScore (lit "NAN") S754_nan (of_Z 100) (of_Z 0)
               (lit "Unknown") 1 false true in
  (tied (sample_score 50) nan /\ tied nan (sample_score 30)) /\
  compareScores (sample_score 50) (sample_score 30) = true.
Proof.
  cbv zeta. split; [| reflexivity].
  apply nan_wpm_ties_with_all. reflexivity.
Defined.

End OrderFacts.

(** * Achievements *)

Section AchievementFacts.

Import Keys Players Achievements Words.

Lemma achievement_text_no_newline (a : Achievement) :
  ~ In newline (id a) -> ~ In newline (achievement_text a).
Proof.
  intros H. unfold achievement_text. apply no_newline_field; [exact H|].
  apply plain_text_no, show_int_plain.
Qed.

Lemma getlines_entries (l : list Achievement) :
  Forall storable_entry l ->
  getlines [] (concat (map achievement_line l)) = map achievement_text l.
Proof.
  induction 1 as [|a l (Hb & Hn & Hs) _ IH]; [reflexivity|].
  simpl. unfold achievement_line at 1.
  replace ((id a ++ bar :: show_int (if unlocked a then 1 else 0) ++ [newline])
           ++ concat (map achievement_line l))
    with (achievement_text a ++ newline :: concat (map achievement_line l))
    by (unfold achievement_text; regroup).
  rewrite getlines_line by (apply achievement_text_no_newline; exact Hn).
  simpl. now rewrite IH.
Qed.

Lemma load_entry_text (i flag : str) (l : list Achievement) :
  ~ In bar i -> size (i ++ bar :: flag) < npos ->
  load_achievement (i ++ bar :: flag) l
  = bind (stoi flag) (fun v => Ok (set_unlocked i (v =? 1) l)).
Proof.
  intros Hb Hfit. set (line := i ++ bar :: flag) in *.
  assert (P1 : find line bar 0 = size i).
  { change 0 with (size []) at 1.
    rewrite <- (wrap_small (size [])) by (rewrite size_nil; lia).
    now rewrite (find_field_at line Hfit [] i flag). }
  assert (S1 : substr line 0 (size i) = Ok i).
  { change 0 with (size []) at 1. apply (substr_field [] i (bar :: flag)). }
  assert (S2 : substr line (wrap (size i + 1)) npos = Ok flag).
  { apply (substr_field_last line Hfit (i ++ [bar]) flag);
      [unfold line; regroup | sizes]. }
  assert (Hsz : size line = size i + 1 + size flag) by (unfold line; sizes).
  assert (B : (size i =? npos) = false) by (apply Z.eqb_neq; sizes).
  clearbody line. unfold load_achievement. cbv zeta.
  rewrite P1, B, S1, S2. reflexivity.
Qed.

Lemma load_achievement_text (a : Achievement) (l : list Achievement) :
  storable_entry a ->
  load_achievement (achievement_text a) l
  = Ok (set_unlocked (id a) (unlocked a) l).
Proof.
  intros (Hb & _ & Hs). unfold achievement_text in *.
  rewrite load_entry_text by assumption.
  destruct (unlocked a); reflexivity.
Qed.

Lemma set_unlocked_at (done rest : list Achievement) (c : Achievement)
  (i : str) (u : bool) :
  ~ In i (map id done) -> id c = i ->
  set_unlocked i u (done ++ c :: rest)
  = done ++ mkAchievement (id c) (name c) (description c) u :: rest.
Proof.
  intros Hd Hc. induction done as [|d done IH]; simpl.
  - rewrite Hc, str_eqb_refl. reflexivity.
  - destruct (str_eqb (id d) i) eqn:E.
    + apply str_eqb_eq in E. exfalso. apply Hd. now left.
    + rewrite IH; [reflexivity|]. intros F. apply Hd. now right.
Qed.

Lemma load_saved_entries (todo : list Achievement) :
  forall done cur : list Achievement,
    Forall2 same_entry cur todo ->
    NoDup (map id (done ++ todo)) ->
    Forall storable_entry todo ->
    load_achievements (map achievement_text todo) (done ++ cur)
    = Ok (done ++ todo).
Proof.
  induction todo as [|a todo IH]; intros done cur F N S.
  - inversion F. reflexivity.
  - inversion F as [|c ? ct ? (E1 & E2 & E3) Ft]; subst.
    inversion S as [|? ? Sa St]; subst.
    simpl. rewrite load_achievement_text by exact Sa.
    rewrite map_app in N. simpl in N.
    pose proof (NoDup_remove_2 _ _ _ N) as Na.
    rewrite set_unlocked_at.
    + cbn [bind].
      replace (mkAchievement (id c) (name c) (description c) (unlocked a))
        with a by (destruct a; simpl in *; subst; reflexivity).
      replace (done ++ a :: ct) with ((done ++ [a]) ++ ct)
        by (rewrite <- app_assoc; reflexivity).
      rewrite IH; [now rewrite <- app_assoc | exact Ft | | exact St].
      rewrite <- app_assoc, map_app. exact N.
    + intros X. apply Na. apply in_or_app. now left.
    + exact E1.
Qed.

(** X17. What [saveAchievements] writes, [loadAchievements] reads back: for
    entries with distinct identifiers that hold neither separator nor
    newline and a colour without newline, loading the saved text over the
    same entries in any state of unlocking gives the saved globals. *)
Theorem achievements_round_trip (g g0 : Globals) :
  Forall2 same_entry (achievements g0) (achievements g) ->
  NoDup (map id (achievements g)) ->
  Forall storable_entry (achievements g) ->
  ~ In newline (equippedWormColor g) ->
  loadAchievements (Some (saveAchievements g)) g0 = Ok g.
Proof.
  intros F N S C. unfold loadAchievements, saveAchievements.
  rewrite getlines_line by exact C. simpl rev. simpl app.
  rewrite getlines_entries by exact S.
  pose proof (load_saved_entries (achievements g) [] (achievements g0) F N S)
    as L.
  change ([] ++ achievements g0) with (achievements g0) in L.
  change ([] ++ achievements g) with (achievements g) in L.
  rewrite L. destruct g; reflexivity.
Qed.

Lemma achievements_round_trip_witness :
  let g :=
    mkGlobals
      [mkAchievement pink_worm (lit "red!worm?pink!worm?")
         (lit "Achieve 60+ WPM to unlock the pink worm variant!") true]
      (lit "pink") in
  saveAchievements g = lit "pink" ++ newline :: lit "pink_worm|1" ++ [newline]
  /\ loadAchievements (Some (saveAchievements g))
       (initializeAchievements (mkGlobals [] (lit "default"))) = Ok g.
Proof.
  cbv zeta. split; [reflexivity|].
  apply achievements_round_trip.
  - repeat constructor.
  - repeat constructor. simpl. tauto.
  - repeat constructor; try (vm_compute; reflexivity);
      intros F; vm_compute in F; intuition discriminate.
  - intros F; vm_compute in F; intuition discriminate.
Defined.

(** X18. No conversion in [loadAchievements] is guarded: when the text
    after the separator of an achievement line is not a number, the load
    ends with the exception of [std::stoi], whatever follows in the
    file. *)
Theorem achievements_bad_flag (colour i flag rest : str) (e : exn)
  (g : Globals) :
  ~ In newline colour -> ~ In newline (i ++ bar :: flag) -> ~ In bar i ->
  size (i ++ bar :: flag) < npos ->
  stoi flag = Throw e ->
  loadAchievements
    (Some (colour ++ newline :: (i ++ bar :: flag) ++ newline :: rest)) g
  = Throw e.
Proof.
  intros C L Hb Hfit E. unfold loadAchievements.
  rewrite getlines_line by exact C. simpl rev. simpl app at 1.
  rewrite getlines_line by exact L. simpl rev. simpl app at 1.
  cbn [load_achievements].
  rewrite load_entry_text by assumption. rewrite E. reflexivity.
Qed.

Lemma achievements_bad_flag_witness :
  loadAchievements
    (Some (lit "default" ++ newline :: (lit "pink_worm" ++ bar :: lit "yes")
             ++ newline :: lit "other|1"))
    (initializeAchievements (mkGlobals [] (lit "default")))
  = Throw invalid_argument.
Proof.
  apply achievements_bad_flag; try (vm_compute; reflexivity);
    intros F; vm_compute in F; intuition discriminate.
Defined.

Lemma kept_refl (l : list Achievement) : Forall2 kept l l.
Proof.
  induction l; constructor; auto. repeat split; auto.
Qed.

Lemma unlock_pink_facts (wpm : double) (l : list Achievement) :
  Forall2 kept l (fst (unlock_pink wpm l)) /\
  (snd (unlock_pink wpm l) = false -> fst (unlock_pink wpm l) = l) /\
  (dge wpm (of_Z 60) = false -> snd (unlock_pink wpm l) = false) /\
  pink_unlocked (fst (unlock_pink wpm l))
  = pink_unlocked l || (dge wpm (of_Z 60) && listed pink_worm l).
Proof.
  induction l as [|a l (IH1 & IH2 & IH3 & IH4)].
  - cbn -[of_Z dge]. repeat split; auto. now rewrite andb_false_r.
  - cbn [unlock_pink].
    destruct (str_eqb (id a) pink_worm && negb (unlocked a)
              && dge wpm (of_Z 60)) eqn:C.
    + apply andb_true_iff in C as [C C3].
      apply andb_true_iff in C as [C1 C2].
      cbn [fst snd]. split; [| split; [| split]].
      * constructor; [repeat split; auto | apply kept_refl].
      * discriminate.
      * intros H. congruence.
      * cbn [pink_unlocked listed existsb id unlocked].
        rewrite C1, C3. cbn [andb orb]. now rewrite orb_true_r.
    + destruct (unlock_pink wpm l) as [l' b]. cbn [fst snd] in *.
      split; [| split; [| split]].
      * constructor; [repeat split; auto | exact IH1].
      * intros H. now rewrite (IH2 H).
      * exact IH3.
      * cbn [pink_unlocked listed existsb]. rewrite IH4.
        fold (listed pink_worm l).
        destruct (str_eqb (id a) pink_worm), (unlocked a),
          (dge wpm (of_Z 60)), (pink_unlocked l), (listed pink_worm l);
          try reflexivity; discriminate C.
Qed.

(** X19. [checkAchievements] never locks an entry and leaves the colour
    alone. Afterwards the pink worm is unlocked exactly when it was
    before, or when the WPM is at least 60 and the entry is listed; a WPM
    that is below 60 or not a number changes nothing. The file is written
    when an entry was unlocked, with the new state, and when it is not
    written nothing has changed. *)
Theorem check_achievements_effect (wpm : double) (g : Globals) :
  let g' := fst (checkAchievements wpm g) in
  let file := snd (checkAchievements wpm g) in
  equippedWormColor g' = equippedWormColor g /\
  Forall2 kept (achievements g) (achievements g') /\
  (file = None -> g' = g) /\
  (forall t, file = Some t -> t = saveAchievements g') /\
  (dge wpm (of_Z 60) = false -> file = None) /\
  pink_unlocked (achievements g')
  = pink_unlocked (achievements g)
    || (dge wpm (of_Z 60) && listed pink_worm (achievements g)).
Proof.
  cbv zeta. unfold checkAchievements.
  destruct (unlock_pink_facts wpm (achievements g)) as (F1 & F2 & F3 & F4).
  destruct (unlock_pink wpm (achievements g)) as [l b]. simpl in *.
  repeat split; auto.
  - destruct b; [discriminate|]. intros _. rewrite F2 by reflexivity.
    destruct g; reflexivity.
  - destruct b; [| discriminate]. intros t H. injection H as <-. reflexivity.
  - intros H. rewrite (F3 H). reflexivity.
Qed.

Lemma closet_loop_facts (keys : list Z) :
  forall (g g' : Globals) (choice : Z) (saved saved' : option str)
         (rest : list Z),
    closet_loop g choice saved keys = Some (g', saved', rest) ->
    achievements g' = achievements g /\
    (equippedWormColor g' = equippedWormColor g \/
     equippedWormColor g' = lit "default" \/
     (equippedWormColor g' = lit "pink" /\
      pink_unlocked (achievements g) = true)) /\
    ((saved' = saved /\ g' = g) \/ saved' = Some (saveAchievements g')).
Proof.
  induction keys as [|ch keys IH]; intros g g' choice saved saved' rest;
    [discriminate|].
  cbn [closet_loop].
  destruct (ch =? ERR); [apply IH|].
  destruct (is_up ch && (3 <=? choice)); [apply IH|].
  destruct (is_down ch && (choice <? 6)); [apply IH|].
  destruct (is_left ch && (0 <? Z.rem choice 3)); [apply IH|].
  destruct (is_right ch && (Z.rem choice 3 <? 2)); [apply IH|].
  destruct (is_enter ch).
  { destruct (choice =? 0).
    - destruct (pink_unlocked (achievements g)) eqn:P;
        [| intros H; apply IH in H; rewrite P in H; exact H].
      intros H. apply IH in H. simpl in H.
      destruct H as (A & C & S). split; [exact A|]. split.
      + destruct C as [C|[C|[C _]]]; auto.
      + right. destruct S as [[S ->]|S]; exact S.
    - destruct (choice =? 1); [| apply IH].
      intros H. apply IH in H. simpl in H.
      destruct H as (A & C & S). split; [exact A|]. split.
      + destruct C as [C|[C|[C D]]]; auto.
      + right. destruct S as [[S ->]|S]; exact S. }
  destruct (is_quit ch); [| apply IH].
  intros H. injection H as <- <- <-. auto.
Qed.

(** X20. [showWormCloset] changes no achievement. The colour it leaves is
    the one it found, "default", or "pink", and "pink" only when the pink
    worm is unlocked. Whenever it changed the colour it wrote the file,
    and what it wrote last is the state it returns. *)
Theorem closet_equips_unlocked_only (g g' : Globals) (keys rest : list Z)
  (saved : option str) :
  showWormCloset g keys = Some (g', saved, rest) ->
  achievements g' = achievements g /\
  (equippedWormColor g' = equippedWormColor g \/
   equippedWormColor g' = lit "default" \/
   (equippedWormColor g' = lit "pink" /\
    pink_unlocked (achievements g) = true)) /\
  ((saved = None /\ g' = g) \/ saved = Some (saveAchievements g')).
Proof. apply closet_loop_facts. Qed.

Lemma closet_equips_unlocked_only_witness :
  let g := initializeAchievements (mkGlobals [] (lit "default")) in
  showWormCloset g [10; KEY_RIGHT; 10; 113] =
    Some (g, Some (saveAchievements g), []) /\
  (achievements g = achievements g /\
   (equippedWormColor g = equippedWormColor g \/
    equippedWormColor g = lit "default" \/
    (equippedWormColor g = lit "pink" /\
     pink_unlocked (achievements g) = true)) /\
   ((Some (saveAchievements g) = None /\ g = g) \/
    Some (saveAchievements g) = Some (saveAchievements g))).
Proof.
  cbv zeta. split; [reflexivity|].
  apply (closet_equips_unlocked_only _ _ [10; KEY_RIGHT; 10; 113] []).
  reflexivity.
Defined.

End AchievementFacts.

(** * The characters of the target *)

Section AlphabetFacts.

Import Words.

(** Every character of a generated text is a space or a character of a
    token of the pool. *)
Lemma generate_chars (P : ascii -> bool) (wordCount : Z) (p n : bool)
  (rand : nat -> nat) (k : nat) :
  forallb (forallb P) (pool p n) = true -> P space = true ->
  forallb P (generate wordCount p n rand k) = true.
Proof.
  intros Hp Hs. unfold generate. rewrite generate_loop_join.
  apply forallb_forall. intros c Hc.
  apply join_chars in Hc. destruct Hc as [->|(t & Ht & Hc)]; [exact Hs|].
  pose proof (picks_in_pool (pool p n) (pool_not_empty p n) rand
                (Z.to_nat wordCount) k) as I.
  rewrite Forall_forall in I. apply I in Ht.
  rewrite forallb_forall in Hp. apply Hp in Ht.
  rewrite forallb_forall in Ht. now apply Ht.
Qed.

Lemma generated_typable (wordCount : Z) (p n : bool) (rand : nat -> nat)
  (k : nat) :
  forallb typable (generate wordCount p n rand k) = true.
Proof.
  apply generate_chars; [| reflexivity].
  destruct p, n; vm_compute; reflexivity.
Qed.

(** X21. In the numbers-only mode the text to type holds digits and spaces
    only, and with both options off lower-case letters and spaces only;
    in every mode each of its characters is one a key of the typing test
    can enter. *)
Theorem mode_alphabet (wordCount : Z) (rand : nat -> nat) (k : nat) :
  forallb digit_or_space (generate wordCount false true rand k) = true /\
  forallb lower_or_space (generate wordCount false false rand k) = true /\
  forall p n, forallb typable (generate wordCount p n rand k) = true.
Proof.
  split; [| split].
  - apply generate_chars; vm_compute; reflexivity.
  - apply generate_chars; vm_compute; reflexivity.
  - intros p n. apply generated_typable.
Qed.

End AlphabetFacts.

(** * Typing the text as it stands *)

Section TypingFacts.

Import Words.

Variable cfg : Config.
Variable rand : nat -> nat.

Lemma count_correct_same (t : str) : count_correct t t = size t.
Proof using Type.
  induction t as [|c t IH]; [reflexivity|]. simpl.
  rewrite Ascii.eqb_refl, IH, size_cons. reflexivity.
Qed.

Lemma typable_key (c : ascii) :
  typable c = true ->
  32 <= code c <= 126 /\ (code c = 32 -> c = space).
Proof using Type.
  unfold typable. intros H. split; [lia|].
  intros E. rewrite <- (chr_code c), E. reflexivity.
Qed.

(** The key of the character the target holds next is accepted, and the
    clock runs from the first such key. *)
Lemma handle_key_next (now : Z) (c : ascii) (s : State) :
  size (typed s) < size (target s) ->
  at_ (target s) (size (typed s)) = c -> typable c = true ->
  let s' := handle_key cfg rand now (code c) s in
  target s' = target s /\ typed s' = typed s ++ [c] /\
  started s' = true /\
  start_time s' = (if started s then start_time s else now).
Proof using Type.
  intros Hlt Hat Hc. destruct (typable_key c Hc) as [R Sp].
  cbv zeta. unfold handle_key.
  replace ((code c =? KEY_BACKSPACE) || (code c =? 127) || (code c =? 8))
    with false by (unfold KEY_BACKSPACE; lia).
  destruct (Z.eqb_spec (code c) 32) as [E|N].
  - specialize (Sp E). unfold space_key.
    destruct (Z.ltb_spec (size (typed s)) (size (target s))) as [_|F]; [|lia].
    rewrite !target_start_timer, !typed_start_timer.
    destruct (Z.ltb_spec (size (typed s)) (size (target s))) as [_|F]; [|lia].
    rewrite Hat, Sp, Ascii.eqb_refl. cbn [negb andb].
    unfold set_typed, start_timer.
    destruct (started s) eqn:St; simpl; rewrite ?St; auto.
  - replace ((33 <=? code c) && (code c <=? 126)) with true by lia.
    unfold printable_key.
    destruct (Z.ltb_spec (size (typed s)) (size (target s))) as [_|F]; [|lia].
    rewrite chr_code.
    unfold set_typed, start_timer.
    destruct (started s) eqn:St; simpl; rewrite ?St; auto.
Qed.

Lemma play_rest (post : str) :
  forall (times : list Z) (pre : str) (s : State),
    post <> [] -> length times = length post ->
    target s = pre ++ post -> typed s = pre ->
    forallb typable post = true ->
    let r := play cfg rand (combine times (keys_of post)) s in
    snd r = true /\ target (fst r) = target s /\
    typed (fst r) = target s /\ started (fst r) = true /\
    start_time (fst r) = (if started s then start_time s else hd 0 times).
Proof using Type.
  induction post as [|c post IH]; intros times pre s Hne Hlen Ht Hty Hok;
    [contradiction|].
  destruct times as [|now times]; [discriminate|].
  simpl in Hlen. injection Hlen as Hlen.
  simpl in Hok. apply andb_true_iff in Hok as [Hc Hok].
  assert (Hlt : size (typed s) < size (target s)).
  { rewrite Ht, Hty, size_app, size_cons. pose proof (size_nonneg post). lia. }
  assert (Hat : at_ (target s) (size (typed s)) = c).
  { rewrite Ht, Hty. unfold at_, size. rewrite Nat2Z.id.
    rewrite app_nth2, Nat.sub_diag by lia. reflexivity. }
  destruct (handle_key_next now c s Hlt Hat Hc) as (T1 & T2 & T3 & T4).
  cbv zeta. cbn [keys_of map combine play].
  replace (code c =? 27) with false
    by (destruct (typable_key c Hc); lia).
  set (s1 := handle_key cfg rand now (code c) s) in *.
  unfold complete. rewrite T1, T2, Ht, Hty.
  destruct post as [|d post].
  - replace (size (pre ++ [c]) =? size (pre ++ [c])) with true
      by (symmetry; apply Z.eqb_refl).
    cbn [fst snd]. rewrite T1, T2, T4, Ht, Hty. auto.
  - replace (size (pre ++ [c]) =? size (pre ++ c :: d :: post)) with false
      by (symmetry; apply Z.eqb_neq; sizes).
    destruct (IH times (pre ++ [c]) s1) as (R1 & R2 & R3 & R4 & R5).
    + discriminate.
    + exact Hlen.
    + rewrite T1, Ht, <- app_assoc. reflexivity.
    + rewrite T2, Hty. reflexivity.
    + exact Hok.
    + cbv zeta in *. unfold keys_of in *.
      rewrite R1, R2, R3, R4, R5, T1, T3, T4, Ht.
      cbn [hd]. auto.
Qed.

(** X22. Typing the characters of the target one after the other, spaces
    included, completes the test with the last of them and not before: the
    loop then holds the target as the typed text, every character counts
    as correct, and the clock has run from the time of the first key. *)
Theorem typing_the_target_completes (k : nat) (times : list Z) :
  valid_config cfg ->
  length times = length (new_target cfg rand k) ->
  let r := play cfg rand (combine times (keys_of (new_target cfg rand k)))
             (start cfg rand k) in
  snd r = true /\
  target (fst r) = new_target cfg rand k /\
  typed (fst r) = new_target cfg rand k /\
  count_correct (typed (fst r)) (target (fst r))
  = size (new_target cfg rand k) /\
  started (fst r) = true /\ start_time (fst r) = hd 0 times.
Proof using Type.
  intros V Hlen.
  destruct (new_target_facts cfg rand k V) as (_ & _ & Hpos).
  destruct (play_rest (new_target cfg rand k) times [] (start cfg rand k))
    as (R1 & R2 & R3 & R4 & R5); auto.
  - intros E. rewrite E in Hpos. unfold size in Hpos. simpl in Hpos. lia.
  - unfold new_target. apply generated_typable.
  - cbv zeta in *. simpl in R2, R3, R5.
    rewrite R1, R2, R3, R4, R5, count_correct_same.
    repeat split; reflexivity.
Qed.

End TypingFacts.

Lemma typing_the_target_completes_witness :
  let cfg := mkConfig 2 false true in
  let rnd := fun k : nat => (k + 7)%nat in
  new_target cfg rnd 0 = lit "7 8" /\
  Words.play cfg rnd [(100, 55); (101, 32); (103, 56)] (start cfg rnd 0)
  = (mkState (lit "7 8") (lit "7 8") 100 true npos false 2, true).
Proof.
  cbv zeta. split; [reflexivity|].
  destruct (typing_the_target_completes (mkConfig 2 false true)
              (fun k : nat => (k + 7)%nat) 0 [100; 101; 103])
    as (R1 & _); [unfold valid_config; simpl; lia | reflexivity |].
  vm_compute. reflexivity.
Defined.

(** * The clock and the score of a skip *)

Section ClockFacts.

Import Keys Words.

Variable cfg : Config.
Variable rand : nat -> nat.

Lemma started_set_typed (s : State) (t : str) (j : Z) (h : bool) :
  started (set_typed s t j h) = started s /\
  start_time (set_typed s t j h) = start_time s /\
  typed (set_typed s t j h) = t.
Proof using Type. repeat split. Qed.

Lemma started_backspace (s : State) :
  started (backspace s) = started s /\
  start_time (backspace s) = start_time s.
Proof using Type.
  unfold backspace.
  destruct (has_jumped s && (jumped_from_pos s <? size (typed s)));
    [split; reflexivity|].
  destruct (negb (size (typed s) =? 0)); split; reflexivity.
Qed.

Lemma start_timer_clock (now : Z) (s : State) :
  started (start_timer now s) = true /\
  start_time (start_timer now s)
  = (if started s then start_time s else now).
Proof using Type.
  unfold start_timer. destruct (started s) eqn:E; simpl; auto.
Qed.

(** The space key where the text goes on: the text grows and the clock
    runs. *)
Lemma space_key_clock (now : Z) (s : State) :
  size (target s) < npos -> size (typed s) < size (target s) ->
  let s' := space_key now s in
  size (typed s) < size (typed s') /\ started s' = true /\
  start_time s' = (if started s then start_time s else now).
Proof using Type.
  intros Hfit Hlt.
  destruct (Ascii.eqb_spec (at_ (target s) (size (typed s))) space) as [E|N].
  - cbv zeta. unfold space_key.
    destruct (Z.ltb_spec (size (typed s)) (size (target s))) as [_|F]; [|lia].
    rewrite !target_start_timer, !typed_start_timer.
    destruct (Z.ltb_spec (size (typed s)) (size (target s))) as [_|F]; [|lia].
    rewrite E, Ascii.eqb_refl. cbn [negb andb].
    destruct (start_timer_clock now s) as [A B].
    cbn [set_typed typed started start_time]. rewrite A, B.
    rewrite size_app, size_cons, size_nil. repeat split; lia.
  - pose proof (size_nonneg (typed s)) as H0.
    destruct (space_key_skip now s Hfit Hlt N) as (_ & _ & _ & Sz & _).
    destruct (next_word_pos_spec (target s) (size (typed s)) Hfit
                (conj H0 Hlt) N) as (Bn & _).
    cbv zeta in *. rewrite Sz. split; [lia|].
    unfold space_key.
    destruct (Z.ltb_spec (size (typed s)) (size (target s))) as [_|F]; [|lia].
    rewrite !target_start_timer, !typed_start_timer.
    destruct (_ && _); cbn [set_typed started start_time];
      apply start_timer_clock.
Qed.

(** X23. The clock of a test starts with the first key that makes the typed
    text longer (a character, or a space with or without a skip) and at
    the time of that key; a backspace or any other key does not start it.
    Once it runs, no key but Enter, which restarts the test, stops or
    resets it. *)
Theorem clock_starts_with_first_character (now ch : Z) (s : State) :
  size (target s) < npos ->
  let s' := handle_key cfg rand now ch s in
  (started s = true -> is_enter ch = false ->
   started s' = true /\ start_time s' = start_time s) /\
  (started s = false ->
   (started s' = true <-> size (typed s) < size (typed s')) /\
   (started s' = true -> start_time s' = now)).
Proof using Type.
  intros Hfit. cbv zeta. unfold handle_key.
  pose proof (size_nonneg (typed s)) as H0.
  destruct ((ch =? KEY_BACKSPACE) || (ch =? 127) || (ch =? 8)) eqn:B.
  { destruct (started_backspace s) as [A1 A2].
    destruct (backspace_bounded s) as [_ A3].
    rewrite A1, A2. split; [auto|]. intros St. rewrite St.
    split; [split; [discriminate | lia] | discriminate]. }
  destruct (Z.eqb_spec ch 32) as [E32|N32].
  { destruct (Z.ltb_spec (size (typed s)) (size (target s))) as [L|L].
    - destruct (space_key_clock now s Hfit L) as (G & A1 & A2).
      cbv zeta in *. rewrite A1, A2. split.
      + intros St _. rewrite St. auto.
      + intros St. rewrite St. repeat split; auto.
    - unfold space_key.
      destruct (Z.ltb_spec (size (typed s)) (size (target s))) as [F|_];
        [lia|].
      split; [auto|]. intros St. rewrite St.
      split; [split; [discriminate | lia] | discriminate]. }
  destruct ((33 <=? ch) && (ch <=? 126)) eqn:P.
  { unfold printable_key.
    destruct (Z.ltb_spec (size (typed s)) (size (target s))) as [L|L].
    - destruct (start_timer_clock now s) as [A1 A2].
      cbn [set_typed typed started start_time].
      rewrite A1, A2, typed_start_timer, size_app, size_cons, size_nil.
      split.
      + intros St _. rewrite St. auto.
      + intros St. rewrite St. repeat split; auto; lia.
    - split; [auto|]. intros St. rewrite St.
      split; [split; [discriminate | lia] | discriminate]. }
  fold (is_enter ch). destruct (is_enter ch).
  { unfold restart. cbn [typed started start_time].
    split; [discriminate|]. intros St.
    split; [split; [discriminate | rewrite size_nil; lia] | discriminate]. }
  split; [auto|]. intros St. rewrite St.
  split; [split; [discriminate | lia] | discriminate].
Qed.

Lemma count_correct_app (a a' b b' : str) :
  length a = length a' ->
  count_correct (a ++ b) (a' ++ b')
  = count_correct a a' + count_correct b b'.
Proof using Type.
  revert a'; induction a as [|x a IH]; intros [|y a'] H; try discriminate.
  - reflexivity.
  - simpl. injection H as H. rewrite (IH a' H). lia.
Qed.

Lemma count_correct_nil (b : str) : count_correct [] b = 0.
Proof using Type. reflexivity. Qed.

Lemma count_correct_marks (seg rest : str) :
  ~ In underscore seg ->
  count_correct (map mark seg) (seg ++ rest) = spaces seg.
Proof using Type.
  unfold spaces. induction seg as [|c seg IH]; intros H; [reflexivity|].
  simpl. rewrite IH by (intros F; apply H; now right).
  unfold mark.
  destruct (Ascii.eqb_spec c space) as [->|N].
  - rewrite Ascii.eqb_refl.
    destruct (ascii_dec space space) as [_|F]; [lia | contradiction].
  - destruct (Ascii.eqb_spec underscore c) as [<-|_];
      [exfalso; apply H; now left|].
    destruct (ascii_dec c space) as [F|_]; [contradiction | lia].
Qed.

(** X24. A skip is scored by the spaces it passes over: after the space key
    inside a word, the number of correct characters has grown by the
    number of spaces between the position left and the next word, and by
    nothing for the letters skipped. *)
Theorem skip_scores_spaces_only (now : Z) (s : State) :
  size (target s) < npos ->
  size (typed s) < size (target s) ->
  at_ (target s) (size (typed s)) <> space ->
  ~ In underscore (target s) ->
  let s' := space_key now s in
  let next := next_word_pos (target s) (size (typed s)) in
  count_correct (typed s') (target s')
  = count_correct (typed s) (target s)
    + spaces (skipped (target s) (size (typed s)) next).
Proof using Type.
  intros Hfit Hlt Hmid Hu.
  destruct (space_key_skip now s Hfit Hlt Hmid) as (T & _ & _ & _ & Ty).
  cbv zeta in *. rewrite T, Ty. unfold skipped.
  set (from := Z.to_nat (size (typed s))).
  set (n := Z.to_nat (next_word_pos (target s) (size (typed s))
                      - size (typed s))).
  set (seg := firstn n (skipn from (target s))).
  assert (D : target s
              = firstn from (target s) ++ seg ++ skipn n (skipn from (target s))).
  { unfold seg. now rewrite firstn_skipn, firstn_skipn. }
  assert (L : length (typed s) = length (firstn from (target s))).
  { rewrite length_firstn. unfold from, size in *. lia. }
  assert (U : ~ In underscore seg).
  { intros F. apply Hu. rewrite D. apply in_or_app. right.
    apply in_or_app. now left. }
  assert (G : forall t pre rest : str,
               t = pre ++ seg ++ rest -> length (typed s) = length pre ->
               count_correct (typed s ++ map mark seg) t
               = count_correct (typed s) t + spaces seg).
  { intros t pre rest -> L'.
    rewrite (count_correct_app (typed s) pre (map mark seg) _ L').
    rewrite (count_correct_marks seg rest U).
    rewrite <- (app_nil_r (typed s)) at 2.
    rewrite (count_correct_app (typed s) pre [] _ L'), count_correct_nil.
    lia. }
  exact (G _ _ _ D L).
Qed.

End ClockFacts.

Lemma clock_starts_with_first_character_witness :
  let cfg := mkConfig 2 false true in
  let rnd := fun k : nat => (k + 7)%nat in
  let s := start cfg rnd 0 in
  let s' := handle_key cfg rnd 100 55 s in
  (started s = true -> Keys.is_enter 55 = false ->
   started s' = true /\ start_time s' = start_time s) /\
  (started s = false ->
   (started s' = true <-> size (typed s) < size (typed s')) /\
   (started s' = true -> start_time s' = 100)).
Proof.
  cbv zeta.
  apply (clock_starts_with_first_character (mkConfig 2 false true)
           (fun k : nat => (k + 7)%nat) 100 55).
  vm_compute. reflexivity.
Defined.

Lemma skip_scores_spaces_only_witness :
  let s := mkState (lit "12 345 6") (lit "1") 100 true npos false 3 in
  typed (space_key 101 s) = lit "1_ " /\
  count_correct (typed (space_key 101 s)) (target (space_key 101 s))
  = count_correct (typed s) (target s)
    + Words.spaces
        (Words.skipped (target s) (size (typed s))
           (next_word_pos (target s) (size (typed s)))).
Proof.
  cbv zeta. split; [reflexivity|].
  apply (skip_scores_spaces_only 101
           (mkState (lit "12 345 6") (lit "1") 100 true npos false 3));
    try (vm_compute; reflexivity);
    intros F; vm_compute in F; intuition discriminate.
Defined.

(** * The leaderboard screen and the start of the program *)

Section ScreenFacts.

Import Keys Players Achievements Screens Words.

Lemma showLeaderboard_cases (n : nat) :
  forall (leaderboard lb' : list PlayerScore) (keys rest : list Z)
         (code : Z) (file : option str),
    (length keys <= n)%nat ->
    showLeaderboard leaderboard keys = Some (code, lb', file, rest) ->
    ((code = 1 /\ lb' = [] /\ file = Some [] /\
      exists pre c y,
        keys = pre ++ c :: y :: rest /\
        is_letter 99 67 c = true /\ is_letter 121 89 y = true) \/
     ((code = 0 \/ code = 2 \/ code = 3) /\ lb' = leaderboard /\
      file = None)) /\
    (length rest < length keys)%nat.
Proof.
  induction n as [|n IH]; intros leaderboard lb' keys rest code file Hn;
    (destruct keys as [|ch keys]; [discriminate|]); simpl in Hn; [lia|].
  cbn [showLeaderboard].
  destruct (ch =? ERR).
  { intros H. apply IH in H; [| lia]. destruct H as [H L].
    split; [| simpl; lia].
    destruct H as [(H1 & H2 & H3 & pre & c & y & E & Hc & Hy)|H];
      [left | right; exact H].
    repeat split; auto. exists (ch :: pre), c, y. rewrite E. auto. }
  destruct (is_letter 99 67 ch) eqn:C.
  { destruct keys as [|confirm keys]; [discriminate|].
    destruct (is_letter 121 89 confirm) eqn:Y.
    - intros H. injection H as <- <- <- <-. split; [| simpl; lia].
      left. repeat split. exists [], ch, confirm. auto.
    - intros H. apply IH in H; [| simpl in Hn; lia]. destruct H as [H L].
      split; [| simpl; lia].
      destruct H as [(H1 & H2 & H3 & pre & c & y & E & Hc & Hy)|H];
        [left | right; exact H].
      repeat split; auto. exists (ch :: confirm :: pre), c, y.
      rewrite E. auto. }
  destruct (is_letter 110 78 ch).
  { intros H. injection H as <- <- <- <-. split; [| simpl; lia].
    right. repeat split. auto. }
  destruct (is_letter 119 87 ch).
  { intros H. injection H as <- <- <- <-. split; [| simpl; lia].
    right. repeat split. auto. }
  intros H. injection H as <- <- <- <-. split; [| simpl; lia].
  right. repeat split. auto.
Qed.

(** X25. [showLeaderboard] either leaves the leaderboard as it is and writes
    nothing (codes 0, 2 and 3), or empties it and writes an empty file
    (code 1), and this only when the last two keys it read are 'C' and,
    to confirm, 'Y'. *)
Theorem leaderboard_cleared_on_confirmation_only
  (leaderboard lb' : list PlayerScore) (keys rest : list Z) (code : Z)
  (file : option str) :
  showLeaderboard leaderboard keys = Some (code, lb', file, rest) ->
  (code = 1 /\ lb' = [] /\ file = Some [] /\
   exists pre c y,
     keys = pre ++ c :: y :: rest /\
     is_letter 99 67 c = true /\ is_letter 121 89 y = true) \/
  ((code = 0 \/ code = 2 \/ code = 3) /\ lb' = leaderboard /\ file = None).
Proof.
  intros H.
  apply (showLeaderboard_cases (length keys)) in H; [| lia].
  apply H.
Qed.

Lemma leaderboard_cleared_on_confirmation_only_witness :
  showLeaderboard sample_board [ERR; 99; 110; 67; 89; 32]
  = Some (1, [], Some [], [32]) /\
  ((1 = 1 /\ ([] : list PlayerScore) = [] /\ Some [] = Some ([] : str) /\
    exists pre c y,
      [ERR; 99; 110; 67; 89; 32] = pre ++ c :: y :: [32] /\
      is_letter 99 67 c = true /\ is_letter 121 89 y = true) \/
   ((1 = 0 \/ 1 = 2 \/ 1 = 3) /\ [] = sample_board /\
    Some ([] : str) = None)).
Proof.
  split; [reflexivity|].
  apply (leaderboard_cleared_on_confirmation_only sample_board []
           [ERR; 99; 110; 67; 89; 32] [32] 1 (Some [])).
  reflexivity.
Defined.

Lemma selection_loop_rest (names : list str) (keys : list Z) :
  forall (choice : Z) (r : str) (rest : list Z),
    selection_loop names choice keys = Some (r, rest) ->
    (length rest < length keys)%nat.
Proof.
  induction keys as [|ch keys IH]; intros choice r rest; [discriminate|].
  cbn [selection_loop].
  assert (Step : forall c, selection_loop names c keys = Some (r, rest) ->
                           (length rest < length (ch :: keys))%nat).
  { intros c H. apply IH in H. simpl. lia. }
  destruct (is_letter 119 87 ch).
  { intros H. injection H as <- <-. simpl. lia. }
  destruct ((ch =? KEY_UP) && (0 <? choice)); [apply Step|].
  destruct (is_down ch && (choice <? Z.of_nat (length names)));
    [apply Step|].
  destruct (is_enter ch).
  { destruct (choice <? Z.of_nat (length names)).
    - intros H. injection H as <- <-. simpl. lia.
    - destruct (choice =? Z.of_nat (length names)); [| apply Step].
      intros H. injection H as <- <-. simpl. lia. }
  destruct (is_quit ch); [| apply Step].
  intros H. injection H as <- <-. simpl. lia.
Qed.

Lemma new_name_loop_rest (keys : list Z) :
  forall (name r : str) (rest : list Z),
    new_name_loop name keys = Some (r, rest) ->
    (length rest < length keys)%nat.
Proof.
  induction keys as [|ch keys IH]; intros name r rest; [discriminate|].
  cbn [new_name_loop].
  assert (Step : forall n, new_name_loop n keys = Some (r, rest) ->
                           (length rest < length (ch :: keys))%nat).
  { intros n H. apply IH in H. simpl. lia. }
  destruct (is_enter ch && negb (size name =? 0)).
  { intros H. injection H as <- <-. simpl. lia. }
  destruct (is_quit ch).
  { intros H. injection H as <- <-. simpl. lia. }
  destruct (is_backspace ch); [apply Step|].
  destruct ((32 <=? ch) && (ch <=? 126) && (size name <? 20)); apply Step.
Qed.

Lemma getPlayerName_rest (leaderboard : list PlayerScore)
  (keys rest : list Z) (r : str) :
  getPlayerName leaderboard keys = Some (r, rest) ->
  (length rest < length keys)%nat.
Proof.
  unfold getPlayerName, getNewPlayerName, showNameSelectionMenu.
  destruct (getUniquePlayerNames leaderboard) as [|u us].
  - apply new_name_loop_rest.
  - destruct (selection_loop (u :: us) 0 keys) as [[sel rest0]|] eqn:S;
      [| discriminate].
    apply selection_loop_rest in S.
    destruct (str_eqb sel (lit "CANCEL")).
    { intros H. injection H as <- <-. exact S. }
    destruct (str_eqb sel []).
    { intros H. apply new_name_loop_rest in H. lia. }
    intros H. injection H as <- <-. exact S.
Qed.

Lemma closet_loop_rest (keys : list Z) :
  forall (g g' : Globals) (choice : Z) (saved saved' : option str)
         (rest : list Z),
    closet_loop g choice saved keys = Some (g', saved', rest) ->
    (length rest < length keys)%nat.
Proof.
  induction keys as [|ch keys IH]; intros g g' choice saved saved' rest;
    [discriminate|].
  cbn [closet_loop].
  assert (Step : forall g0 c s0,
             closet_loop g0 c s0 keys = Some (g', saved', rest) ->
             (length rest < length (ch :: keys))%nat).
  { intros g0 c s0 H. apply IH in H. simpl. lia. }
  destruct (ch =? ERR); [apply Step|].
  destruct (is_up ch && (3 <=? choice)); [apply Step|].
  destruct (is_down ch && (choice <? 6)); [apply Step|].
  destruct (is_left ch && (0 <? Z.rem choice 3)); [apply Step|].
  destruct (is_right ch && (Z.rem choice 3 <? 2)); [apply Step|].
  destruct (is_enter ch).
  { destruct (choice =? 0).
    - destruct (pink_unlocked (achievements g)); apply Step.
    - destruct (choice =? 1); apply Step. }
  destruct (is_quit ch); [| apply Step].
  intros H. injection H as <- <- <-. simpl. lia.
Qed.

(** As many rounds as there are keys is all the choice of the player can
    run: more fuel changes nothing. *)
Lemma choose_player_fuel (f1 : nat) :
  forall (f2 : nat) (leaderboard : list PlayerScore) (g : Globals)
         (keys : list Z),
    (length keys <= f1)%nat -> (length keys <= f2)%nat ->
    choose_player f1 leaderboard g keys = choose_player f2 leaderboard g keys.
Proof.
  induction f1 as [|f1 IH]; intros f2 leaderboard g keys H1 H2.
  - destruct keys; [| simpl in H1; lia].
    destruct f2; [reflexivity|]. simpl.
    destruct (getPlayerName leaderboard []) as [[r rest]|] eqn:G;
      [| reflexivity].
    apply getPlayerName_rest in G. simpl in G. lia.
  - destruct f2 as [|f2].
    + destruct keys; [| simpl in H2; lia]. simpl.
      destruct (getPlayerName leaderboard []) as [[r rest]|] eqn:G;
        [| reflexivity].
      apply getPlayerName_rest in G. simpl in G. lia.
    + cbn [choose_player].
      destruct (getPlayerName leaderboard keys) as [[r rest]|] eqn:G;
        [| reflexivity].
      apply getPlayerName_rest in G.
      destruct (str_eqb r (lit "CANCEL")); [reflexivity|].
      destruct (str_eqb r (lit "WORM_CLOSET")); [| reflexivity].
      destruct (showWormCloset g rest) as [[[g' sv] rest']|] eqn:C;
        [| reflexivity].
      apply closet_loop_rest in C. apply IH; lia.
Qed.

Lemma choose_player_facts (fuel : nat) :
  forall (leaderboard : list PlayerScore) (g g' : Globals)
         (keys rest : list Z) (n : str),
    choose_player fuel leaderboard g keys = Some (Some n, g', rest) ->
    n <> lit "CANCEL" /\ n <> lit "WORM_CLOSET" /\
    (In n (map Board.name leaderboard) \/ entered_name n) /\
    achievements g' = achievements g.
Proof.
  induction fuel as [|f IH]; intros leaderboard g g' keys rest n;
    [discriminate|].
  cbn [choose_player].
  destruct (getPlayerName leaderboard keys) as [[r rest0]|] eqn:G;
    [| discriminate].
  destruct (str_eqb r (lit "CANCEL")) eqn:E1; [discriminate|].
  destruct (str_eqb r (lit "WORM_CLOSET")) eqn:E2.
  - destruct (showWormCloset g rest0) as [[[g1 sv] rest1]|] eqn:C;
      [| discriminate].
    apply closet_loop_facts in C. destruct C as (A & _).
    intros H. apply IH in H. rewrite A in H. exact H.
  - intros H. injection H as <- <- <-.
    assert (N1 : r <> lit "CANCEL").
    { intros F. apply str_eqb_eq in F. congruence. }
    assert (N2 : r <> lit "WORM_CLOSET").
    { intros F. apply str_eqb_eq in F. congruence. }
    repeat split; auto.
    unfold getPlayerName in G.
    destruct (getUniquePlayerNames leaderboard) as [|u us] eqn:U.
    + apply new_name_loop_shape in G;
        [tauto | unfold size; simpl; lia | reflexivity].
    + rewrite <- U in G.
      destruct (showNameSelectionMenu (getUniquePlayerNames leaderboard) keys)
        as [[sel rest1]|] eqn:S; [| discriminate].
      apply selection_loop_shape in S; [| lia].
      destruct (str_eqb sel (lit "CANCEL")).
      { injection G as <- <-. contradiction. }
      destruct (str_eqb sel []) eqn:E3.
      { apply new_name_loop_shape in G;
          [tauto | unfold size; simpl; lia | reflexivity]. }
      injection G as <- <-.
      destruct S as [S | [S | [S | S]]]; try contradiction.
      * apply str_eqb_eq in S. congruence.
      * left. now apply unique_names_in.
Qed.

(** X26. When [main] has loaded the two files, shown the intro and a player
    is chosen, the leaderboard is the loaded one, the achievements are the
    loaded ones whatever was done in the worm closet, and the name of the
    player is neither "CANCEL" nor "WORM_CLOSET": it is a name of the
    leaderboard or a name entered at the prompt. *)
Theorem startup_player (leaderboard_txt achievements_txt : option str)
  (g g' : Globals) (keys rest : list Z) (leaderboard : list PlayerScore)
  (n : str) :
  startup leaderboard_txt achievements_txt g keys
  = Ok (Some (leaderboard, Some n, g', rest)) ->
  loadLeaderboard leaderboard_txt = Ok leaderboard /\
  (exists g1,
      loadAchievements achievements_txt (initializeAchievements g) = Ok g1 /\
      achievements g' = achievements g1) /\
  n <> lit "CANCEL" /\ n <> lit "WORM_CLOSET" /\
  (In n (map Board.name leaderboard) \/ entered_name n).
Proof.
  unfold startup.
  destruct (loadLeaderboard leaderboard_txt) as [lb|e]; [| discriminate].
  cbn [bind].
  destruct (loadAchievements achievements_txt (initializeAchievements g))
    as [g1|e]; [| discriminate].
  cbn [bind].
  destruct (showAnimatedIntro keys) as [keys1|]; [| discriminate].
  destruct (choose_player (length keys1) lb g1 keys1) as [[[pn g2] rest0]|]
    eqn:C; [| discriminate].
  intros H. injection H as -> -> -> ->.
  apply choose_player_facts in C. destruct C as (N1 & N2 & I & A).
  repeat split; auto. exists g1. auto.
Qed.

Lemma startup_player_witness :
  startup (Some (lit "ann|70|99|8")) None (mkGlobals [] (lit "default"))
    [ERR; ERR; 115; 32; 119; 113; 115; 10; 98; 111; 10]
  = Ok (Some ([mkScore (lit "ANN") (of_Z 70) (of_Z 99) (of_Z 8)
                 (lit "Unknown") 15 false false],
              Some (lit "BO"),
              initializeAchievements (mkGlobals [] (lit "default")), []))
  /\ lit "BO" <> lit "CANCEL".
Proof.
  assert (E : startup (Some (lit "ann|70|99|8")) None
                (mkGlobals [] (lit "default"))
                [ERR; ERR; 115; 32; 119; 113; 115; 10; 98; 111; 10]
              = Ok (Some ([mkScore (lit "ANN") (of_Z 70) (of_Z 99) (of_Z 8)
                             (lit "Unknown") 15 false false],
                          Some (lit "BO"),
                          initializeAchievements
                            (mkGlobals [] (lit "default")), [])))
    by (vm_compute; reflexivity).
  split; [exact E|].
  apply (startup_player _ _ _ _ _ _ _ _ E).
Defined.

End ScreenFacts.

(** * The text on the screen *)

Section RenderFacts.

Import Players Display Layout.

Lemma split_words_acc (target : str) :
  forall current_word acc,
    split_words target current_word acc
    = acc ++ split_words target current_word [].
Proof.
  induction target as [|c r IH]; intros cw acc; simpl.
  - destruct (negb (size cw =? 0)); [reflexivity | now rewrite app_nil_r].
  - destruct (Ascii.eqb c space).
    + rewrite IH. rewrite (IH [] (_ ++ [[space]])).
      destruct (negb (size cw =? 0)); simpl; now rewrite <- !app_assoc.
    + apply IH.
Qed.

Lemma split_words_concat (target : str) :
  forall current_word,
    concat (split_words target current_word []) = current_word ++ target.
Proof.
  induction target as [|c r IH]; intros cw; simpl.
  - destruct (Z.eqb_spec (size cw) 0) as [E|N]; simpl.
    + destruct cw; [reflexivity | discriminate].
    + now rewrite !app_nil_r.
  - destruct (Ascii.eqb_spec c space) as [->|N].
    + rewrite split_words_acc, concat_app, IH.
      destruct (Z.eqb_spec (size cw) 0) as [E|_]; simpl.
      * destruct cw; [reflexivity | discriminate].
      * rewrite ?app_nil_r, <- ?app_assoc. reflexivity.
    + rewrite IH, <- app_assoc. reflexivity.
Qed.

Lemma split_words_alternate (target : str) :
  forall current_word,
    ~ In space current_word ->
    alternate false (split_words target current_word []).
Proof.
  induction target as [|c r IH]; intros cw Hcw; simpl.
  - destruct (Z.eqb_spec (size cw) 0) as [E|N]; simpl; [exact I|].
    right. repeat split; auto. intros ->. now apply N.
  - destruct (Ascii.eqb_spec c space) as [->|N].
    + rewrite split_words_acc.
      assert (A : alternate false ([[space]] ++ split_words r [] [])).
      { simpl. left. split; [reflexivity|]. apply IH. intros []. }
      destruct (Z.eqb_spec (size cw) 0) as [E|Nz]; simpl.
      * exact A.
      * right. repeat split; auto. intros ->. now apply Nz.
    + apply IH. intros F. apply in_app_or in F as [F|[F|[]]]; auto.
Qed.

Variable has_colors : bool.
Variable max_x : Z.
Variables target typed : str.

Lemma nth_error_snoc {A : Type} (l : list A) (x : A) (i : nat) (y : A) :
  nth_error (l ++ [x]) i = Some y ->
  (nth_error l i = Some y /\ (i < length l)%nat) \/
  (i = length l /\ y = x).
Proof using Type.
  intros H. destruct (Nat.lt_ge_cases i (length l)) as [L|L].
  - left. rewrite nth_error_app1 in H by exact L. auto.
  - right. rewrite nth_error_app2 in H by exact L.
    destruct (i - length l)%nat as [|k] eqn:E.
    + simpl in H. injection H as <-. split; [lia | reflexivity].
    + simpl in H. destruct k; discriminate.
Qed.

Lemma last_cell (cells : list Cell) :
  cells = [] \/ exists l last, cells = l ++ [last].
Proof using Type.
  destruct cells as [|c cells]; [now left|]. right.
  destruct (exists_last (l := c :: cells)) as (l & last & E);
    [discriminate|]. eauto.
Qed.

Lemma draw_char_drawn (done : str) (p : Pen) (cells : list Cell) (c : ascii) :
  drawn has_colors target typed done p cells -> ready p cells c ->
  drawn has_colors target typed (done ++ [c])
        (fst (draw_char has_colors target typed (p, cells) c))
        (snd (draw_char has_colors target typed (p, cells) c)) /\
  follows (fst (draw_char has_colors target typed (p, cells) c))
          (snd (draw_char has_colors target typed (p, cells) c)) /\
  current_row (fst (draw_char has_colors target typed (p, cells) c)) = current_row p.
Proof using Type.
  intros (Hg & Hp & Hc & H0 & Hcol & Hfirst & Hcur & Hst) Hr.
  assert (Hlen : Z.of_nat (length cells) = size done).
  { rewrite <- Hg. unfold size. now rewrite length_map. }
  pose proof (size_nonneg done) as Hd.
  cbn [draw_char fst snd current_row].
  split; [| split; [| reflexivity]].
  - unfold drawn. cbn [char_pos current_col cursor_row cursor_col].
    rewrite map_app, Hg, size_app, size_cons, size_nil.
    split; [reflexivity|]. split; [lia|]. split; [lia|].
    split; [intros F; now destruct cells|].
    split; [| split; [| split]].
    + intros i cell H. apply nth_error_snoc in H as [[H _]|[-> ->]].
      * now apply Hcol.
      * cbn [color]. now rewrite Hp, Hlen.
    + intros cell H. apply nth_error_snoc in H as [[H _]|[E ->]].
      * now apply Hfirst.
      * cbn [col]. apply H0. destruct cells; [reflexivity | discriminate].
    + intros Ht. destruct (Z.eqb_spec (char_pos p) (size typed)) as [E|N].
      * exists (mkCell (current_row p) (current_col p) c
                  (if has_colors
                   then Some (status target typed (char_pos p))
                   else None)).
        rewrite <- E, Hp, <- Hlen, Nat2Z.id.
        rewrite nth_error_app2, Nat.sub_diag by lia. auto.
      * destruct Hcur as (cell & Hc1 & Hc2 & Hc3); [lia|].
        exists cell. rewrite nth_error_app1; [auto|].
        apply nth_error_Some. congruence.
    + intros i a b Ha Hb.
      apply nth_error_snoc in Hb as [[Hb Lb]|[Eb ->]].
      * apply nth_error_snoc in Ha as [[Ha _]|[Ea _]]; [eauto | lia].
      * apply nth_error_snoc in Ha as [[Ha La]|[Ea _]]; [| lia].
        destruct (last_cell cells) as [->|(l & last & E)];
          [simpl in Eb; lia|].
        assert (a = last).
        { subst cells. rewrite length_app in Eb. simpl in Eb.
          rewrite nth_error_app2 in Ha by lia.
          replace (i - length l)%nat with 0%nat in Ha by lia.
          simpl in Ha. congruence. }
        subst a. unfold beside, wrapped. cbn [row col glyph].
        destruct (Hr l last E) as [[R1 R2]|(R1 & R2 & R3 & R4)]; auto.
  - intros l last E. apply app_inj_tail in E as [_ <-]. cbn. auto.
Qed.

Lemma follows_ready (p : Pen) (cells : list Cell) (c : ascii) :
  follows p cells -> ready p cells c.
Proof using Type. intros F l last E. left. exact (F l last E). Qed.

Lemma draw_chars_drawn (w : str) :
  forall (c : ascii) (done : str) (p : Pen) (cells : list Cell),
    drawn has_colors target typed done p cells -> ready p cells c ->
    let st := fold_left (draw_char has_colors target typed) (c :: w) (p, cells) in
    drawn has_colors target typed (done ++ c :: w) (fst st) (snd st) /\
    follows (fst st) (snd st) /\
    current_row (fst st) = current_row p /\
    (forall l z, snd st = l ++ [z] -> In (glyph z) (c :: w)).
Proof using Type.
  induction w as [|d w IH]; intros c done p cells Hd Hr.
  - cbn [fold_left].
    destruct (draw_char_drawn done p cells c Hd Hr) as (A & B & C).
    destruct (draw_char has_colors target typed (p, cells) c) as [p1 cs1] eqn:E.
    cbn [fst snd] in *.
    split; [exact A | split; [exact B | split; [exact C |]]].
    intros l z El. unfold draw_char in E. injection E as _ <-.
    apply app_inj_tail in El as [_ <-]. now left.
  - cbn [fold_left].
    destruct (draw_char_drawn done p cells c Hd Hr) as (A & B & C).
    destruct (draw_char has_colors target typed (p, cells) c) as [p1 cs1].
    cbn [fst snd] in *.
    destruct (IH d (done ++ [c]) p1 cs1 A (follows_ready _ _ _ B))
      as (A' & B' & C' & D').
    cbv zeta in *. cbn [fold_left] in *.
    rewrite <- app_assoc in A'.
    split; [exact A' | split; [exact B' | split; [congruence |]]].
    intros l z El. right. exact (D' l z El).
Qed.

Lemma drawn_place (done : str) (p : Pen) (cells : list Cell) (w : str) :
  drawn has_colors target typed done p cells ->
  drawn has_colors target typed done (place_word max_x p w) cells.
Proof using Type.
  intros D. unfold place_word.
  destruct (_ && _); [| exact D].
  destruct D as (Hg & Hp & Hc & H0 & Hcol & Hfirst & Hcur & Hst).
  pose proof (size_nonneg done).
  unfold drawn. cbn [char_pos current_col cursor_row cursor_col].
  repeat split; auto; lia.
Qed.

Lemma draw_word_drawn (w done : str) (p : Pen) (cells : list Cell) :
  w = [space] \/
  (w <> [] /\ ~ In space w /\
   forall l z, cells = l ++ [z] -> glyph z = space) ->
  drawn has_colors target typed done p cells -> follows p cells ->
  let st := draw_word has_colors max_x target typed (p, cells) w in
  drawn has_colors target typed (done ++ w) (fst st) (snd st) /\
  follows (fst st) (snd st) /\
  (forall l z, snd st = l ++ [z] -> In (glyph z) w).
Proof using Type.
  intros Hw D F. cbv zeta. unfold draw_word.
  destruct w as [|c w]; [destruct Hw as [Hw|(Hw & _)]; [discriminate|];
                         now contradiction Hw|].
  assert (R : ready (place_word max_x p (c :: w)) cells c).
  { unfold place_word.
    destruct (negb (str_eqb (c :: w) [space])) eqn:E1; cbn [andb];
      [| now apply follows_ready].
    destruct (wrap (text_limit max_x) <? wrap (current_col p + size (c :: w)));
      [| now apply follows_ready].
    destruct Hw as [Hw|(_ & Hs & Hl)].
    { rewrite Hw in E1. discriminate. }
    intros l z El. right. destruct (F l z El) as [F1 F2].
    cbn [current_row current_col]. repeat split; eauto; try lia.
    intros ->. apply Hs. now left. }
  destruct (draw_chars_drawn w c done (place_word max_x p (c :: w)) cells
              (drawn_place done p cells (c :: w) D) R) as (A & B & _ & L).
  cbv zeta in *. auto.
Qed.

Lemma render_pieces (ws : list str) :
  forall (after_word : bool) (done : str) (p : Pen) (cells : list Cell),
    alternate after_word ws ->
    drawn has_colors target typed done p cells -> follows p cells ->
    (after_word = false -> forall l z, cells = l ++ [z] -> glyph z = space) ->
    let st := fold_left (draw_word has_colors max_x target typed) ws (p, cells) in
    drawn has_colors target typed (done ++ concat ws) (fst st) (snd st).
Proof using Type.
  induction ws as [|w ws IH]; intros after_word done p cells A D F L.
  - simpl. now rewrite app_nil_r.
  - change (concat (w :: ws)) with (w ++ concat ws). rewrite app_assoc.
    cbn [fold_left]. simpl in A.
    destruct A as [[-> A]|(-> & Hn & Hs & A)].
    + destruct (draw_word_drawn [space] done p cells (or_introl eq_refl) D F)
        as (D1 & F1 & L1).
      destruct (draw_word has_colors max_x target typed (p, cells) [space])
        as [p1 cs1]. cbn [fst snd] in *.
      apply (IH false); auto.
      intros _ l z E. destruct (L1 l z E) as [<-|[]]. reflexivity.
    + assert (Hw : w = [space] \/
                   (w <> [] /\ ~ In space w /\
                    forall l z, cells = l ++ [z] -> glyph z = space))
        by (right; split; [exact Hn | split; [exact Hs | now apply L]]).
      destruct (draw_word_drawn w done p cells Hw D F) as (D1 & F1 & L1).
      destruct (draw_word has_colors max_x target typed (p, cells) w) as [p1 cs1].
      cbn [fst snd] in *.
      apply (IH true); auto. discriminate.
Qed.

Lemma render_drawn :
  drawn has_colors target typed target (fst (render has_colors max_x target typed))
        (snd (render has_colors max_x target typed)).
Proof using Type.
  unfold render.
  pose proof (render_pieces (split_words target [] []) false []
                (mkPen 0 first_row start_col first_row start_col first_row)
                []) as H.
  cbv zeta in H. rewrite split_words_concat in H. apply H.
  - apply split_words_alternate. intros [].
  - unfold drawn. cbn. repeat split; try lia; try reflexivity.
    + intros i cell E. destruct i; discriminate.
    + intros cell E. discriminate.
    + pose proof (size_nonneg typed). unfold size at 2. simpl. lia.
    + intros i a b E. destruct i; discriminate.
  - intros l z E. destruct l; discriminate.
  - intros _ l z E. destruct l; discriminate.
Qed.

(** X28. The rendering loop calls [mvaddch] once for each character of the
    target, in order. On a terminal with colours each call is made with the
    pair of its character's state switched on: 1 when the character typed at
    its position is the same, 2 when it is another, 3 when nothing is typed
    there yet; on a terminal without colours no pair is switched on. While
    the text is not complete, the cursor variables hold the position given
    to the call for the first character not yet typed. *)
Theorem render_shows_target :
  let p := fst (render has_colors max_x target typed) in
  let cells := snd (render has_colors max_x target typed) in
  map glyph cells = target /\
  (forall i cell, nth_error cells i = Some cell ->
                  color cell
                  = if has_colors
                    then Some (status target typed (Z.of_nat i))
                    else None) /\
  (size typed < size target ->
   exists cell, nth_error cells (Z.to_nat (size typed)) = Some cell /\
                cursor_row p = row cell /\ cursor_col p = col cell).
Proof using Type.
  cbv zeta.
  destruct render_drawn as (Hg & _ & _ & _ & Hcol & _ & Hcur & _).
  auto.
Qed.

(** X29. The text starts in the first column of the text area, and each
    character is drawn right of the one before it, on the same row, except
    where a row ends: a new row starts only with the first character of a
    word, after a space, and in the first column. No word is cut, and no
    row starts with a space. *)
Theorem render_keeps_words_whole :
  let cells := snd (render has_colors max_x target typed) in
  (forall cell, nth_error cells 0 = Some cell -> col cell = start_col) /\
  (forall i a b, nth_error cells i = Some a ->
                 nth_error cells (S i) = Some b ->
                 beside a b \/ wrapped a b).
Proof using Type.
  cbv zeta.
  destruct render_drawn as (_ & _ & _ & _ & _ & Hfirst & _ & Hst).
  auto.
Qed.

Lemma draw_chars_cells (w : str) :
  forall (p : Pen) (cells : list Cell),
    let st := fold_left (draw_char has_colors target typed) w (p, cells) in
    current_col (fst st) = current_col p + size w /\
    exists new,
      snd st = cells ++ new /\
      Forall (fun cell => In (glyph cell) w /\
                          current_col p <= col cell < current_col p + size w)
             new.
Proof using Type.
  induction w as [|c w IH]; intros p cells.
  - simpl. split; [rewrite size_nil; lia|].
    exists []. rewrite app_nil_r. auto.
  - cbn [fold_left draw_char].
    match goal with
    | |- context [fold_left _ w (?q, ?cs)] =>
        destruct (IH q cs) as (E & new & En & Fn)
    end.
    cbv zeta in *. cbn [current_col] in *.
    pose proof (size_nonneg w).
    split; [rewrite E, size_cons; lia|].
    eexists. rewrite En, <- app_assoc. split; [reflexivity|].
    constructor.
    + cbn [glyph col]. rewrite size_cons. split; [now left | lia].
    + eapply Forall_impl; [| exact Fn]. cbv beta.
      intros cell [I B]. rewrite size_cons. split; [now right | lia].
Qed.

(** No word reaches the right margin when every word is short enough for
    the text area. *)
Lemma render_pieces_inside (ws : list str) :
  forall (p : Pen) (cells : list Cell),
    0 <= text_limit max_x < 2 ^ 64 ->
    Forall (fun w => size w <= text_limit max_x - start_col) ws ->
    start_col <= current_col p ->
    current_col p + size (concat ws) < 2 ^ 64 ->
    Forall (fun cell => glyph cell <> space ->
                        start_col <= col cell < text_limit max_x) cells ->
    Forall (fun cell => glyph cell <> space ->
                        start_col <= col cell < text_limit max_x)
      (snd (fold_left (draw_word has_colors max_x target typed) ws (p, cells))).
Proof using Type.
  induction ws as [|w ws IH]; intros p cells Hl Hw Hp Hb Hc; [exact Hc|].
  inversion Hw as [|? ? Hw1 Hw2]; subst.
  change (concat (w :: ws)) with (w ++ concat ws) in Hb.
  rewrite size_app in Hb.
  pose proof (size_nonneg w). pose proof (size_nonneg (concat ws)).
  assert (Hsc : start_col = 4) by reflexivity.
  cbn [fold_left]. unfold draw_word at 2.
  destruct (draw_chars_cells w (place_word max_x p w) cells)
    as (E & new & En & Fn).
  cbv zeta in *.
  destruct (fold_left (draw_char has_colors target typed) w
              (place_word max_x p w, cells)) as [p1 cs1].
  cbn [fst snd] in *. subst cs1.
  assert (Q : start_col <= current_col (place_word max_x p w) <= current_col p).
  { unfold place_word. destruct (_ && _); cbn [current_col]; lia. }
  apply IH; auto; try lia.
  apply Forall_app. split; [exact Hc|].
  eapply Forall_impl; [| exact Fn]. cbv beta.
  intros cell [I B] Hs. split; [lia|].
  unfold place_word in *.
  destruct (str_eqb w [space]) eqn:S1.
  { apply str_eqb_eq in S1. subst w. destruct I as [I|[]].
    exfalso. now apply Hs. }
  cbn [negb andb] in B.
  rewrite (wrap_small (text_limit max_x)) in B by lia.
  rewrite (wrap_small (current_col p + size w)) in B by lia.
  destruct (Z.ltb_spec (text_limit max_x) (current_col p + size w));
    cbn [current_col] in B; lia.
Qed.

End RenderFacts.

Section RenderedTarget.

Import Players Display Layout.

Lemma split_words_word (t : str) :
  forall (r cw : str),
    ~ In space t ->
    split_words (t ++ r) cw [] = split_words r (cw ++ t) [].
Proof.
  induction t as [|c t IH]; intros r cw H; simpl.
  - now rewrite app_nil_r.
  - destruct (Ascii.eqb_spec c space) as [->|_];
      [exfalso; apply H; now left|].
    rewrite IH by (intros F; apply H; now right).
    now rewrite <- app_assoc.
Qed.

Lemma split_words_rest (n : Z) (rest : list str) :
  1 <= n ->
  Forall (fun t => t <> [] /\ size t <= n /\ ~ In space t) rest ->
  forall cw : str,
    cw <> [] -> size cw <= n ->
    Forall (fun w => size w <= n)
      (split_words (concat (map (cons space) rest)) cw []).
Proof.
  intros Hn H. induction H as [|u rest (U1 & U2 & U3) _ IH]; intros cw C1 C2.
  - simpl. destruct (Z.eqb_spec (size cw) 0) as [E|_]; simpl.
    + constructor.
    + constructor; [exact C2 | constructor].
  - simpl. rewrite split_words_acc, split_words_word by exact U3.
    simpl app at 2.
    destruct (Z.eqb_spec (size cw) 0) as [E|_]; simpl.
    + constructor; [rewrite size_cons, size_nil; lia|]. now apply IH.
    + constructor; [exact C2|].
      constructor; [rewrite size_cons, size_nil; lia|]. now apply IH.
Qed.

Lemma split_words_join (n : Z) (tokens : list str) :
  1 <= n ->
  Forall (fun t => t <> [] /\ size t <= n /\ ~ In space t) tokens ->
  Forall (fun w => size w <= n) (split_words (join tokens) [] []).
Proof.
  intros Hn H. destruct H as [|t rest (T1 & T2 & T3) Hr]; [constructor|].
  simpl join. rewrite split_words_word by exact T3. simpl app.
  now apply split_words_rest.
Qed.

Lemma new_target_bound (cfg : Config) (rand : nat -> nat) (k : nat) :
  valid_config cfg -> 1 <= size (new_target cfg rand k) <= 13000.
Proof.
  intros V. destruct (new_target_facts cfg rand k V) as (_ & _ & Hpos).
  split; [lia|]. unfold valid_config in V. unfold new_target, generate.
  rewrite generate_loop_join.
  pose proof (picks_ok _ (pool_tokens_ok (includePunctuation cfg)
                            (includeNumbers cfg))
                (pool_not_empty _ _) rand (Z.to_nat (cfg_wordCount cfg)) k)
    as Hall.
  pose proof (picks_length (pool (includePunctuation cfg) (includeNumbers cfg))
                rand (Z.to_nat (cfg_wordCount cfg)) k) as Hlen.
  assert (B : size (join (picks (pool (includePunctuation cfg)
                                   (includeNumbers cfg)) rand
                            (Z.to_nat (cfg_wordCount cfg)) k))
              <= 13 * Z.of_nat (Z.to_nat (cfg_wordCount cfg))).
  { rewrite <- Hlen at 2. apply join_size.
    eapply Forall_impl; [| exact Hall]. cbv beta.
    intros t Ht. now apply token_ok_inv in Ht. }
  lia.
Qed.

(** X30. On a terminal of at least 22 columns the words of a generated text
    stay inside the text area: every character that is not a space is
    drawn from the first column of the area on and left of its right
    limit, whatever has been typed. *)
Theorem render_within_text_area (cfg : Config) (rand : nat -> nat) (k : nat)
  (typed : str) (max_x : Z) (has_colors : bool) :
  valid_config cfg -> 22 <= max_x <= INT_MAX ->
  forall cell,
    In cell (snd (render has_colors max_x (new_target cfg rand k) typed)) ->
    glyph cell <> space ->
    start_col <= col cell < text_limit max_x.
Proof.
  intros V Hx.
  pose proof (new_target_bound cfg rand k V) as Hfit.
  apply (proj1 (Forall_forall
                  (fun cell => glyph cell <> space ->
                               start_col <= col cell < text_limit max_x) _)).
  unfold render.
  assert (L : text_limit max_x = max_x - 6) by (unfold text_limit, win_start_x; lia).
  unfold INT_MAX in Hx.
  apply render_pieces_inside.
  - lia.
  - assert (P : Forall (fun w => size w <= 12)
                  (split_words (new_target cfg rand k) [] [])).
    { unfold new_target, generate. rewrite generate_loop_join.
      apply split_words_join; [lia|].
      pose proof (picks_ok _ (pool_tokens_ok (includePunctuation cfg)
                                (includeNumbers cfg))
                    (pool_not_empty _ _) rand
                    (Z.to_nat (cfg_wordCount cfg)) k) as Hall.
      eapply Forall_impl; [| exact Hall]. cbv beta.
      intros t Ht. apply token_ok_inv in Ht.
      destruct Ht as (A & B & C & _). unfold size. repeat split; auto; lia. }
    eapply Forall_impl; [| exact P]. cbv beta. intros w Hw.
    rewrite L. unfold start_col, win_start_x. lia.
  - cbn. lia.
  - rewrite split_words_concat. cbn [current_col app].
    unfold start_col, win_start_x. lia.
  - constructor.
Qed.

End RenderedTarget.

Lemma render_within_text_area_witness :
  let cfg := mkConfig 3 false false in
  let rnd := fun k : nat => (k * 15)%nat in
  new_target cfg rnd 0 = lit "the computer folder" /\
  map (fun c => (Display.row c, Display.col c))
    (snd (Display.render true 22 (new_target cfg rnd 0) (lit "thx")))
  = [(8, 4); (8, 5); (8, 6); (8, 7);
     (8, 8); (8, 9); (8, 10); (8, 11); (8, 12); (8, 13); (8, 14); (8, 15);
     (8, 16);
     (9, 4); (9, 5); (9, 6); (9, 7); (9, 8); (9, 9)] /\
  forall cell,
    In cell (snd (Display.render true 22 (new_target cfg rnd 0) (lit "thx"))) ->
    Display.glyph cell <> space ->
    Display.start_col <= Display.col cell < Display.text_limit 22.
Proof.
  cbv zeta. split; [vm_compute; reflexivity|].
  split; [vm_compute; reflexivity|].
  apply render_within_text_area.
  - unfold valid_config. simpl. lia.
  - unfold INT_MAX. lia.
Defined.

(** * The score of a text typed without a mistake *)

Section PerfectScore.

Lemma all_from_spec (check : Z -> bool) (count : nat) :
  forall n k : Z,
    Words.all_from check count n = true ->
    n <= k < n + Z.of_nat count -> check k = true.
Proof.
  induction count as [|c IH]; intros n k H Hk; [lia|].
  simpl in H. apply andb_true_iff in H as [H1 H2].
  destruct (Z.eq_dec k n) as [->|N]; [exact H1|].
  apply (IH (n + 1)); [exact H2 | lia].
Qed.

Lemma perfect_accuracy (n : Z) :
  1 <= n <= 13000 ->
  ddiv (dmul (of_Z n) (of_Z 100)) (of_Z n) = of_Z 100.
Proof.
  intros Hn.
  assert (A : Words.all_from Words.exact_100 (Z.to_nat 13000) 1 = true)
    by (vm_compute; reflexivity).
  assert (R : 1 <= n < 1 + Z.of_nat (Z.to_nat 13000)) by lia.
  pose proof (all_from_spec Words.exact_100 _ 1 n A R) as I.
  unfold Words.exact_100 in I. clear A R.
  destruct (ddiv (dmul (of_Z n) (of_Z 100)) (of_Z n)) as [| | |s m e];
    try discriminate.
  destruct s; [discriminate|].
  apply andb_true_iff in I as [I1 I2].
  apply Pos.eqb_eq in I1. apply Z.eqb_eq in I2. subst. reflexivity.
Qed.

(** X27. A generated text typed without a mistake is scored with an
    accuracy of exactly 100: no penalty applies, and the WPM recorded is
    the raw rate, the fifth of the number of characters divided by the
    minutes elapsed, times 1. *)
Theorem perfect_run_scores_100 (cfg : Config) (rand : nat -> nat) (k : nat)
  (s : State) (now : Z) :
  valid_config cfg ->
  target s = new_target cfg rand k -> typed s = target s ->
  stat_accuracy (final_stats s now) = of_Z 100 /\
  stat_wpm (final_stats s now)
  = dmul (ddiv (ddiv (of_Z (size (target s))) (of_Z 5))
            (ddiv (difftime now (start_time s)) (of_Z 60)))
      (of_Z 1).
Proof.
  intros V Ht Hty.
  pose proof (new_target_bound cfg rand k V) as B. rewrite <- Ht in B.
  unfold final_stats, score. cbn [stat_accuracy stat_wpm].
  rewrite Hty, count_correct_same, (perfect_accuracy _ B).
  split; reflexivity.
Qed.

End PerfectScore.

Lemma perfect_run_scores_100_witness :
  let cfg := mkConfig 2 false true in
  let rnd := fun k : nat => (k + 7)%nat in
  let s := mkState (lit "7 8") (lit "7 8") 100 true npos false 2 in
  final_stats s 103
  = mkStats
      (dmul (ddiv (ddiv (of_Z 3) (of_Z 5)) (ddiv (of_Z 3) (of_Z 60)))
         (of_Z 1))
      (of_Z 100) (of_Z 3) /\
  stat_accuracy (final_stats s 103) = of_Z 100.
Proof.
  cbv zeta. split; [vm_compute; reflexivity|].
  apply (perfect_run_scores_100 (mkConfig 2 false true)
           (fun k : nat => (k + 7)%nat) 0).
  - unfold valid_config. simpl. lia.
  - reflexivity.
  - reflexivity.
Defined.
